(** * SportGate Pass: the local record store, the seed obfuscation and the
    signed QR token of [src/services/DatabaseService.ts]

    A shallow embedding of [DatabaseServiceClass] and of the platform
    functions it calls, followed by the properties of the specification
    and by further properties of the service.

    Conventions of the embedding.
    - A JavaScript string is its UTF-8 byte sequence, a [string] of Rocq;
      a "binary string" (the argument of [btoa], the result of [atob]) is
      the [string] of its bytes.
    - A JavaScript number is an integer [Z]: record ids and epoch
      milliseconds, which the source holds exactly up to [2 ^ 53].  Number
      literals with a fraction or an exponent are outside the embedding,
      and [JSON_parse] does not accept them.  What is stated of every
      input of [verifyQRData] is stated over [verifyQRData_on], its body
      over a record of the answers of the engine, and holds whatever the
      engine reads as a number.
    - [undefined] is the [None] of an [option json]; an object is the list
      of its members in the order of the text.
    - A rejected promise or a thrown exception is [Throw]; [await] is the
      bind of the [result] monad.
    - [Date.now()], the device description, the random salt, the SQLite
      table and the secure store are explicit arguments and results, and
      so is the collation [localeCompare] of the locale.  The calls of the
      secure store and of SQLite are taken to succeed. *)

From Stdlib Require Import ZArith NArith Lia Bool List Ascii String.
From Stdlib Require Import DecimalString DecimalZ DecimalN DecimalPos DecimalFacts.
From Stdlib Require Import Sorted Permutation.
From stdpp Require Import base option gmap strings.

Import ListNotations.
Local Open Scope Z_scope.

(* ================================================================= *)
(** ** Exceptions *)

Inductive exn : Type :=
| Error (msg : string)
| SyntaxError
| TypeError
| URIError
| InvalidCharacterError.

Inductive result (A : Type) : Type :=
| Ok (a : A)
| Throw (e : exn).
Arguments Ok {A} a.
Arguments Throw {A} e.

#[global] Instance result_ret : MRet result := fun A a => Ok a.
#[global] Instance result_bind : MBind result := fun A B f m =>
  match m with
  | Ok a => f a
  | Throw e => Throw e
  end.

(** [try { body } catch { handler }] *)
Definition try_catch {A} (body : result A) (handler : exn -> A) : A :=
  match body with
  | Ok a => a
  | Throw e => handler e
  end.

(* ================================================================= *)
(** ** Characters and strings *)

Definition code (c : ascii) : N := N_of_ascii c.

Fixpoint string_forallb (p : ascii -> bool) (s : string) : bool :=
  match s with
  | EmptyString => true
  | String c s' => p c && string_forallb p s'
  end.

(** [s.substring(0, n)] *)
Definition substring0 (n : nat) (s : string) : string := String.substring 0 n s.

(** [String.prototype.split] with a string separator: the pieces between
    the occurrences of the separator, found from left to right.  [skip]
    counts the characters of a matched separator still to be passed over,
    [cur] holds the piece under construction, last character first.  (With
    an empty separator the pieces are the characters; the service has no
    such call.) *)
Fixpoint split_go (sep : string) (skip : nat) (cur : list ascii) (s : string)
  : list string :=
  match s with
  | EmptyString => [string_of_list_ascii (rev cur)]
  | String c s' =>
      match skip with
      | S k => split_go sep k cur s'
      | O =>
          if String.prefix sep s
          then string_of_list_ascii (rev cur)
                 :: split_go sep (String.length sep - 1) [] s'
          else split_go sep O (c :: cur) s'
      end
  end.

Definition str_split (sep s : string) : list string :=
  match sep with
  | EmptyString => map (fun c => String c EmptyString) (list_ascii_of_string s)
  | _ => split_go sep O [] s
  end.

(** [s.includes(t)] *)
Fixpoint includes (t s : string) : bool :=
  String.prefix t s ||
  match s with
  | EmptyString => false
  | String _ s' => includes t s'
  end.

(* ================================================================= *)
(** ** JSON values *)

#[local] Set Warnings "-register-all".
Inductive json : Type :=
| JNull
| JBool (b : bool)
| JNum (n : Z)
| JStr (s : string)
| JArr (items : list json)
| JObj (fields : list (string * json)).

Definition dquote : ascii := "034"%char.
Definition backslash : ascii := "092"%char.

Definition hex_digit (n : N) : ascii :=
  match n with
  | 0 => "0" | 1 => "1" | 2 => "2" | 3 => "3" | 4 => "4" | 5 => "5"
  | 6 => "6" | 7 => "7" | 8 => "8" | 9 => "9" | 10 => "a" | 11 => "b"
  | 12 => "c" | 13 => "d" | 14 => "e" | _ => "f"
  end%N%char.

(** *** [JSON.stringify] *)

(** QuoteJSONString, one character at a time. *)
Definition escape_char (c : ascii) : string :=
  if Ascii.eqb c dquote then String backslash (String dquote EmptyString)
  else if Ascii.eqb c backslash then String backslash (String backslash EmptyString)
  else if Ascii.eqb c "008" then String backslash "b"
  else if Ascii.eqb c "012" then String backslash "f"
  else if Ascii.eqb c "010" then String backslash "n"
  else if Ascii.eqb c "013" then String backslash "r"
  else if Ascii.eqb c "009" then String backslash "t"
  else if (code c <? 32)%N
       then String backslash
              (String "u" (String "0" (String "0"
                 (String (hex_digit (code c / 16))
                    (String (hex_digit (code c mod 16)) EmptyString)))))
       else String c EmptyString.

Fixpoint escape_string (s : string) : string :=
  match s with
  | EmptyString => EmptyString
  | String c s' => escape_char c +:+ escape_string s'
  end.

Definition quote (s : string) : string :=
  String dquote (escape_string s +:+ String dquote EmptyString).

(** Number::toString for an integer. *)
Definition number_to_string (n : Z) : string :=
  NilZero.string_of_int (Z.to_int n).

Fixpoint JSON_stringify (v : json) : string :=
  match v with
  | JNull => "null"
  | JBool true => "true"
  | JBool false => "false"
  | JNum n => number_to_string n
  | JStr s => quote s
  | JArr items =>
      match items with
      | [] => "[]"
      | x :: items' =>
          "[" +:+ JSON_stringify x +:+
          (fix more (l : list json) : string :=
             match l with
             | [] => "]"
             | y :: l' => "," +:+ JSON_stringify y +:+ more l'
             end) items'
      end
  | JObj fields =>
      match fields with
      | [] => "{}"
      | (k, x) :: fields' =>
          "{" +:+ quote k +:+ ":" +:+ JSON_stringify x +:+
          (fix more (l : list (string * json)) : string :=
             match l with
             | [] => "}"
             | (k', y) :: l' =>
                 "," +:+ quote k' +:+ ":" +:+ JSON_stringify y +:+ more l'
             end) fields'
      end
  end.

(** *** [JSON.parse] *)

Definition is_json_ws (c : ascii) : bool :=
  Ascii.eqb c " " || Ascii.eqb c "009" || Ascii.eqb c "010" || Ascii.eqb c "013".

Fixpoint skip_ws (s : string) : string :=
  match s with
  | EmptyString => EmptyString
  | String c s' => if is_json_ws c then skip_ws s' else s
  end.

Definition hex_value (c : ascii) : option N :=
  let n := code c in
  if (48 <=? n)%N && (n <=? 57)%N then Some (n - 48)%N
  else if (97 <=? n)%N && (n <=? 102)%N then Some (n - 87)%N
  else if (65 <=? n)%N && (n <=? 70)%N then Some (n - 55)%N
  else None.

Definition hex4 (h1 h2 h3 h4 : ascii) : option N :=
  a ← hex_value h1; b ← hex_value h2; c ← hex_value h3; d ← hex_value h4;
  Some (((a * 16 + b) * 16 + c) * 16 + d)%N.

Definition byte_string (n : N) : string := String (ascii_of_N n) EmptyString.

(** The UTF-8 bytes of one code point (of a lone surrogate too). *)
Definition utf8_encode (cp : N) : string :=
  (if cp <? 128 then byte_string cp
   else if cp <? 2048 then
     byte_string (192 + cp / 64) +:+ byte_string (128 + cp mod 64)
   else if cp <? 65536 then
     byte_string (224 + cp / 4096) +:+ byte_string (128 + (cp / 64) mod 64)
       +:+ byte_string (128 + cp mod 64)
   else
     byte_string (240 + cp / 262144) +:+ byte_string (128 + (cp / 4096) mod 64)
       +:+ byte_string (128 + (cp / 64) mod 64) +:+ byte_string (128 + cp mod 64))%N.

(** The character of a two-character escape, [None] for [\u] and for the
    characters that cannot follow a backslash. *)
Definition unescape_simple (e : ascii) : option ascii :=
  if Ascii.eqb e dquote then Some dquote
  else if Ascii.eqb e backslash then Some backslash
  else if Ascii.eqb e "/" then Some "/"%char
  else if Ascii.eqb e "b" then Some "008"%char
  else if Ascii.eqb e "f" then Some "012"%char
  else if Ascii.eqb e "n" then Some "010"%char
  else if Ascii.eqb e "r" then Some "013"%char
  else if Ascii.eqb e "t" then Some "009"%char
  else None.

(** When [hi] is a high surrogate and [s] starts with the escape of a low
    surrogate, the code point of the pair. *)
Definition surrogate_pair (hi : N) (s : string) : option N :=
  match s with
  | String b (String u (String l1 (String l2 (String l3 (String l4 _))))) =>
      if Ascii.eqb b backslash && Ascii.eqb u "u"
         && (55296 <=? hi)%N && (hi <=? 56319)%N
      then
        match hex4 l1 l2 l3 l4 with
        | Some lo =>
            if (56320 <=? lo)%N && (lo <=? 57343)%N
            then Some (65536 + (hi - 55296) * 1024 + (lo - 56320))%N
            else None
        | None => None
        end
      else None
  | _ => None
  end.

(** The characters of a string literal after its opening quote, and the
    input after its closing quote. *)
Fixpoint parse_string_body (s : string) : result (string * string) :=
  match s with
  | EmptyString => Throw SyntaxError
  | String c s1 =>
      if Ascii.eqb c dquote then Ok (EmptyString, s1)
      else if Ascii.eqb c backslash then
        match s1 with
        | EmptyString => Throw SyntaxError
        | String e s2 =>
            match unescape_simple e with
            | Some c' =>
                '(body, rest) ← parse_string_body s2; Ok (String c' body, rest)
            | None =>
                if Ascii.eqb e "u" then
                  match s2 with
                  | String h1 (String h2 (String h3 (String h4 s3))) =>
                      match hex4 h1 h2 h3 h4 with
                      | None => Throw SyntaxError
                      | Some hi =>
                          match surrogate_pair hi s3, s3 with
                          | Some cp,
                            String _ (String _ (String _ (String _
                              (String _ (String _ s4))))) =>
                              '(body, rest) ← parse_string_body s4;
                              Ok (utf8_encode cp +:+ body, rest)
                          | _, _ =>
                              '(body, rest) ← parse_string_body s3;
                              Ok (utf8_encode hi +:+ body, rest)
                          end
                      end
                  | _ => Throw SyntaxError
                  end
                else Throw SyntaxError
            end
        end
      else if (code c <? 32)%N then Throw SyntaxError
      else '(body, rest) ← parse_string_body s1; Ok (String c body, rest)
  end.

Definition digit_of_ascii (c : ascii) : option (Decimal.uint -> Decimal.uint) :=
  match c with
  | "0" => Some Decimal.D0 | "1" => Some Decimal.D1 | "2" => Some Decimal.D2
  | "3" => Some Decimal.D3 | "4" => Some Decimal.D4 | "5" => Some Decimal.D5
  | "6" => Some Decimal.D6 | "7" => Some Decimal.D7 | "8" => Some Decimal.D8
  | "9" => Some Decimal.D9 | _ => None
  end%char.

Fixpoint scan_digits (s : string) : Decimal.uint * string :=
  match s with
  | EmptyString => (Decimal.Nil, EmptyString)
  | String c s' =>
      match digit_of_ascii c with
      | Some d => let '(u, rest) := scan_digits s' in (d u, rest)
      | None => (Decimal.Nil, s)
      end
  end.

(** An integer literal: an optional minus sign, then [0] or a digit
    sequence without a leading zero.  [JSON.parse] also reads a fraction
    and an exponent after it; a text with such a literal is outside the
    embedding, and is refused here. *)
Definition parse_number (s : string) : result (Z * string) :=
  let '(negative, s1) :=
    match s with
    | String "-" r => (true, r)
    | _ => (false, s)
    end in
  let '(u, rest) := scan_digits s1 in
  match u with
  | Decimal.Nil => Throw SyntaxError
  | Decimal.D0 Decimal.Nil => Ok (0, rest)
  | Decimal.D0 _ => Throw SyntaxError
  | _ => Ok (if negative then - Z.of_uint u else Z.of_uint u, rest)
  end.

Fixpoint strip_prefix (p s : string) : option string :=
  match p, s with
  | EmptyString, _ => Some s
  | String a p', String b s' => if Ascii.eqb a b then strip_prefix p' s' else None
  | String _ _, EmptyString => None
  end.

Definition parse_literal (s : string) : result (json * string) :=
  match strip_prefix "true" s, strip_prefix "false" s, strip_prefix "null" s with
  | Some r, _, _ => Ok (JBool true, r)
  | _, Some r, _ => Ok (JBool false, r)
  | _, _, Some r => Ok (JNull, r)
  | _, _, _ => Throw SyntaxError
  end.

Definition starts_number (c : ascii) : bool :=
  Ascii.eqb c "-" || match digit_of_ascii c with Some _ => true | None => false end.

(** The input after the character [c], when [c] is the next character
    that is not white space. *)
Definition next_is (c : ascii) (s : string) : option string :=
  match skip_ws s with
  | EmptyString => None
  | String c' r => if Ascii.eqb c' c then Some r else None
  end.

(** Recursive descent.  Every call takes one unit of [fuel]; [JSON_parse]
    provides more than any input can use. *)
Fixpoint parse_value (fuel : nat) (s : string) {struct fuel}
  : result (json * string) :=
  match fuel with
  | O => Throw SyntaxError
  | S fuel' =>
      match skip_ws s with
      | EmptyString => Throw SyntaxError
      | String c r as s0 =>
          if Ascii.eqb c "{" then
            match next_is "}" r with
            | Some r' => Ok (JObj [], r')
            | None => '(fs, r') ← parse_members fuel' r; Ok (JObj fs, r')
            end
          else if Ascii.eqb c "[" then
            match next_is "]" r with
            | Some r' => Ok (JArr [], r')
            | None => '(vs, r') ← parse_elements fuel' r; Ok (JArr vs, r')
            end
          else if Ascii.eqb c dquote then
            '(str, r') ← parse_string_body r; Ok (JStr str, r')
          else if starts_number c then
            '(n, r') ← parse_number s0; Ok (JNum n, r')
          else parse_literal s0
      end
  end
with parse_elements (fuel : nat) (s : string) {struct fuel}
  : result (list json * string) :=
  match fuel with
  | O => Throw SyntaxError
  | S fuel' =>
      '(v, r) ← parse_value fuel' s;
      match next_is "," r, next_is "]" r with
      | Some r', _ => '(vs, r'') ← parse_elements fuel' r'; Ok (v :: vs, r'')
      | None, Some r' => Ok ([v], r')
      | None, None => Throw SyntaxError
      end
  end
with parse_members (fuel : nat) (s : string) {struct fuel}
  : result (list (string * json) * string) :=
  match fuel with
  | O => Throw SyntaxError
  | S fuel' =>
      match next_is dquote s with
      | None => Throw SyntaxError
      | Some r =>
          '(k, r1) ← parse_string_body r;
          match next_is ":" r1 with
          | None => Throw SyntaxError
          | Some r2 =>
              '(v, r3) ← parse_value fuel' r2;
              match next_is "," r3, next_is "}" r3 with
              | Some r4, _ =>
                  '(fs, r5) ← parse_members fuel' r4; Ok ((k, v) :: fs, r5)
              | None, Some r4 => Ok ([(k, v)], r4)
              | None, None => Throw SyntaxError
              end
          end
      end
  end.

Definition JSON_parse (text : string) : result json :=
  '(v, rest) ← parse_value (2 * String.length text + 1) text;
  match skip_ws rest with
  | EmptyString => Ok v
  | String _ _ => Throw SyntaxError
  end.

(* ================================================================= *)
(** ** [expo-crypto]: SHA-256 with a hexadecimal digest *)

Module SHA256.
Local Open Scope N_scope.

Definition mask32 : N := 4294967295.
Definition add32 (x y : N) : N := N.land (x + y) mask32.
Definition rotr (n x : N) : N :=
  N.lor (N.shiftr x n) (N.land (N.shiftl x (32 - n)) mask32).
Definition not32 (x : N) : N := N.lxor x mask32.

Definition ch (x y z : N) : N := N.lxor (N.land x y) (N.land (not32 x) z).
Definition maj (x y z : N) : N :=
  N.lxor (N.lxor (N.land x y) (N.land x z)) (N.land y z).
Definition bsig0 (x : N) : N := N.lxor (N.lxor (rotr 2 x) (rotr 13 x)) (rotr 22 x).
Definition bsig1 (x : N) : N := N.lxor (N.lxor (rotr 6 x) (rotr 11 x)) (rotr 25 x).
Definition ssig0 (x : N) : N := N.lxor (N.lxor (rotr 7 x) (rotr 18 x)) (N.shiftr x 3).
Definition ssig1 (x : N) : N := N.lxor (N.lxor (rotr 17 x) (rotr 19 x)) (N.shiftr x 10).

(** The first sixty-four primes. *)
Definition primes : list N :=
  [ 2; 3; 5; 7; 11; 13; 17; 19; 23; 29; 31; 37; 41; 43; 47; 53; 59; 61; 67;
    71; 73; 79; 83; 89; 97; 101; 103; 107; 109; 113; 127; 131; 137; 139; 149;
    151; 157; 163; 167; 173; 179; 181; 191; 193; 197; 199; 211; 223; 227; 229;
    233; 239; 241; 251; 257; 263; 269; 271; 277; 281; 283; 293; 307; 311 ].

(** The largest [r] below [2 ^ bits] above [r0] whose cube is at most [n]. *)
Fixpoint cube_root (bits : nat) (r0 n : N) : N :=
  match bits with
  | O => r0
  | S b =>
      let r := r0 + 2 ^ N.of_nat b in
      if r * r * r <=? n then cube_root b r n else cube_root b r0 n
  end.

(** The first 32 bits of the fractional part of a cube root and of a
    square root. *)
Definition frac_cbrt (p : N) : N := N.land (cube_root 36 0 (p * 2 ^ 96)) mask32.
Definition frac_sqrt (p : N) : N := N.land (N.sqrt (p * 2 ^ 64)) mask32.

Definition round_constants : list N :=
  Eval vm_compute in map frac_cbrt primes.

Record state : Type := State
  { ha : N; hb : N; hc : N; hd : N; he : N; hf : N; hg : N; hh : N }.

Definition initial : state :=
  Eval vm_compute in
    State (frac_sqrt 2) (frac_sqrt 3) (frac_sqrt 5) (frac_sqrt 7)
          (frac_sqrt 11) (frac_sqrt 13) (frac_sqrt 17) (frac_sqrt 19).

Definition step (st : state) (k w : N) : state :=
  let t1 := add32 (add32 (add32 (add32 (hh st) (bsig1 (he st)))
                            (ch (he st) (hf st) (hg st))) k) w in
  let t2 := add32 (bsig0 (ha st)) (maj (ha st) (hb st) (hc st)) in
  State (add32 t1 t2) (ha st) (hb st) (hc st)
        (add32 (hd st) t1) (he st) (hf st) (hg st).

(** [window] holds the sixteen schedule words from the current one on. *)
Definition next_word (window : list N) : N :=
  add32 (add32 (add32 (ssig1 (nth 14 window 0)) (nth 9 window 0))
               (ssig0 (nth 1 window 0))) (nth 0 window 0).

Fixpoint rounds (ks : list N) (window : list N) (st : state) : state :=
  match ks, window with
  | k :: ks', w :: window' =>
      rounds ks' (window' ++ [next_word window]) (step st k w)
  | _, _ => st
  end.

Definition compress (st : state) (block : list N) : state :=
  let st' := rounds round_constants block st in
  State (add32 (ha st) (ha st')) (add32 (hb st) (hb st'))
        (add32 (hc st) (hc st')) (add32 (hd st) (hd st'))
        (add32 (he st) (he st')) (add32 (hf st) (hf st'))
        (add32 (hg st) (hg st')) (add32 (hh st) (hh st')).

(** Big-endian words of a byte sequence whose length is a multiple of four. *)
Fixpoint words (bytes : list N) : list N :=
  match bytes with
  | b0 :: b1 :: b2 :: b3 :: rest =>
      (((b0 * 256 + b1) * 256 + b2) * 256 + b3) :: words rest
  | _ => []
  end.

Definition be_bytes (count : nat) (n : N) : list N :=
  map (fun i => N.land (N.shiftr n (8 * N.of_nat i)) 255) (rev (seq 0 count)).

Definition pad (bytes : list N) : list N :=
  let len := N.of_nat (length bytes) in
  let zeros := N.to_nat ((119 - len mod 64) mod 64) in
  bytes ++ [128] ++ repeat 0 zeros ++ be_bytes 8 (8 * len).

Fixpoint blocks (fuel : nat) (ws : list N) (st : state) : state :=
  match fuel, ws with
  | S fuel', _ :: _ => blocks fuel' (skipn 16 ws) (compress st (firstn 16 ws))
  | _, _ => st
  end.

Definition digest (bytes : list N) : state :=
  let ws := words (pad bytes) in
  blocks (length ws) ws initial.

Definition hex8 (w : N) : string :=
  String (hex_digit (N.shiftr w 28 mod 16))
 (String (hex_digit (N.shiftr w 24 mod 16))
 (String (hex_digit (N.shiftr w 20 mod 16))
 (String (hex_digit (N.shiftr w 16 mod 16))
 (String (hex_digit (N.shiftr w 12 mod 16))
 (String (hex_digit (N.shiftr w 8 mod 16))
 (String (hex_digit (N.shiftr w 4 mod 16))
 (String (hex_digit (w mod 16)) EmptyString))))))).

Definition hex (st : state) : string :=
  hex8 (ha st) +:+ hex8 (hb st) +:+ hex8 (hc st) +:+ hex8 (hd st) +:+
  hex8 (he st) +:+ hex8 (hf st) +:+ hex8 (hg st) +:+ hex8 (hh st).
End SHA256.

(** [Crypto.digestStringAsync(Crypto.CryptoDigestAlgorithm.SHA256, s)]:
    the lower-case hexadecimal SHA-256 digest of the UTF-8 bytes of [s]. *)
Definition digestStringAsync (s : string) : string :=
  SHA256.hex (SHA256.digest (map code (list_ascii_of_string s))).

(* ================================================================= *)
(** ** Base64: [btoa] and [atob] *)

Definition base64_alphabet : string :=
  "ABCDEFGHIJKLMNOPQRSTUVWXYZabcdefghijklmnopqrstuvwxyz0123456789+/".

Definition b64_char (n : N) : ascii :=
  match String.get (N.to_nat n) base64_alphabet with
  | Some c => c
  | None => "="%char
  end.

Definition b64_value (c : ascii) : option N :=
  let n := code c in
  (if (65 <=? n) && (n <=? 90) then Some (n - 65)
   else if (97 <=? n) && (n <=? 122) then Some (n - 71)
   else if (48 <=? n) && (n <=? 57) then Some (n + 4)
   else if n =? 43 then Some 62
   else if n =? 47 then Some 63
   else None)%N.

(** [btoa]: three bytes give four characters, the last group is padded. *)
Fixpoint btoa (s : string) : string :=
  match s with
  | EmptyString => EmptyString
  | String a EmptyString =>
      let x := code a in
      String (b64_char (x / 4)) (String (b64_char (x mod 4 * 16)) "==")
  | String a (String b EmptyString) =>
      let x := code a in
      let y := code b in
      String (b64_char (x / 4))
        (String (b64_char (x mod 4 * 16 + y / 16))
           (String (b64_char (y mod 16 * 4)) "="))
  | String a (String b (String c rest)) =>
      let x := code a in
      let y := code b in
      let z := code c in
      String (b64_char (x / 4))
        (String (b64_char (x mod 4 * 16 + y / 16))
           (String (b64_char (y mod 16 * 4 + z / 64))
              (String (b64_char (z mod 64)) (btoa rest))))
  end%N.

Definition is_ascii_ws (c : ascii) : bool :=
  Ascii.eqb c " " || Ascii.eqb c "009" || Ascii.eqb c "010"
  || Ascii.eqb c "012" || Ascii.eqb c "013".

Fixpoint remove_ws (s : string) : string :=
  match s with
  | EmptyString => EmptyString
  | String c s' => if is_ascii_ws c then remove_ws s' else String c (remove_ws s')
  end.

Definition decode2 (c0 c1 : ascii) : result string :=
  match b64_value c0, b64_value c1 with
  | Some v0, Some v1 => Ok (byte_string (v0 * 4 + v1 / 16))
  | _, _ => Throw InvalidCharacterError
  end%N.

Definition decode3 (c0 c1 c2 : ascii) : result string :=
  match b64_value c0, b64_value c1, b64_value c2 with
  | Some v0, Some v1, Some v2 =>
      Ok (byte_string (v0 * 4 + v1 / 16)
          +:+ byte_string (v1 mod 16 * 16 + v2 / 4))
  | _, _, _ => Throw InvalidCharacterError
  end%N.

Definition decode4 (c0 c1 c2 c3 : ascii) : result string :=
  match b64_value c0, b64_value c1, b64_value c2, b64_value c3 with
  | Some v0, Some v1, Some v2, Some v3 =>
      Ok (byte_string (v0 * 4 + v1 / 16)
          +:+ byte_string (v1 mod 16 * 16 + v2 / 4)
          +:+ byte_string (v2 mod 4 * 64 + v3))
  | _, _, _, _ => Throw InvalidCharacterError
  end%N.

(** The forgiving decode of the input without white space: a final group
    of four may end in one or two [=]; a single left-over character and
    any character outside the alphabet are errors. *)
Fixpoint atob_groups (s : string) : result string :=
  match s with
  | EmptyString => Ok EmptyString
  | String _ EmptyString => Throw InvalidCharacterError
  | String c0 (String c1 EmptyString) => decode2 c0 c1
  | String c0 (String c1 (String c2 EmptyString)) => decode3 c0 c1 c2
  | String c0 (String c1 (String c2 (String c3 rest))) =>
      match rest with
      | EmptyString =>
          if Ascii.eqb c3 "=" then
            if Ascii.eqb c2 "=" then decode2 c0 c1 else decode3 c0 c1 c2
          else decode4 c0 c1 c2 c3
      | String _ _ =>
          bytes ← decode4 c0 c1 c2 c3;
          more ← atob_groups rest;
          Ok (bytes +:+ more)
      end
  end.

Definition atob (s : string) : result string := atob_groups (remove_ws s).

(* ================================================================= *)
(** ** Text and bytes *)

(** Well-formed UTF-8 (Unicode table 3-7).  [need] continuation bytes are
    still expected, the first of them within [lo, hi]. *)
Fixpoint utf8_from (need : nat) (lo hi : N) (s : string) : bool :=
  match s with
  | EmptyString => match need with O => true | S _ => false end
  | String c s' =>
      let b := code c in
      match need with
      | S k => (lo <=? b) && (b <=? hi) && utf8_from k 128 191 s'
      | O =>
          if b <? 128 then utf8_from 0 128 191 s'
          else if (194 <=? b) && (b <=? 223) then utf8_from 1 128 191 s'
          else if b =? 224 then utf8_from 2 160 191 s'
          else if b =? 237 then utf8_from 2 128 159 s'
          else if (225 <=? b) && (b <=? 239) then utf8_from 2 128 191 s'
          else if b =? 240 then utf8_from 3 144 191 s'
          else if (241 <=? b) && (b <=? 243) then utf8_from 3 128 191 s'
          else if b =? 244 then utf8_from 3 128 143 s'
          else false
      end
  end%N.

Definition valid_utf8 (s : string) : bool := utf8_from 0 128 191 s.

(** [unescape(encodeURIComponent(s))]: the binary string of the UTF-8
    bytes of [s]; [encodeURIComponent] throws on a lone surrogate, a
    string without a UTF-8 form. *)
Definition unescape_encodeURIComponent (s : string) : result string :=
  if valid_utf8 s then Ok s else Throw URIError.

(** [decodeURIComponent(escape(b))]: the string whose UTF-8 bytes are the
    binary string [b]; [decodeURIComponent] throws when they are not
    UTF-8. *)
Definition decodeURIComponent_escape (b : string) : result string :=
  if valid_utf8 b then Ok b else Throw URIError.

(* ================================================================= *)
(** ** The dynamic semantics the service relies on *)

(** A property read [v.k] on a value that [JSON.parse] returned: an own
    property of an object (of duplicate members the last one), [undefined]
    on what has no such property, a [TypeError] on [null].  None of the
    names the service reads is inherited from a prototype. *)
Fixpoint own_property (k : string) (fields : list (string * json)) : option json :=
  match fields with
  | [] => None
  | (k', v) :: fields' =>
      match own_property k fields' with
      | Some v' => Some v'
      | None => if String.eqb k' k then Some v else None
      end
  end.

Definition get_prop (v : json) (k : string) : result (option json) :=
  match v with
  | JNull => Throw TypeError
  | JObj fields => Ok (own_property k fields)
  | _ => Ok None
  end.

(** ToBoolean *)
Definition truthy (v : option json) : bool :=
  match v with
  | None => false
  | Some JNull => false
  | Some (JBool b) => b
  | Some (JNum n) => negb (n =? 0)
  | Some (JStr s) => negb (String.eqb s EmptyString)
  | Some (JArr _) => true
  | Some (JObj _) => true
  end.

(** ToString.  An array joins its elements with commas, [null] elements
    being empty; an object is [[object Object]] unless a member named
    [toString] hides [Object.prototype.toString], and then the conversion
    is a [TypeError], a JSON value not being callable. *)
Fixpoint ToString (v : json) : result string :=
  match v with
  | JNull => Ok "null"
  | JBool true => Ok "true"
  | JBool false => Ok "false"
  | JNum n => Ok (number_to_string n)
  | JStr s => Ok s
  | JArr items =>
      (fix join (sep : string) (l : list json) : result string :=
         match l with
         | [] => Ok EmptyString
         | x :: l' =>
             s ← match x with JNull => Ok EmptyString | _ => ToString x end;
             r ← join "," l';
             Ok (sep +:+ s +:+ r)
         end) EmptyString items
  | JObj fields =>
      match own_property "toString" fields with
      | Some _ => Throw TypeError
      | None => Ok "[object Object]"
      end
  end.

Definition ToString_opt (v : option json) : result string :=
  match v with
  | None => Ok "undefined"
  | Some x => ToString x
  end.

Definition is_str_ws (c : ascii) : bool :=
  is_ascii_ws c || Ascii.eqb c "011".

Fixpoint trim_start (s : string) : string :=
  match s with
  | EmptyString => EmptyString
  | String c s' => if is_str_ws c then trim_start s' else s
  end.

(** StringToNumber on the integers: white space, an optional sign and
    decimal digits, white space; the empty string is [0].  [None] is
    [NaN].  Every other spelling of a number (a fraction, an exponent, a
    radix prefix, [Infinity], white space beyond ASCII) is outside the
    embedding, and reads as [NaN] here. *)
Definition StringToNumber (s : string) : option Z :=
  match trim_start s with
  | EmptyString => Some 0
  | String c r as s0 =>
      let '(negative, digits) :=
        if Ascii.eqb c "-" then (true, r)
        else if Ascii.eqb c "+" then (false, r)
        else (false, s0) in
      let '(u, rest) := scan_digits digits in
      match u, trim_start rest with
      | Decimal.Nil, _ => None
      | _, EmptyString => Some (if negative then - Z.of_uint u else Z.of_uint u)
      | _, String _ _ => None
      end
  end.

(** ToNumber; [None] is [NaN]. *)
Definition ToNumber (v : option json) : result (option Z) :=
  match v with
  | None => Ok None
  | Some JNull => Ok (Some 0)
  | Some (JBool b) => Ok (Some (if b then 1 else 0))
  | Some (JNum n) => Ok (Some n)
  | Some (JStr s) => Ok (StringToNumber s)
  | Some x => s ← ToString x; Ok (StringToNumber s)
  end.

(** [a - b] and [a > b] on numbers; [NaN] makes a comparison false. *)
Definition js_sub (a b : option Z) : option Z :=
  match a, b with
  | Some x, Some y => Some (x - y)
  | _, _ => None
  end.

Definition js_gt (a b : option Z) : bool :=
  match a, b with
  | Some x, Some y => y <? x
  | _, _ => false
  end.

(** [a !== b] against a string *)
Definition strict_ne_string (a : option json) (b : string) : bool :=
  match a with
  | Some (JStr s) => negb (String.eqb s b)
  | _ => true
  end.

(* ================================================================= *)
(** ** [DatabaseServiceClass] *)

(** [interface User] *)
Module User.
Record t : Type := Build
  { id : Z;
    email : string;
    name : string;
    phone : string;
    access_level : string;
    allowed_areas : json;
    is_active : bool }.
End User.

(** [Omit<User, 'id'>] *)
Module NewUser.
Record t : Type := Build
  { email : string;
    name : string;
    phone : string;
    access_level : string;
    allowed_areas : json;
    is_active : bool }.
End NewUser.

(** A row of the table [users]: [id INTEGER PRIMARY KEY], [email TEXT
    UNIQUE NOT NULL], [allowed_areas TEXT NOT NULL], [is_active INTEGER
    DEFAULT 1]. *)
Module Row.
Record t : Type := Build
  { id : Z;
    email : string;
    name : string;
    phone : string;
    access_level : string;
    allowed_areas : string;
    is_active : Z }.
End Row.

(** The rows of [users] in rowid order. *)
Abbreviation Table := (list Row.t).

(** [private database: SQLite.SQLiteDatabase | null] *)
Abbreviation Database := (option Table).

Definition require_database (database : Database) : result Table :=
  match database with
  | Some table => Ok table
  | None => Throw (Error "Database not initialized")
  end.

(** The rowid SQLite gives a new row: one more than the largest in use. *)
Definition next_rowid (table : Table) : Z :=
  match table with
  | [] => 1
  | row :: table' => fold_left Z.max (map Row.id table') (Row.id row) + 1
  end.

(** [INSERT OR IGNORE INTO users (...) VALUES (...)]: a row whose email
    is already in the table violates [UNIQUE] and is dropped. *)
Definition insert_or_ignore (table : Table) (values : Z -> Row.t) : Table :=
  let row := values (next_rowid table) in
  if existsb (fun r => String.eqb (Row.email r) (Row.email row)) table
  then table
  else table ++ [row].

(** The values bound to the placeholders of the statement of [insertUser]. *)
Definition row_of (user : NewUser.t) (rowid : Z) : Row.t :=
  Row.Build rowid
    (NewUser.email user)
    (NewUser.name user)
    (NewUser.phone user)
    (NewUser.access_level user)
    (JSON_stringify (NewUser.allowed_areas user))
    (if NewUser.is_active user then 1 else 0).

Definition insertUser (database : Database) (user : NewUser.t) : result Database :=
  table ← require_database database;
  Ok (Some (insert_or_ignore table (row_of user))).

(** The loop [for (const user of users) await this.insertUser(user)] of
    the seeding methods. *)
Fixpoint insertUsers (database : Database) (users : list NewUser.t)
  : result Database :=
  match users with
  | [] => Ok database
  | user :: users' =>
      database' ← insertUser database user;
      insertUsers database' users'
  end.

Definition string_array (l : list string) : json := JArr (map JStr l).

(** [sampleUsers] of [createAndStoreEncryptedSeedData] *)
Definition sampleUsers : list NewUser.t :=
  [ NewUser.Build "john.athlete@sports.com" "John Athlete" "+1234567890" "General"
      (string_array ["Main Arena"; "General Entrance"; "Food Court"]) true;
    NewUser.Build "sarah.vip@company.com" "Sarah VIP Guest" "+1234567891" "VIP"
      (string_array ["Main Arena"; "VIP Lounge"; "General Entrance"; "Food Court"])
      true;
    NewUser.Build "mike.staff@event.com" "Mike Staff Member" "+1234567892" "Staff"
      (string_array ["Main Arena"; "Staff Area"; "General Entrance"; "Food Court"])
      true;
    NewUser.Build "emma.security@event.com" "Emma Security" "+1234567893" "Security"
      (string_array ["Main Arena"; "Security Zone"; "Staff Area"; "General Entrance"])
      true;
    NewUser.Build "david.manager@event.com" "David Manager" "+1234567894"
      "Management"
      (string_array ["Main Arena"; "VIP Lounge"; "Security Zone"; "Staff Area";
                     "General Entrance"]) true;
    NewUser.Build "lisa.coach@sports.com" "Lisa Coach" "+1234567895" "Staff"
      (string_array ["Main Arena"; "Staff Area"; "General Entrance"]) true;
    NewUser.Build "alex.media@news.com" "Alex Media" "+1234567896" "General"
      (string_array ["Main Arena"; "General Entrance"]) true;
    NewUser.Build "sophie.sponsor@corp.com" "Sophie Sponsor" "+1234567897" "VIP"
      (string_array ["Main Arena"; "VIP Lounge"; "General Entrance"; "Food Court"])
      true;
    NewUser.Build "james.volunteer@event.com" "James Volunteer" "+1234567898"
      "Staff" (string_array ["General Entrance"; "Food Court"]) true;
    NewUser.Build "maria.official@sports.org" "Maria Official" "+1234567899"
      "Management"
      (string_array ["Main Arena"; "VIP Lounge"; "Security Zone"; "Staff Area";
                     "General Entrance"]) true ].

(** The object a read builds from a row. *)
Definition user_of_row (row : Row.t) : result User.t :=
  areas ← JSON_parse (Row.allowed_areas row);
  Ok (User.Build (Row.id row) (Row.email row) (Row.name row) (Row.phone row)
        (Row.access_level row) areas (Row.is_active row =? 1)).

Fixpoint map_rows (rows : list Row.t) : result (list User.t) :=
  match rows with
  | [] => Ok []
  | row :: rows' =>
      user ← user_of_row row;
      users ← map_rows rows';
      Ok (user :: users)
  end.

(** [SELECT * FROM users WHERE email = ? AND is_active = 1] *)
Definition select_by_email (email : string) (row : Row.t) : bool :=
  String.eqb (Row.email row) email && (Row.is_active row =? 1).

(** [SELECT * FROM users WHERE is_active = 1] *)
Definition select_active (row : Row.t) : bool := Row.is_active row =? 1.

Definition getUserByEmail (database : Database) (email : string)
  : result (option User.t) :=
  table ← require_database database;
  match List.find (select_by_email email) table with
  | Some row => user ← user_of_row row; Ok (Some user)
  | None => Ok None
  end.

Definition getAllUsers (database : Database) : result (list User.t) :=
  table ← require_database database;
  map_rows (List.filter select_active table).

(** *** Seed obfuscation *)

(** [salt] is the binary string of the bytes [Crypto.getRandomBytesAsync(16)]
    drew. *)
Definition encryptData (salt : string) (data : string) : result string :=
  let saltBase64 := btoa salt in
  let key := digestStringAsync ("demo_encryption_key_2024" +:+ saltBase64) in
  let dataWithKey := data +:+ "::" +:+ substring0 32 key in
  bytes ← unescape_encodeURIComponent dataWithKey;
  let encryptedData := btoa bytes in
  Ok (saltBase64 +:+ "::" +:+ encryptedData).

Definition decryptData (encryptedData : string) : result string :=
  let parts := str_split "::" encryptedData in
  let saltBase64 := nth 0 parts "undefined" in
  let encrypted := nth 1 parts "undefined" in
  let key := digestStringAsync ("demo_encryption_key_2024" +:+ saltBase64) in
  bytes ← atob encrypted;
  decryptedWithKey ← decodeURIComponent_escape bytes;
  let originalData :=
    nth 0 (str_split ("::" +:+ substring0 32 key) decryptedWithKey) "undefined" in
  Ok originalData.

(** *** The signed QR payload *)

(** [expo-device] *)
Module Device.
Record t : Type := Build
  { osInternalBuildId : option string;
    deviceName : option string;
    osVersion : option string }.
End Device.

(** [x || 'unknown'] *)
Definition or_unknown (x : option string) : string :=
  match x with
  | Some s => if String.eqb s EmptyString then "unknown" else s
  | None => "unknown"
  end.

Definition getDeviceFingerprint (device : Device.t) : string :=
  let deviceId := or_unknown (Device.osInternalBuildId device) in
  let deviceName := or_unknown (Device.deviceName device) in
  let osVersion := or_unknown (Device.osVersion device) in
  let fingerprint := deviceId +:+ "-" +:+ deviceName +:+ "-" +:+ osVersion in
  digestStringAsync fingerprint.

Definition secret : string := "event_secret_key_2024".

Definition qrPayload (device : Device.t) (timestamp : Z) (user : User.t) : json :=
  JObj [ ("user_id", JNum (User.id user));
         ("email", JStr (User.email user));
         ("name", JStr (User.name user));
         ("access_level", JStr (User.access_level user));
         ("allowed_areas", User.allowed_areas user);
         ("timestamp", JNum timestamp);
         ("expires_at", JNum (timestamp + 60 * 60 * 1000));
         ("device_fingerprint", JStr (getDeviceFingerprint device));
         ("version", JStr "2.0") ].

(** [now] is the value of [Date.now()]. *)
Definition generateSecureQRData (device : Device.t) (now : Z) (user : User.t)
  : string :=
  let timestamp := now in
  let payloadString := JSON_stringify (qrPayload device timestamp user) in
  let signature := digestStringAsync (payloadString +:+ secret) in
  let securePayload :=
    JObj [ ("data", JStr payloadString);
           ("signature", JStr signature);
           ("timestamp", JNum timestamp) ] in
  JSON_stringify securePayload.

(** [{ valid: boolean; payload?: any; reason?: string }] *)
Record VerifyResult : Type := mkVerifyResult
  { valid : bool;
    payload : option json;
    reason : option string }.

Definition Valid (p : json) : VerifyResult := mkVerifyResult true (Some p) None.
Definition Invalid (r : string) : VerifyResult := mkVerifyResult false None (Some r).

(** [now1] and [now2] are the values of the two calls of [Date.now()], in
    the age check of the envelope and in the expiry check of the payload. *)
Definition verifyQRData (now1 now2 : Z) (qrData : string) : VerifyResult :=
  try_catch
    (parsed ← JSON_parse qrData;
     data ← get_prop parsed "data";
     signature ← get_prop parsed "signature";
     timestamp ← get_prop parsed "timestamp";
     if negb (truthy data) || negb (truthy signature) || negb (truthy timestamp)
     then Ok (Invalid "Invalid QR format")
     else
       issued ← ToNumber timestamp;
       if js_gt (js_sub (Some now1) issued) (Some (24 * 60 * 60 * 1000))
       then Ok (Invalid "QR code expired")
       else
         signed ← ToString_opt data;
         let expectedSignature := digestStringAsync (signed +:+ secret) in
         if strict_ne_string signature expectedSignature
         then Ok (Invalid "QR code tampered")
         else
           text ← ToString_opt data;
           payload ← JSON_parse text;
           expires_at ← get_prop payload "expires_at";
           if truthy expires_at
           then
             expiry ← ToNumber expires_at;
             if js_gt (Some now2) expiry
             then Ok (Invalid "QR code expired")
             else Ok (Valid payload)
           else Ok (Valid payload))
    (fun _ => Invalid "Invalid QR data").

(** *** [verifyQRData] on any engine *)

(** What [verifyQRData] asks of the JavaScript engine and of
    [expo-crypto].  The embedding above answers these questions for the
    values whose numbers are integers; the record leaves the answers open,
    so that what is stated for every engine holds of the engine of the
    device, whatever it reads from a text and however it converts. *)
Module Engine.
Record t : Type := Build
  { value : Type;
    (** [JSON.parse(s)] on a string *)
    JSON_parse : string -> result value;
    (** [v.k] *)
    get : value -> string -> result (option value);
    (** [!!v] *)
    ToBoolean : option value -> bool;
    number : Type;
    (** [now - v] *)
    minus : Z -> option value -> result number;
    (** [n > c] *)
    number_gt : number -> Z -> bool;
    (** [v + s] *)
    plus : option value -> string -> result string;
    (** [Crypto.digestStringAsync(Crypto.CryptoDigestAlgorithm.SHA256, s)] *)
    digest : string -> result string;
    (** [v !== s] *)
    strict_ne : option value -> string -> bool;
    (** ToString, which [JSON.parse] applies to its argument *)
    ToString : option value -> result string;
    (** [now > v] *)
    gt : Z -> option value -> result bool }.
End Engine.

(** [{ valid: boolean; payload?: any; reason?: string }] over the values of
    an engine *)
Record Answer (value : Type) : Type := mkAnswer
  { answer_valid : bool;
    answer_payload : option value;
    answer_reason : option string }.
Arguments mkAnswer {value} _ _ _.
Arguments answer_valid {value} _.
Arguments answer_payload {value} _.
Arguments answer_reason {value} _.

Definition ValidOn {value : Type} (p : value) : Answer value :=
  mkAnswer true (Some p) None.
Definition InvalidOn {value : Type} (r : string) : Answer value :=
  mkAnswer false None (Some r).

(** The body of [verifyQRData], every property read and every operator
    where the source has it. *)
Definition verifyQRData_on (E : Engine.t) (now1 now2 : Z) (qrData : string)
  : Answer (Engine.value E) :=
  try_catch
    (parsed ← Engine.JSON_parse E qrData;
     data ← Engine.get E parsed "data";
     if negb (Engine.ToBoolean E data) then Ok (InvalidOn "Invalid QR format")
     else
     signature ← Engine.get E parsed "signature";
     if negb (Engine.ToBoolean E signature) then Ok (InvalidOn "Invalid QR format")
     else
     timestamp ← Engine.get E parsed "timestamp";
     if negb (Engine.ToBoolean E timestamp) then Ok (InvalidOn "Invalid QR format")
     else
       timestamp ← Engine.get E parsed "timestamp";
       age ← Engine.minus E now1 timestamp;
       if Engine.number_gt E age (24 * 60 * 60 * 1000)
       then Ok (InvalidOn "QR code expired")
       else
         data ← Engine.get E parsed "data";
         signed ← Engine.plus E data secret;
         expectedSignature ← Engine.digest E signed;
         signature ← Engine.get E parsed "signature";
         if Engine.strict_ne E signature expectedSignature
         then Ok (InvalidOn "QR code tampered")
         else
           data ← Engine.get E parsed "data";
           text ← Engine.ToString E data;
           payload ← Engine.JSON_parse E text;
           expires_at ← Engine.get E payload "expires_at";
           if Engine.ToBoolean E expires_at
           then
             expires_at ← Engine.get E payload "expires_at";
             late ← Engine.gt E now2 expires_at;
             if late : bool
             then Ok (InvalidOn "QR code expired")
             else Ok (ValidOn payload)
           else Ok (ValidOn payload))
    (fun _ => InvalidOn "Invalid QR data").

(** The engine of the embedding. *)
Definition integer_engine : Engine.t :=
  {| Engine.value := json;
     Engine.JSON_parse := JSON_parse;
     Engine.get := get_prop;
     Engine.ToBoolean := truthy;
     Engine.number := option Z;
     Engine.minus := fun now v => issued ← ToNumber v; Ok (js_sub (Some now) issued);
     Engine.number_gt := fun n c => js_gt n (Some c);
     Engine.plus := fun v s => text ← ToString_opt v; Ok (text +:+ s);
     Engine.digest := fun s => Ok (digestStringAsync s);
     Engine.strict_ne := strict_ne_string;
     Engine.ToString := ToString_opt;
     Engine.gt := fun now v => expiry ← ToNumber v; Ok (js_gt (Some now) expiry) |}.

Definition VerifyResult_of (a : Answer json) : VerifyResult :=
  mkVerifyResult (answer_valid a) (answer_payload a) (answer_reason a).

(** *** Remembered credentials *)

(** [expo-secure-store]: the items by key. *)
Abbreviation SecureStore := (gmap string string).

Definition setItemAsync (store : SecureStore) (key value : string) : SecureStore :=
  <[key := value]> store.
Definition getItemAsync (store : SecureStore) (key : string) : option string :=
  store !! key.
Definition deleteItemAsync (store : SecureStore) (key : string) : SecureStore :=
  delete key store.

Definition storeUserCredentials (store : SecureStore) (now : Z)
    (email : string) (rememberMe : bool) : SecureStore :=
  if rememberMe then
    let store1 := setItemAsync store "rememberedEmail" email in
    setItemAsync store1 "lastLoginTime" (number_to_string now)
  else store.

Definition getStoredEmail (store : SecureStore) : option string :=
  getItemAsync store "rememberedEmail".

Definition clearStoredCredentials (store : SecureStore) : SecureStore :=
  deleteItemAsync (deleteItemAsync store "rememberedEmail") "lastLoginTime".

(** *** The time of the last login and the session token *)

(** The length in bytes of the white space character [s] starts with, [0]
    when it starts with none: TAB, LF, VT, FF, CR, SP, U+00A0, U+1680,
    U+2000 to U+200A, U+2028, U+2029, U+202F, U+205F, U+3000 and U+FEFF. *)
Definition white_space_length (s : string) : nat :=
  match s with
  | EmptyString => 0
  | String c0 r0 =>
      let b0 := code c0 in
      if ((9 <=? b0) && (b0 <=? 13) || (b0 =? 32))%N then 1
      else
        match r0 with
        | EmptyString => 0
        | String c1 r1 =>
            let b1 := code c1 in
            if ((b0 =? 194) && (b1 =? 160))%N then 2
            else
              match r1 with
              | EmptyString => 0
              | String c2 _ =>
                  let b2 := code c2 in
                  if ((b0 =? 225) && (b1 =? 154) && (b2 =? 128)
                      || (b0 =? 226) && (b1 =? 128)
                         && ((128 <=? b2) && (b2 <=? 138)
                             || (b2 =? 168) || (b2 =? 169) || (b2 =? 175))
                      || (b0 =? 226) && (b1 =? 129) && (b2 =? 159)
                      || (b0 =? 227) && (b1 =? 128) && (b2 =? 128)
                      || (b0 =? 239) && (b1 =? 187) && (b2 =? 191))%N
                  then 3 else 0
              end
        end
  end%nat.

(** TrimString at the start; [skip] counts the bytes of a white space
    character still to be passed over. *)
Fixpoint trim_go (skip : nat) (s : string) : string :=
  match s with
  | EmptyString => EmptyString
  | String _ s' =>
      match skip with
      | S k => trim_go k s'
      | O =>
          match white_space_length s with
          | O => s
          | S k => trim_go k s'
          end
      end
  end.

(** The digits of radix 16 at the head of a string, [None] when there is
    none. *)
Fixpoint scan_hex (acc : option Z) (s : string) : option Z :=
  match s with
  | EmptyString => acc
  | String c s' =>
      match hex_value c with
      | Some d => scan_hex (Some (16 * default 0 acc + Z.of_N d)) s'
      | None => acc
      end
  end.

Definition scan_decimal (s : string) : option Z :=
  let '(u, _) := scan_digits s in
  match u with
  | Decimal.Nil => None
  | _ => Some (Z.of_uint u)
  end.

(** [parseInt(s)] without a radix: white space, a sign, [0x] or [0X] for
    radix 16, then the longest run of digits; what follows is ignored.
    [None] is [NaN].  The result is the exact integer; the source rounds
    one above [2 ^ 53], which does not change how [isLoginRecent] compares
    it with a reading of the clock. *)
Definition parseInt (s : string) : option Z :=
  let s1 := trim_go 0 s in
  let '(negative, s2) :=
    match s1 with
    | EmptyString => (false, s1)
    | String c r =>
        if Ascii.eqb c "-" then (true, r)
        else if Ascii.eqb c "+" then (false, r)
        else (false, s1)
    end in
  let magnitude :=
    match s2 with
    | String z (String x r) =>
        if Ascii.eqb z "0" && (Ascii.eqb x "x" || Ascii.eqb x "X")
        then scan_hex None r
        else scan_decimal s2
    | _ => scan_decimal s2
    end in
  match magnitude with
  | Some n => Some (if negative then - n else n)
  | None => None
  end.

(** [a < b] on numbers *)
Definition js_lt (a b : option Z) : bool :=
  match a, b with
  | Some x, Some y => x <? y
  | _, _ => false
  end.

Definition isLoginRecent (store : SecureStore) (now : Z) : bool :=
  match getItemAsync store "lastLoginTime" with
  | None => false
  | Some lastLoginTime =>
      if String.eqb lastLoginTime EmptyString then false
      else
        let timeElapsed := js_sub (Some now) (parseInt lastLoginTime) in
        let oneDay := 24 * 60 * 60 * 1000 in
        js_lt timeElapsed (Some oneDay)
  end.

Definition storeUserToken (store : SecureStore) (token : string) : SecureStore :=
  setItemAsync store "userToken" token.

Definition getUserToken (store : SecureStore) : option string :=
  getItemAsync store "userToken".

Definition clearUserToken (store : SecureStore) : SecureStore :=
  deleteItemAsync store "userToken".

(** The two calls of [handleLogout] of the QR screen on the service. *)
Definition handleLogout (store : SecureStore) : SecureStore :=
  clearUserToken (clearStoredCredentials store).

(** *** Seeding *)

(** The state of the service and of the device it runs on: the field
    [database] and the items of the secure store. *)
Module Service.
Record t : Type := Build
  { database : Database;
    store : SecureStore }.
End Service.

(** How a call ends.  [Unbound] ends the runs in which a statement is
    given a value other than a string for a text column: what is stored
    then is decided by [expo-sqlite], outside the embedding. *)
Inductive completion : Type :=
| Returns
| Throws (e : exn)
| Unbound.

(** The file [sportgate_pass.db]: its table [users], when it has one. *)
Abbreviation DatabaseFile := (option Table).

(** [CREATE TABLE IF NOT EXISTS users (...)] on the database just opened. *)
Definition createTables (database : option DatabaseFile) : result Table :=
  match database with
  | None => Throw (Error "Database not initialized")
  | Some file => Ok (default [] file)
  end.

(** An element of [sampleUsers] as [JSON.stringify] sees it. *)
Definition json_of_user (user : NewUser.t) : json :=
  JObj [ ("email", JStr (NewUser.email user));
         ("name", JStr (NewUser.name user));
         ("phone", JStr (NewUser.phone user));
         ("access_level", JStr (NewUser.access_level user));
         ("allowed_areas", NewUser.allowed_areas user);
         ("is_active", JBool (NewUser.is_active user)) ].

(** [null] is [None]. *)
Definition getEncryptedSeedData (store : SecureStore) : option json :=
  try_catch
    (match getItemAsync store "demo_users_seed" with
     | None => Ok None
     | Some encryptedData =>
         if String.eqb encryptedData EmptyString then Ok None
         else
           decryptedData ← decryptData encryptedData;
           seedData ← JSON_parse decryptedData;
           Ok (Some seedData)
     end)
    (fun _ => None).

(** [insertUser] throws on a null database only, which it leaves null. *)
Definition createAndStoreEncryptedSeedData (salt : string) (s : Service.t)
  : Service.t :=
  match encryptData salt (JSON_stringify (JArr (map json_of_user sampleUsers))) with
  | Throw _ => s
  | Ok encryptedData =>
      let store' := setItemAsync (Service.store s) "demo_users_seed" encryptedData in
      match insertUsers (Service.database s) sampleUsers with
      | Ok database' => Service.Build database' store'
      | Throw _ => Service.Build (Service.database s) store'
      end
  end.

(** What [insertUser] binds for an element of the stored seed: the four
    texts, the text of the areas and the flag; [None] when one of the
    five is not a string. *)
Definition seed_user (user : json) : result (option NewUser.t) :=
  email ← get_prop user "email";
  name ← get_prop user "name";
  phone ← get_prop user "phone";
  access_level ← get_prop user "access_level";
  allowed_areas ← get_prop user "allowed_areas";
  is_active ← get_prop user "is_active";
  match email, name, phone, access_level, allowed_areas with
  | Some (JStr e), Some (JStr n), Some (JStr p), Some (JStr a), Some areas =>
      Ok (Some (NewUser.Build e n p a areas (truthy is_active)))
  | _, _, _, _, _ => Ok None
  end.

(** [for (const user of seedData) await this.insertUser(user)] on the
    elements of an array that [JSON.parse] returned. *)
Fixpoint insertSeed (database : Database) (seedData : list json)
  : Database * completion :=
  match seedData with
  | [] => (database, Returns)
  | user :: seedData' =>
      match require_database database with
      | Throw e => (database, Throws e)
      | Ok _ =>
          match seed_user user with
          | Throw e => (database, Throws e)
          | Ok None => (database, Unbound)
          | Ok (Some values) =>
              match insertUser database values with
              | Throw e => (database, Throws e)
              | Ok database' => insertSeed database' seedData'
              end
          end
      end
  end.

(** [seedData && seedData.length > 0] *)
Definition has_elements (seedData : option json) : result bool :=
  match seedData with
  | Some (JArr items) => Ok (0 <? Z.of_nat (length items))
  | Some (JStr s) => Ok (negb (String.eqb s EmptyString))
  | Some (JObj fields) =>
      n ← ToNumber (own_property "length" fields);
      Ok (js_gt n (Some 0))
  | _ => Ok false
  end.

(** The loop over a string visits its characters, which have none of the
    properties of a user; an object is not iterable. *)
Definition seedSampleData (salt : string) (s : Service.t)
  : Service.t * completion :=
  match getAllUsers (Service.database s) with
  | Throw e => (s, Throws e)
  | Ok existingUsers =>
      if (0 <? Z.of_nat (length existingUsers)) then (s, Returns)
      else
        let seedData := getEncryptedSeedData (Service.store s) in
        match has_elements seedData with
        | Throw e => (s, Throws e)
        | Ok false => (createAndStoreEncryptedSeedData salt s, Returns)
        | Ok true =>
            match seedData with
            | Some (JArr items) =>
                let '(database', c) := insertSeed (Service.database s) items in
                (Service.Build database' (Service.store s), c)
            | Some (JStr _) => (s, Unbound)
            | _ => (s, Throws TypeError)
            end
        end
  end.

(** [file] is what [SQLite.openDatabaseAsync] opens; the error of
    [createTables] is not reached. *)
Definition initDatabase (salt : string) (file : DatabaseFile) (s : Service.t)
  : Service.t * completion :=
  match createTables (Some file) with
  | Throw e => (s, Throws e)
  | Ok table =>
      seedSampleData salt (Service.Build (Some table) (Service.store s))
  end.

(** [this.database?.execAsync('DELETE FROM users')] *)
Definition resetDemoData (salt : string) (s : Service.t) : Service.t :=
  let database' :=
    match Service.database s with
    | Some _ => Some []
    | None => None
    end in
  let store' := deleteItemAsync (Service.store s) "demo_users_seed" in
  createAndStoreEncryptedSeedData salt (Service.Build database' store').

(** *** Views of the records *)

(** A stable sort: [comparefn x y > 0] puts [x] after [y].  This is what
    [Array.prototype.sort] returns for a consistent comparison. *)
Section Array_sort.

Context {A : Type} (comparefn : A -> A -> Z).

Fixpoint sort_insert (x : A) (sorted : list A) : list A :=
  match sorted with
  | [] => [x]
  | y :: sorted' =>
      if 0 <? comparefn x y then y :: sort_insert x sorted' else x :: sorted
  end.

Fixpoint Array_sort (items : list A) : list A :=
  match items with
  | [] => []
  | x :: items' => sort_insert x (Array_sort items')
  end.

End Array_sort.

(** The UTF-16 code units of the character [s] starts with, and the number
    of continuation bytes that follow its first byte. *)
Definition first_units (s : string) : list N * nat :=
  let byte i :=
    match String.get i s with
    | Some c => code c
    | None => 0%N
    end in
  let b0 := byte 0%nat in
  let b1 := (byte 1%nat mod 64)%N in
  let b2 := (byte 2%nat mod 64)%N in
  let b3 := (byte 3%nat mod 64)%N in
  (if b0 <? 192 then ([b0], 0%nat)
   else if b0 <? 224 then ([(b0 - 192) * 64 + b1], 1%nat)
   else if b0 <? 240 then ([(b0 - 224) * 4096 + b1 * 64 + b2], 2%nat)
   else
     let cp := (b0 - 240) * 262144 + b1 * 4096 + b2 * 64 + b3 - 65536 in
     ([55296 + cp / 1024; 56320 + cp mod 1024], 3%nat))%N.

Fixpoint units_go (skip : nat) (s : string) : list N :=
  match s with
  | EmptyString => []
  | String _ s' =>
      match skip with
      | S k => units_go k s'
      | O => let '(units, k) := first_units s in units ++ units_go k s'
      end
  end.

(** The code units of a JavaScript string, from its UTF-8 bytes. *)
Definition utf16_units (s : string) : list N := units_go 0 s.

(** IsLessThan on strings: the order of the code units. *)
Fixpoint units_lt (x y : list N) : bool :=
  match x, y with
  | _, [] => false
  | [], _ :: _ => true
  | a :: x', b :: y' => (a <? b)%N || (a =? b)%N && units_lt x' y'
  end.

Definition string_lt (s t : string) : bool :=
  units_lt (utf16_units s) (utf16_units t).

(** SortCompare, the comparison of [sort()] without an argument, on the
    strings of two elements. *)
Definition SortCompare (s t : string) : Z :=
  if string_lt s t then -1 else if string_lt t s then 1 else 0.

(** [new Set(items)] in insertion order, as [[...set]] lists it. *)
Definition Set_add {A : Type} (same : A -> A -> bool) (set : list A) (x : A)
  : list A :=
  if existsb (same x) set then set else set ++ [x].

Definition new_Set {A : Type} (same : A -> A -> bool) (items : list A) : list A :=
  fold_left (Set_add same) items [].

(** SameValueZero on values that [JSON.parse] returned: two arrays or
    objects are never the same one. *)
Definition SameValueZero (x y : json) : bool :=
  match x, y with
  | JNull, JNull => true
  | JBool a, JBool b => Bool.eqb a b
  | JNum a, JNum b => a =? b
  | JStr a, JStr b => String.eqb a b
  | _, _ => false
  end.

(** [{email: string, name: string, access_level: string}] *)
Module DemoUser.
Record t : Type := Build
  { email : string;
    name : string;
    access_level : string }.
End DemoUser.

(** [localeCompare] is [String.prototype.localeCompare] in the locale of
    the device. *)
Definition getDemoUsers (localeCompare : string -> string -> Z)
    (database : Database) : list DemoUser.t :=
  try_catch
    (users ← getAllUsers database;
     Ok (Array_sort
           (fun a b =>
              localeCompare (DemoUser.access_level a) (DemoUser.access_level b))
           (map (fun user =>
                   DemoUser.Build (User.email user) (User.name user)
                     (User.access_level user))
              users)))
    (fun _ => []).

Definition getAvailableAccessLevels (database : Database) : list string :=
  try_catch
    (users ← getAllUsers database;
     let levels := new_Set String.eqb (map User.access_level users) in
     Ok (Array_sort SortCompare levels))
    (fun _ => ["General"; "Staff"; "VIP"; "Security"; "Management"]).

(** [flatMap] appends the elements of an array and any other value as it
    is. *)
Definition flatten_one (v : json) : list json :=
  match v with
  | JArr items => items
  | _ => [v]
  end.

Fixpoint strings_of (items : list json) : result (list (string * json)) :=
  match items with
  | [] => Ok []
  | v :: items' =>
      s ← ToString v;
      keyed ← strings_of items';
      Ok ((s, v) :: keyed)
  end.

(** [items.sort()]: with two elements or more each one is compared, and
    converted to a string for it. *)
Definition sort_default (items : list json) : result (list json) :=
  match items with
  | [] | [_] => Ok items
  | _ =>
      keyed ← strings_of items;
      Ok (map snd (Array_sort (fun a b => SortCompare (fst a) (fst b)) keyed))
  end.

Definition getAvailableAreas (database : Database) : list json :=
  try_catch
    (users ← getAllUsers database;
     let allAreas := flat_map (fun user => flatten_one (User.allowed_areas user)) users in
     let uniqueAreas := new_Set SameValueZero allAreas in
     sort_default uniqueAreas)
    (fun _ =>
       map JStr [ "Main Arena"; "VIP Lounge"; "Staff Area"; "Security Zone";
                  "General Entrance"; "Food Court" ]).

(* ================================================================= *)
(** ** Vocabulary of the statements *)

(** The [UNIQUE] constraint on [email]. *)
Definition unique_emails (table : Table) : Prop := NoDup (map Row.email table).

(** How many rows carry an email. *)
Definition count_email (email : string) (table : Table) : nat :=
  length (List.filter (fun r => String.eqb (Row.email r) email) table).

(** The object a read gives back for a record stored under [rowid]. *)
Definition stored_user (rowid : Z) (user : NewUser.t) : User.t :=
  User.Build rowid (NewUser.email user) (NewUser.name user) (NewUser.phone user)
    (NewUser.access_level user) (NewUser.allowed_areas user)
    (NewUser.is_active user).

(** The first record of [sampleUsers], the table that holds it alone and
    the object read from that table. *)
Definition john : NewUser.t :=
  NewUser.Build "john.athlete@sports.com" "John Athlete" "+1234567890" "General"
    (string_array ["Main Arena"; "General Entrance"; "Food Court"]) true.

Definition john_table : Table := insert_or_ignore [] (row_of john).

Definition john_user : User.t := stored_user 1 john.

(** The characters [btoa] writes. *)
Definition b64_text (c : ascii) : bool :=
  match b64_value c with
  | Some _ => true
  | None => Ascii.eqb c "="
  end.

(** No occurrence of [sep] starts within [s] in [s +:+ t]. *)
Fixpoint clear_before (sep s t : string) : bool :=
  match s with
  | EmptyString => true
  | String _ s' => negb (String.prefix sep (s +:+ t)) && clear_before sep s' t
  end.

Definition not_colon (c : ascii) : bool := negb (Ascii.eqb c ":").

Definition is_ascii7 (c : ascii) : bool := (code c <? 128)%N.

Definition is_hex (c : ascii) : bool :=
  match hex_value c with
  | Some _ => true
  | None => false
  end.

(** The marker [decryptData] splits at: the separator and the first 32
    characters of the key of a salt. *)
Definition marker (salt : string) : string :=
  "::" +:+ substring0 32 (digestStringAsync ("demo_encryption_key_2024" +:+ btoa salt)).

(** A salt of sixteen bytes and a text that holds its marker. *)
Definition salt0 : string := "0123456789abcdef".
Definition text0 : string := "x::c633f5f3cf42dedfb3ba1ce1dd857355y".

(** The input after a number does not go on with a digit. *)
Definition no_digit_ahead (rest : string) : bool :=
  match rest with
  | EmptyString => true
  | String c _ => match digit_of_ascii c with Some _ => false | None => true end
  end.

(** The text of an array after its first element, and of an object after
    its first member. *)
Fixpoint stringify_items (l : list json) : string :=
  match l with
  | [] => "]"
  | y :: l' => "," +:+ JSON_stringify y +:+ stringify_items l'
  end.

Fixpoint stringify_fields (l : list (string * json)) : string :=
  match l with
  | [] => "}"
  | (k, y) :: l' =>
      "," +:+ quote k +:+ ":" +:+ JSON_stringify y +:+ stringify_fields l'
  end.

(** The calls [parse_value] makes on the text of a value. *)
Fixpoint json_size (v : json) : nat :=
  match v with
  | JArr items =>
      S ((fix go (l : list json) : nat :=
            match l with
            | [] => O
            | x :: l' => S (json_size x + go l')
            end) items)
  | JObj fields =>
      S ((fix go (l : list (string * json)) : nat :=
            match l with
            | [] => O
            | (_, x) :: l' => S (json_size x + go l')
            end) fields)
  | _ => 1
  end.

Fixpoint items_size (l : list json) : nat :=
  match l with
  | [] => O
  | x :: l' => S (json_size x + items_size l')
  end.

Fixpoint fields_size (l : list (string * json)) : nat :=
  match l with
  | [] => O
  | (_, x) :: l' => S (json_size x + fields_size l')
  end.

(** The statement of the round trip for one value. *)
Definition reads_back (v : json) : Prop :=
  forall fuel rest,
    (json_size v <= fuel)%nat -> no_digit_ahead rest = true ->
    parse_value fuel (JSON_stringify v +:+ rest) = Ok (v, rest).

(** [24 * 60 * 60 * 1000] and [60 * 60 * 1000] *)
Definition day_ms : Z := 24 * 60 * 60 * 1000.
Definition hour_ms : Z := 60 * 60 * 1000.

(** The envelope [generateSecureQRData] signs around a payload text. *)
Definition envelope (data signature : string) (timestamp : Z) : json :=
  JObj [ ("data", JStr data); ("signature", JStr signature);
         ("timestamp", JNum timestamp) ].

Definition sign (data : string) : string := digestStringAsync (data +:+ secret).

(** The reasons of a failed verification. *)
Definition reasons : list string :=
  [ "Invalid QR format"; "QR code expired"; "QR code tampered"; "Invalid QR data" ].

Definition device0 : Device.t := Device.Build (Some "UP1A.231005.007") None (Some "14").

(** A payload whose [expires_at] is [0], in a correctly signed envelope
    stamped [1000]. *)
Definition payload_zero : json := JObj [ ("user_id", JNum 1); ("expires_at", JNum 0) ].
Definition token_zero : string :=
  JSON_stringify
    (envelope (JSON_stringify payload_zero) (sign (JSON_stringify payload_zero)) 1000).

(** An envelope whose data is not the signed text. *)
Definition token_tampered : string :=
  JSON_stringify (envelope "{}" (sign "[]") 1000).

(** A payload that expired at [1500], in a correctly signed envelope
    stamped [1000]. *)
Definition payload_old : json := JObj [ ("user_id", JNum 1); ("expires_at", JNum 1500) ].
Definition token_old : string :=
  JSON_stringify
    (envelope (JSON_stringify payload_old) (sign (JSON_stringify payload_old)) 1000).

(** A payload without [expires_at], in a correctly signed envelope stamped
    [1000]. *)
Definition payload_open : json := JObj [ ("user_id", JNum 1) ].
Definition token_open : string :=
  JSON_stringify
    (envelope (JSON_stringify payload_open) (sign (JSON_stringify payload_open)) 1000).

(** A correctly signed envelope around a text that is not JSON. *)
Definition token_garbled : string :=
  JSON_stringify (envelope "{" (sign "{") 1000).

(** A verification result is a tagged outcome with a known reason. *)
Definition tagged (r : VerifyResult) : Prop :=
  (exists p, r = Valid p) \/ (exists s, In s reasons /\ r = Invalid s).

(** A verification on an engine gives a tagged outcome with a known
    reason. *)
Definition tagged_on {value : Type} (a : Answer value) : Prop :=
  (exists p, a = ValidOn p) \/ (exists s, In s reasons /\ a = InvalidOn s).

(** An envelope that has the three fields, with the timestamp [0], and
    one that has them with an empty [data]. *)
Definition token_epoch : string := JSON_stringify (envelope "x" "y" 0).
Definition token_no_data : string := JSON_stringify (envelope EmptyString "y" 1000).

(** The payloads [payload_old] and [payload_open] in correctly signed
    envelopes stamped [0]. *)
Definition token_old_epoch : string :=
  JSON_stringify
    (envelope (JSON_stringify payload_old) (sign (JSON_stringify payload_old)) 0).
Definition token_open_epoch : string :=
  JSON_stringify
    (envelope (JSON_stringify payload_open) (sign (JSON_stringify payload_open)) 0).

(** A correctly signed envelope stamped [1000] around the text [null]. *)
Definition token_null : string :=
  JSON_stringify (envelope "null" (sign "null") 1000).

Definition not_digit (c : ascii) : bool :=
  match digit_of_ascii c with
  | Some _ => false
  | None => true
  end.

(** An active row whose areas were stored as a plain list of names. *)
Definition corrupt_row : Row.t :=
  Row.Build 1 "john.athlete@sports.com" "John Athlete" "+1234567890" "General"
    "Main Arena, Food Court" 1.

(** The [PRIMARY KEY] constraint on [id]. *)
Definition unique_ids (table : Table) : Prop := NoDup (map Row.id table).

(** The column [allowed_areas] of every row holds a JSON text. *)
Definition parses (row : Row.t) : bool :=
  match JSON_parse (Row.allowed_areas row) with
  | Ok _ => true
  | Throw _ => false
  end.

Definition rows_parse (table : Table) : Prop := forallb parses table = true.

(** What holds of a table that only [insertUser] wrote to. *)
Definition sound_table (table : Table) : Prop :=
  unique_ids table /\ unique_emails table /\ rows_parse table.

(** The text [createAndStoreEncryptedSeedData] encrypts. *)
Definition seed_text : string :=
  JSON_stringify (JArr (map json_of_user sampleUsers)).

(** The rows and the records of a list of users stored under the ids from
    [rowid] on. *)
Fixpoint rows_from (rowid : Z) (users : list NewUser.t) : Table :=
  match users with
  | [] => []
  | user :: users' => row_of user rowid :: rows_from (rowid + 1) users'
  end.

Fixpoint users_from (rowid : Z) (users : list NewUser.t) : list User.t :=
  match users with
  | [] => []
  | user :: users' => stored_user rowid user :: users_from (rowid + 1) users'
  end.

(** The table of a device that was seeded when it was empty. *)
Definition seed_table : Table := rows_from 1 sampleUsers.

(** The first sample user stored as a user that is not active, and the
    table that holds this row alone. *)
Definition john_inactive : NewUser.t :=
  NewUser.Build "john.athlete@sports.com" "John Athlete" "+1234567890" "General"
    (string_array ["Main Arena"]) false.

Definition stale_table : Table := [row_of john_inactive 1].

(** A secure store that holds the seed encrypted under [salt0], and one
    that holds a text without a separator for it. *)
Definition store_with_seed : SecureStore :=
  <["demo_users_seed" := btoa salt0 +:+ "::" +:+ btoa (seed_text +:+ marker salt0)]> ∅.

Definition garbled_store : SecureStore := <["demo_users_seed" := "seed"]> ∅.

(** The first sample user as read from the table, with another phone and
    not active. *)
Definition john_moved : User.t :=
  User.Build 1 "john.athlete@sports.com" "John Athlete" "+1000000000" "General"
    (string_array ["Main Arena"; "General Entrance"; "Food Court"]) false.

(** The order [sort()] puts strings in: [s] is not after [t]. *)
Definition string_le (s t : string) : Prop := string_lt t s = false.

(** The object [getDemoUsers] shows for a user. *)
Definition demo_user (user : User.t) : DemoUser.t :=
  DemoUser.Build (User.email user) (User.name user) (User.access_level user).

(* ================================================================= *)
(** * Properties *)

(* ================================================================= *)
(** ** The embedding on concrete inputs *)

Example sha256_abc :
  digestStringAsync "abc"
  = "ba7816bf8f01cfea414140de5dae2223b00361a396177a9cb410ff61f20015ad".
Proof. vm_compute. reflexivity. Qed.

Example sha256_empty :
  digestStringAsync EmptyString
  = "e3b0c44298fc1c149afbf4c8996fb92427ae41e4649b934ca495991b7852b855".
Proof. vm_compute. reflexivity. Qed.

Example sha256_two_blocks :
  digestStringAsync "abcdbcdecdefdefgefghfghighijhijkijkljklmklmnlmnomnopnopq"
  = "248d6a61d20638b8e5c026930c3e6039a33ce45964ff2167f6ecedd419db06c1".
Proof. vm_compute. reflexivity. Qed.

Example btoa_padding :
  btoa "hello" = "aGVsbG8=" /\ btoa "hell" = "aGVsbA==" /\ btoa "hello!" = "aGVsbG8h".
Proof. repeat split. Qed.

Example atob_forgiving :
  atob "aGVs bG8" = Ok "hello" /\ atob "aGVsbG8" = Ok "hello" /\
  atob "aGVsbG8==" = Throw InvalidCharacterError /\
  atob "undefined" = Throw InvalidCharacterError.
Proof. repeat split. Qed.

Example split_pieces :
  str_split "::" "a::b::" = ["a"; "b"; EmptyString] /\
  str_split "::" ":::" = [EmptyString; ":"] /\
  str_split "::" EmptyString = [EmptyString].
Proof. repeat split. Qed.

Example stringify_escapes :
  JSON_stringify (JArr [JStr (String dquote "a\b"); JNum (-12); JNull; JObj []])
  = "[" +:+ String dquote (String backslash (String dquote "a\\b"))
        +:+ String dquote ",-12,null,{}]".
Proof. vm_compute. reflexivity. Qed.

Example parse_white_space_and_escapes :
  JSON_parse (" { " +:+ quote "k" +:+ " : [ 1 , true , "
                +:+ String dquote "é\n" +:+ String dquote " ] } ")
  = Ok (JObj [("k", JArr [JNum 1; JBool true;
                          JStr ("é" +:+ String "010" EmptyString)])]).
Proof. vm_compute. reflexivity. Qed.

Example parse_rejects :
  JSON_parse "01" = Throw SyntaxError /\
  JSON_parse "[1,]" = Throw SyntaxError /\
  JSON_parse "{a:1}" = Throw SyntaxError /\
  JSON_parse "[1] x" = Throw SyntaxError /\
  JSON_parse EmptyString = Throw SyntaxError.
Proof. repeat split. Qed.

Example verify_not_an_envelope :
  verifyQRData 5 5 "null" = Invalid "Invalid QR data" /\
  verifyQRData 5 5 "5" = Invalid "Invalid QR format" /\
  verifyQRData 5 5 "{}" = Invalid "Invalid QR format".
Proof. repeat split. Qed.

Example decrypt_without_separator :
  decryptData "abc" = Throw InvalidCharacterError.
Proof. vm_compute. reflexivity. Qed.

Example fingerprint_of_device0 :
  getDeviceFingerprint device0
  = digestStringAsync "UP1A.231005.007-unknown-14".
Proof. reflexivity. Qed.

(* ================================================================= *)
(** ** Strings *)

Ltac Zify.zify_post_hook ::= Z.to_euclidean_division_equations.
#[local] Arguments String.append !_ _ /.

Lemma code_lt_256 (c : ascii) : (code c < 256)%N.
Proof. apply N_ascii_bounded. Qed.

Lemma byte_string_code (c : ascii) : byte_string (code c) = String c EmptyString.
Proof. unfold byte_string, code. now rewrite ascii_N_embedding. Qed.

Lemma string_ind3 (P : string -> Prop) :
  P EmptyString ->
  (forall a, P (String a EmptyString)) ->
  (forall a b, P (String a (String b EmptyString))) ->
  (forall a b c rest, P rest -> P (String a (String b (String c rest)))) ->
  forall s, P s.
Proof.
  intros H0 H1 H2 H3. fix IH 1.
  intros [|a [|b [|c rest]]]; [exact H0|apply H1|apply H2|apply H3, IH].
Qed.

Lemma append_nil_r (s : string) : s +:+ EmptyString = s.
Proof. induction s; simpl; congruence. Qed.

Lemma append_assoc (s t u : string) : (s +:+ t) +:+ u = s +:+ (t +:+ u).
Proof. induction s; simpl; congruence. Qed.

Lemma string_forallb_app (p : ascii -> bool) (s t : string) :
  string_forallb p (s +:+ t) = string_forallb p s && string_forallb p t.
Proof. induction s; simpl; [reflexivity|]. now rewrite IHs, andb_assoc. Qed.

(* ================================================================= *)
(** ** Base64 *)

Lemma below_64 (P : N -> Prop) :
  (forall k : nat, (k < 64)%nat -> P (N.of_nat k)) ->
  forall n, (n < 64)%N -> P n.
Proof.
  intros H n Hn. rewrite <- (N2Nat.id n). apply H. lia.
Qed.

Lemma b64_value_char (n : N) : (n < 64)%N -> b64_value (b64_char n) = Some n.
Proof.
  revert n. apply below_64. intros k Hk.
  do 64 (destruct k as [|k]; [reflexivity|]). lia.
Qed.

Lemma b64_char_text (n : N) : (n < 64)%N -> b64_text (b64_char n) = true.
Proof. intros Hn. unfold b64_text. now rewrite b64_value_char. Qed.

Lemma b64_char_not_pad (n : N) : (n < 64)%N -> Ascii.eqb (b64_char n) "=" = false.
Proof.
  revert n. apply below_64. intros k Hk.
  do 64 (destruct k as [|k]; [reflexivity|]). lia.
Qed.

Lemma btoa_text (s : string) : string_forallb b64_text (btoa s) = true.
Proof.
  induction s as [|a|a b|a b c rest IH] using string_ind3; simpl;
    [reflexivity|..];
    pose proof (code_lt_256 a) as Ha;
    try pose proof (code_lt_256 b) as Hb;
    try pose proof (code_lt_256 c) as Hc;
    rewrite ?b64_char_text, ?IH by lia; reflexivity.
Qed.

Lemma b64_text_not_ws (c : ascii) : b64_text c = true -> is_ascii_ws c = false.
Proof.
  unfold b64_text, b64_value, is_ascii_ws, code.
  destruct c as [[] [] [] [] [] [] [] []]; vm_compute;
    intros H; first [reflexivity | discriminate H].
Qed.

Lemma remove_ws_id (s : string) :
  string_forallb (fun c => negb (is_ascii_ws c)) s = true -> remove_ws s = s.
Proof.
  induction s as [|c s IH]; simpl; [reflexivity|].
  intros H. apply andb_true_iff in H as [Hc Hs].
  apply negb_true_iff in Hc. rewrite Hc. now rewrite IH.
Qed.

Lemma string_forallb_impl (p q : ascii -> bool) (s : string) :
  (forall c, p c = true -> q c = true) ->
  string_forallb p s = true -> string_forallb q s = true.
Proof.
  intros Hpq. induction s as [|c s IH]; simpl; [reflexivity|].
  intros H. apply andb_true_iff in H as [Hc Hs].
  now rewrite (Hpq _ Hc), IH.
Qed.

Lemma decode4_encode (a b c : ascii) :
  decode4 (b64_char (code a / 4))
          (b64_char (code a mod 4 * 16 + code b / 16))
          (b64_char (code b mod 16 * 4 + code c / 64))
          (b64_char (code c mod 64))
  = Ok (String a (String b (String c EmptyString))).
Proof.
  pose proof (code_lt_256 a) as Ha.
  pose proof (code_lt_256 b) as Hb.
  pose proof (code_lt_256 c) as Hc.
  unfold decode4. rewrite !b64_value_char by lia.
  replace (code a / 4 * 4 + (code a mod 4 * 16 + code b / 16) / 16)%N
    with (code a) by lia.
  replace ((code a mod 4 * 16 + code b / 16) mod 16 * 16
           + (code b mod 16 * 4 + code c / 64) / 4)%N with (code b) by lia.
  replace ((code b mod 16 * 4 + code c / 64) mod 4 * 64 + code c mod 64)%N
    with (code c) by lia.
  now rewrite !byte_string_code.
Qed.

Lemma decode3_encode (a b : ascii) :
  decode3 (b64_char (code a / 4))
          (b64_char (code a mod 4 * 16 + code b / 16))
          (b64_char (code b mod 16 * 4))
  = Ok (String a (String b EmptyString)).
Proof.
  pose proof (code_lt_256 a) as Ha.
  pose proof (code_lt_256 b) as Hb.
  unfold decode3. rewrite !b64_value_char by lia.
  replace (code a / 4 * 4 + (code a mod 4 * 16 + code b / 16) / 16)%N
    with (code a) by lia.
  replace ((code a mod 4 * 16 + code b / 16) mod 16 * 16
           + (code b mod 16 * 4) / 4)%N with (code b) by lia.
  now rewrite !byte_string_code.
Qed.

Lemma decode2_encode (a : ascii) :
  decode2 (b64_char (code a / 4)) (b64_char (code a mod 4 * 16))
  = Ok (String a EmptyString).
Proof.
  pose proof (code_lt_256 a) as Ha.
  unfold decode2. rewrite !b64_value_char by lia.
  replace (code a / 4 * 4 + (code a mod 4 * 16) / 16)%N with (code a) by lia.
  now rewrite byte_string_code.
Qed.

Lemma atob_groups_btoa (s : string) : atob_groups (btoa s) = Ok s.
Proof.
  induction s as [|a|a b|a b c rest IH] using string_ind3.
  - reflexivity.
  - cbn [btoa atob_groups]. rewrite Ascii.eqb_refl. cbn [Ascii.eqb].
    change (Ascii.eqb "=" "=") with true. cbv iota. apply decode2_encode.
  - pose proof (code_lt_256 b) as Hb.
    cbn [btoa atob_groups]. change (Ascii.eqb "=" "=") with true. cbv iota.
    rewrite b64_char_not_pad by lia. apply decode3_encode.
  - pose proof (code_lt_256 c) as Hc.
    cbn [btoa atob_groups]. fold btoa.
    destruct (btoa rest) as [|r0 r1] eqn:Hrest.
    + rewrite b64_char_not_pad by lia. rewrite decode4_encode.
      destruct rest as [|? [|? [|? ?]]]; [reflexivity|discriminate..].
    + rewrite decode4_encode. cbn [mbind result_bind].
      rewrite IH. reflexivity.
Qed.

(** [atob] undoes [btoa]. *)
Lemma atob_btoa (s : string) : atob (btoa s) = Ok s.
Proof.
  unfold atob. rewrite remove_ws_id; [apply atob_groups_btoa|].
  apply (string_forallb_impl b64_text); [|apply btoa_text].
  intros c Hc. now rewrite b64_text_not_ws.
Qed.

(* ================================================================= *)
(** ** [split] *)


Lemma prefix_nil (s : string) : String.prefix EmptyString s = true.
Proof. now destruct s. Qed.

Lemma prefix_cons (a b : ascii) (s t : string) :
  String.prefix (String a s) (String b t) = Ascii.eqb a b && String.prefix s t.
Proof.
  cbn [String.prefix]. destruct (ascii_dec a b) as [->|Hne].
  - now rewrite Ascii.eqb_refl.
  - apply Ascii.eqb_neq in Hne. now rewrite Hne.
Qed.

Lemma prefix_app (sep t : string) : String.prefix sep (sep +:+ t) = true.
Proof.
  induction sep as [|c sep IH]; [apply prefix_nil|].
  cbn [String.append]. now rewrite prefix_cons, Ascii.eqb_refl, IH.
Qed.

Lemma string_of_rev_app (s : string) (cur : list ascii) :
  string_of_list_ascii (rev (rev (list_ascii_of_string s) ++ cur))
  = string_of_list_ascii (rev cur) +:+ s.
Proof.
  rewrite rev_app_distr, rev_involutive.
  induction (rev cur) as [|c l IH]; simpl.
  - apply string_of_list_ascii_of_string.
  - now rewrite IH.
Qed.

Lemma split_go_clear (sep s t : string) (cur : list ascii) :
  clear_before sep s t = true ->
  split_go sep 0 cur (s +:+ t)
  = split_go sep 0 (rev (list_ascii_of_string s) ++ cur) t.
Proof.
  revert cur. induction s as [|c s IH]; intros cur; [reflexivity|].
  cbn [clear_before]. intros H. apply andb_true_iff in H as [Hc Hs].
  apply negb_true_iff in Hc.
  cbn [String.append split_go]. cbn [String.append] in Hc. rewrite Hc.
  rewrite IH by assumption. cbn [list_ascii_of_string rev].
  now rewrite <- app_assoc.
Qed.

Lemma split_go_skip (sep u t : string) (cur : list ascii) :
  split_go sep (String.length u) cur (u +:+ t) = split_go sep 0 cur t.
Proof. induction u as [|c u IH]; [reflexivity|]. cbn. exact IH. Qed.

(** The piece before the first separator. *)
Lemma str_split_first (c : ascii) (sep' s t : string) :
  clear_before (String c sep') s (String c sep' +:+ t) = true ->
  str_split (String c sep') (s +:+ String c sep' +:+ t)
  = s :: str_split (String c sep') t.
Proof.
  intros Hclear. unfold str_split.
  rewrite split_go_clear by assumption. rewrite app_nil_r.
  pose proof (prefix_app (String c sep') t) as Hp.
  cbn [String.append] in *. cbn [split_go]. rewrite Hp.
  f_equal.
  - pose proof (string_of_rev_app s []) as Hs. rewrite app_nil_r in Hs.
    rewrite Hs. reflexivity.
  - cbn [String.length].
    replace (S (String.length sep') - 1)%nat with (String.length sep') by lia.
    apply split_go_skip.
Qed.

(** A string without separator is one piece. *)
Lemma str_split_none (c : ascii) (sep' s : string) :
  clear_before (String c sep') s EmptyString = true ->
  str_split (String c sep') s = [s].
Proof.
  intros Hclear. unfold str_split.
  rewrite <- (append_nil_r s) at 1.
  rewrite split_go_clear by assumption. rewrite app_nil_r. cbn [split_go].
  pose proof (string_of_rev_app s []) as Hs. rewrite app_nil_r in Hs.
  now rewrite Hs.
Qed.


Lemma clear_before_colons (sep' s t : string) :
  string_forallb not_colon s = true ->
  clear_before (String ":" sep') s t = true.
Proof.
  induction s as [|c s IH]; [reflexivity|].
  cbn [string_forallb clear_before]. intros H.
  apply andb_true_iff in H as [Hc Hs]. rewrite IH by assumption.
  rewrite andb_true_r. apply negb_true_iff.
  cbn [String.append]. rewrite prefix_cons.
  unfold not_colon in Hc. apply negb_true_iff in Hc.
  now rewrite Ascii.eqb_sym, Hc.
Qed.

(** A prefix without colon that matches up to a colon matches before it. *)
Lemma prefix_before_colon (k r u : string) :
  string_forallb not_colon k = true ->
  String.prefix k (r +:+ String ":" u) = true -> String.prefix k r = true.
Proof.
  revert r. induction k as [|a k IH]; intros r Hk; [intros _; apply prefix_nil|].
  cbn [string_forallb] in Hk. apply andb_true_iff in Hk as [Ha Hk].
  unfold not_colon in Ha. apply negb_true_iff in Ha.
  destruct r as [|b r]; cbn [String.append]; rewrite prefix_cons; intros Hp.
  - rewrite Ha in Hp. discriminate Hp.
  - rewrite prefix_cons. apply andb_true_iff in Hp as [Hab Hp].
    rewrite Hab. now apply IH.
Qed.

(** The marker [::k] of [decryptData] does not overlap itself. *)
Lemma clear_before_marker (k0 : ascii) (k' s : string) :
  let marker := String ":" (String ":" (String k0 k')) in
  string_forallb not_colon (String k0 k') = true ->
  includes marker s = false ->
  clear_before marker s marker = true.
Proof.
  intros marker Hk. induction s as [|c s IH]; [reflexivity|].
  cbn [includes clear_before]. intros H.
  apply orb_false_iff in H as [Hhere Hlater].
  rewrite IH by assumption. rewrite andb_true_r. apply negb_true_iff.
  destruct (String.prefix marker (String c s +:+ marker)) eqn:Hp; [|reflexivity].
  rewrite <- Hhere. clear IH Hhere Hlater.
  unfold marker in *. cbn [String.append] in Hp.
  rewrite prefix_cons in Hp |- *. apply andb_true_iff in Hp as [Hc Hp].
  rewrite Hc. cbn [andb].
  pose proof Hk as Hk0. cbn [string_forallb] in Hk0.
  apply andb_true_iff in Hk0 as [Hk0 _].
  unfold not_colon in Hk0. apply negb_true_iff in Hk0.
  destruct s as [|c2 s]; cbn [String.append] in Hp;
    rewrite prefix_cons in Hp; apply andb_true_iff in Hp as [Hc2 Hp].
  - rewrite prefix_cons, Hk0 in Hp. discriminate Hp.
  - rewrite prefix_cons, Hc2. cbn [andb].
    symmetry.
    exact (prefix_before_colon (String k0 k') s (String ":" (String k0 k')) Hk Hp).
Qed.

(* ================================================================= *)
(** ** UTF-8 *)

Lemma utf8_from_bounds (lo hi lo' hi' : N) (s : string) :
  utf8_from 0 lo hi s = utf8_from 0 lo' hi' s.
Proof. now destruct s. Qed.

Lemma utf8_from_app (need : nat) (lo hi : N) (s t : string) :
  utf8_from need lo hi s = true -> valid_utf8 t = true ->
  utf8_from need lo hi (s +:+ t) = true.
Proof.
  intros Hs Ht. revert need lo hi Hs.
  induction s as [|c s IH]; intros need lo hi Hs.
  - destruct need; [|discriminate Hs].
    cbn [String.append]. now rewrite (utf8_from_bounds lo hi 128 191).
  - cbn [String.append utf8_from] in Hs |- *.
    destruct need as [|k].
    + repeat match type of Hs with
             | (if ?b then _ else _) = true => destruct b
             end; try discriminate Hs; now apply IH.
    + apply andb_true_iff in Hs as [Hc Hs]. rewrite Hc. now apply IH.
Qed.

Lemma valid_utf8_app (s t : string) :
  valid_utf8 s = true -> valid_utf8 t = true -> valid_utf8 (s +:+ t) = true.
Proof. apply utf8_from_app. Qed.

Lemma valid_utf8_ascii7 (s : string) :
  string_forallb is_ascii7 s = true -> valid_utf8 s = true.
Proof.
  unfold valid_utf8. induction s as [|c s IH]; [reflexivity|].
  cbn [string_forallb utf8_from]. intros H.
  apply andb_true_iff in H as [Hc Hs]. unfold is_ascii7 in Hc.
  rewrite Hc. now apply IH.
Qed.

(* ================================================================= *)
(** ** The hexadecimal digest *)

Lemma hex_digit_is_hex (n : N) : (n < 16)%N -> is_hex (hex_digit n) = true.
Proof.
  intros Hn. rewrite <- (N2Nat.id n).
  assert (Hk : (N.to_nat n < 16)%nat) by lia.
  revert Hk. generalize (N.to_nat n). intros k Hk.
  do 16 (destruct k as [|k]; [reflexivity|]). lia.
Qed.

Lemma is_hex_facts (c : ascii) :
  is_hex c = true -> not_colon c = true /\ is_ascii7 c = true.
Proof.
  destruct c as [[] [] [] [] [] [] [] []]; vm_compute;
    intros H; first [discriminate H | split; reflexivity].
Qed.

Lemma string_forallb_substring (p : ascii -> bool) (n : nat) (s : string) :
  string_forallb p s = true -> string_forallb p (substring0 n s) = true.
Proof.
  unfold substring0. revert n. induction s as [|c s IH]; intros [|n] H;
    try reflexivity.
  cbn [String.substring string_forallb] in *.
  apply andb_true_iff in H as [Hc Hs]. rewrite Hc. now apply IH.
Qed.

Lemma hex8_is_hex (w : N) : string_forallb is_hex (SHA256.hex8 w) = true.
Proof.
  unfold SHA256.hex8. cbn [string_forallb].
  rewrite !hex_digit_is_hex by (apply N.mod_upper_bound; discriminate).
  reflexivity.
Qed.

(** A digest is made of hexadecimal digits, sixty-four of them. *)
Lemma digest_is_hex (s : string) : string_forallb is_hex (digestStringAsync s) = true.
Proof.
  unfold digestStringAsync, SHA256.hex.
  rewrite !string_forallb_app, !hex8_is_hex. reflexivity.
Qed.

Lemma digest_length (s : string) : String.length (digestStringAsync s) = 64%nat.
Proof. reflexivity. Qed.

Lemma digest_not_empty (s : string) : digestStringAsync s <> EmptyString.
Proof.
  intros H. pose proof (digest_length s) as Hl. rewrite H in Hl. discriminate Hl.
Qed.

Lemma substring0_cons (n : nat) (s : string) :
  (0 < n)%nat -> s <> EmptyString ->
  exists c s', substring0 n s = String c s'.
Proof.
  intros Hn Hs. destruct s as [|c s]; [contradiction|].
  destruct n as [|n]; [lia|]. now exists c, (String.substring 0 n s).
Qed.

(* ================================================================= *)
(** ** [JSON.parse] reads what [JSON.stringify] writes *)

(** *** String literals *)

Lemma hex_value_digit (n : N) : (n < 16)%N -> hex_value (hex_digit n) = Some n.
Proof.
  intros Hn. rewrite <- (N2Nat.id n).
  assert (Hk : (N.to_nat n < 16)%nat) by lia.
  revert Hk. generalize (N.to_nat n). intros k Hk.
  do 16 (destruct k as [|k]; [reflexivity|]). lia.
Qed.

Lemma surrogate_pair_low (hi : N) (s : string) :
  (hi < 55296)%N -> surrogate_pair hi s = None.
Proof.
  intros Hhi. unfold surrogate_pair.
  destruct s as [|b [|u [|l1 [|l2 [|l3 [|l4 s]]]]]]; try reflexivity.
  replace (55296 <=? hi)%N with false by (symmetry; apply N.leb_gt; lia).
  now rewrite andb_false_r.
Qed.

Lemma parse_string_body_plain (c : ascii) (s : string) :
  Ascii.eqb c dquote = false -> Ascii.eqb c backslash = false ->
  (code c <? 32)%N = false ->
  parse_string_body (String c s)
  = '(body, rest) ← parse_string_body s; Ok (String c body, rest).
Proof. intros H1 H2 H3. cbn [parse_string_body]. now rewrite H1, H2, H3. Qed.

Lemma parse_string_body_simple (e c : ascii) (s : string) :
  unescape_simple e = Some c ->
  parse_string_body (String backslash (String e s))
  = '(body, rest) ← parse_string_body s; Ok (String c body, rest).
Proof. intros H. cbn [parse_string_body]. now rewrite H. Qed.

Lemma parse_string_body_control (c : ascii) (s : string) :
  (code c < 32)%N ->
  parse_string_body
    (String backslash (String "u" (String "0" (String "0"
       (String (hex_digit (code c / 16))
          (String (hex_digit (code c mod 16)) s))))))
  = '(body, rest) ← parse_string_body s; Ok (String c body, rest).
Proof.
  intros Hc. cbn [parse_string_body].
  change (Ascii.eqb backslash dquote) with false.
  change (Ascii.eqb backslash backslash) with true.
  change (unescape_simple "u") with (@None ascii).
  change (Ascii.eqb "u" "u") with true. cbv iota.
  assert (Hhex : hex4 "0" "0" (hex_digit (code c / 16)) (hex_digit (code c mod 16))
                 = Some (code c)).
  { unfold hex4. change (hex_value "0") with (Some 0%N).
    rewrite !hex_value_digit by lia. cbn [mbind option_bind].
    f_equal. lia. }
  rewrite Hhex, surrogate_pair_low by lia.
  assert (Hutf : utf8_encode (code c) = String c EmptyString).
  { unfold utf8_encode.
    replace (code c <? 128)%N with true by (symmetry; apply N.ltb_lt; lia).
    apply byte_string_code. }
  rewrite Hutf. reflexivity.
Qed.

(** The body of a quoted string is read back up to its closing quote. *)
Lemma parse_string_body_escape (s rest : string) :
  parse_string_body (escape_string s +:+ String dquote rest) = Ok (s, rest).
Proof.
  induction s as [|c s IH]; [reflexivity|].
  cbn [escape_string]. rewrite append_assoc. unfold escape_char.
  destruct (Ascii.eqb c dquote) eqn:E1.
  { apply Ascii.eqb_eq in E1 as ->. cbn [String.append].
    rewrite (parse_string_body_simple dquote dquote) by reflexivity.
    now rewrite IH. }
  destruct (Ascii.eqb c backslash) eqn:E2.
  { apply Ascii.eqb_eq in E2 as ->. cbn [String.append].
    rewrite (parse_string_body_simple backslash backslash) by reflexivity.
    now rewrite IH. }
  destruct (Ascii.eqb c "008") eqn:E3.
  { apply Ascii.eqb_eq in E3 as ->. cbn [String.append].
    rewrite (parse_string_body_simple "b" "008") by reflexivity.
    now rewrite IH. }
  destruct (Ascii.eqb c "012") eqn:E4.
  { apply Ascii.eqb_eq in E4 as ->. cbn [String.append].
    rewrite (parse_string_body_simple "f" "012") by reflexivity.
    now rewrite IH. }
  destruct (Ascii.eqb c "010") eqn:E5.
  { apply Ascii.eqb_eq in E5 as ->. cbn [String.append].
    rewrite (parse_string_body_simple "n" "010") by reflexivity.
    now rewrite IH. }
  destruct (Ascii.eqb c "013") eqn:E6.
  { apply Ascii.eqb_eq in E6 as ->. cbn [String.append].
    rewrite (parse_string_body_simple "r" "013") by reflexivity.
    now rewrite IH. }
  destruct (Ascii.eqb c "009") eqn:E7.
  { apply Ascii.eqb_eq in E7 as ->. cbn [String.append].
    rewrite (parse_string_body_simple "t" "009") by reflexivity.
    now rewrite IH. }
  destruct (code c <? 32)%N eqn:E8.
  - apply N.ltb_lt in E8. cbn [String.append].
    rewrite parse_string_body_control by assumption. now rewrite IH.
  - cbn [String.append].
    rewrite parse_string_body_plain by assumption. now rewrite IH.
Qed.

Lemma quote_eq (s : string) :
  quote s = String dquote (escape_string s +:+ String dquote EmptyString).
Proof. reflexivity. Qed.

Lemma quote_app (s rest : string) :
  quote s +:+ rest = String dquote (escape_string s +:+ String dquote rest).
Proof. unfold quote. cbn [String.append]. now rewrite append_assoc. Qed.

(** *** Numbers *)

Lemma scan_digits_uint (u : Decimal.uint) (rest : string) :
  no_digit_ahead rest = true ->
  scan_digits (NilEmpty.string_of_uint u +:+ rest) = (u, rest).
Proof.
  intros Hrest.
  induction u as [|u IH|u IH|u IH|u IH|u IH|u IH|u IH|u IH|u IH|u IH];
    cbn [NilEmpty.string_of_uint String.append scan_digits digit_of_ascii];
    rewrite ?IH; try reflexivity.
  destruct rest as [|c rest]; [reflexivity|].
  cbn [no_digit_ahead] in Hrest. cbn [scan_digits].
  destruct (digit_of_ascii c); [discriminate Hrest|reflexivity].
Qed.

Lemma nzhead_not_D0 (u u' : Decimal.uint) : Decimal.nzhead u <> Decimal.D0 u'.
Proof. induction u; cbn [Decimal.nzhead]; congruence. Qed.

Lemma to_uint_unorm (p : positive) :
  Pos.to_uint p = Decimal.unorm (Pos.to_uint p).
Proof.
  rewrite <- DecimalPos.Unsigned.to_of, DecimalPos.Unsigned.of_to. reflexivity.
Qed.

Lemma to_uint_not_D0 (p : positive) (u : Decimal.uint) :
  Pos.to_uint p <> Decimal.D0 u.
Proof.
  intros H. pose proof (to_uint_unorm p) as Hn. rewrite H in Hn.
  rewrite DecimalFacts.unorm_D0 in Hn. unfold Decimal.unorm in Hn.
  destruct (Decimal.nzhead u) eqn:Hz;
    try (symmetry in Hn; rewrite <- Hz in Hn; now apply nzhead_not_D0 in Hn).
  injection Hn as ->. now apply (DecimalPos.Unsigned.to_uint_nonzero p).
Qed.

Lemma string_of_uint_pos (p : positive) :
  NilZero.string_of_uint (Pos.to_uint p) = NilEmpty.string_of_uint (Pos.to_uint p).
Proof.
  unfold NilZero.string_of_uint.
  destruct (Pos.to_uint p) eqn:Hp; try reflexivity.
  now apply DecimalPos.Unsigned.to_uint_nonnil in Hp.
Qed.

Lemma of_uint_to_uint (p : positive) : Z.of_uint (Pos.to_uint p) = Z.pos p.
Proof. unfold Z.of_uint. now rewrite DecimalPos.Unsigned.of_to. Qed.

Lemma first_digit (u : Decimal.uint) :
  u <> Decimal.Nil ->
  exists c s, NilEmpty.string_of_uint u = String c s /\
              Ascii.eqb c "-" = false /\ starts_number c = true /\
              is_json_ws c = false /\ Ascii.eqb c "{" = false /\
              Ascii.eqb c "[" = false /\ Ascii.eqb c dquote = false.
Proof.
  intros Hu. destruct u; [contradiction|..];
    eexists _, _; (split; [reflexivity|repeat split]).
Qed.

Lemma parse_number_to_string (n : Z) (rest : string) :
  no_digit_ahead rest = true ->
  parse_number (number_to_string n +:+ rest) = Ok (n, rest).
Proof.
  intros Hrest. unfold number_to_string, parse_number.
  destruct n as [|p|p]; cbn [Z.to_int NilZero.string_of_int].
  - change (NilZero.string_of_uint Decimal.zero) with "0".
    cbn [String.append]. 
    change (String "0" rest) with (NilEmpty.string_of_uint (Decimal.D0 Decimal.Nil) +:+ rest).
    now rewrite scan_digits_uint.
  - rewrite string_of_uint_pos.
    destruct (first_digit (Pos.to_uint p)) as (c & s & Hs & Hminus & _);
      [apply DecimalPos.Unsigned.to_uint_nonnil|].
    assert (Hscan := scan_digits_uint (Pos.to_uint p) rest Hrest).
    rewrite Hs in Hscan |- *. cbn [String.append] in Hscan |- *.
    assert (Hm : (if Ascii.eqb c "-" then true else false) = false)
      by now rewrite Hminus.
    replace (match c with "-"%char => (true, s +:+ rest) | _ => (false, String c (s +:+ rest)) end)
      with (false, String c (s +:+ rest)).
    2:{ destruct c as [[] [] [] [] [] [] [] []]; try reflexivity. discriminate Hminus. }
    rewrite Hscan.
    destruct (Pos.to_uint p) eqn:Hp;
      try (now rewrite <- Hp, of_uint_to_uint).
    + now apply DecimalPos.Unsigned.to_uint_nonnil in Hp.
    + now apply to_uint_not_D0 in Hp.
  - rewrite string_of_uint_pos. cbn [String.append].
    rewrite scan_digits_uint by assumption.
    destruct (Pos.to_uint p) eqn:Hp;
      try (now rewrite <- Hp, of_uint_to_uint).
    + now apply DecimalPos.Unsigned.to_uint_nonnil in Hp.
    + now apply to_uint_not_D0 in Hp.
Qed.

(** *** Values *)

Lemma json_induction (P : json -> Prop) :
  P JNull ->
  (forall b, P (JBool b)) ->
  (forall n, P (JNum n)) ->
  (forall s, P (JStr s)) ->
  (forall items, Forall P items -> P (JArr items)) ->
  (forall fields, Forall (fun kv => P (snd kv)) fields -> P (JObj fields)) ->
  forall v, P v.
Proof.
  intros Hnull Hbool Hnum Hstr Harr Hobj. fix IH 1.
  intros [|b|n|s|items|fields].
  - exact Hnull.
  - apply Hbool.
  - apply Hnum.
  - apply Hstr.
  - apply Harr.
    exact ((fix go (l : list json) : Forall P l :=
              match l with
              | [] => List.Forall_nil P
              | x :: l' => List.Forall_cons P x l' (IH x) (go l')
              end) items).
  - apply Hobj.
    exact ((fix go (l : list (string * json)) : Forall (fun kv => P (snd kv)) l :=
              match l with
              | [] => List.Forall_nil _
              | kv :: l' => List.Forall_cons _ kv l' (IH (snd kv)) (go l')
              end) fields).
Qed.

Lemma stringify_arr (x : json) (items : list json) :
  JSON_stringify (JArr (x :: items))
  = "[" +:+ JSON_stringify x +:+ stringify_items items.
Proof. reflexivity. Qed.

Lemma stringify_obj (k : string) (x : json) (fields : list (string * json)) :
  JSON_stringify (JObj ((k, x) :: fields))
  = "{" +:+ quote k +:+ ":" +:+ JSON_stringify x +:+ stringify_fields fields.
Proof. reflexivity. Qed.

Lemma json_size_arr (items : list json) :
  json_size (JArr items) = S (items_size items).
Proof. reflexivity. Qed.

Lemma json_size_obj (fields : list (string * json)) :
  json_size (JObj fields) = S (fields_size fields).
Proof. reflexivity. Qed.

Lemma parse_value_S (fuel : nat) (s : string) :
  parse_value (S fuel) s =
  match skip_ws s with
  | EmptyString => Throw SyntaxError
  | String c r as s0 =>
      if Ascii.eqb c "{" then
        match next_is "}" r with
        | Some r' => Ok (JObj [], r')
        | None => '(fs, r') ← parse_members fuel r; Ok (JObj fs, r')
        end
      else if Ascii.eqb c "[" then
        match next_is "]" r with
        | Some r' => Ok (JArr [], r')
        | None => '(vs, r') ← parse_elements fuel r; Ok (JArr vs, r')
        end
      else if Ascii.eqb c dquote then
        '(str, r') ← parse_string_body r; Ok (JStr str, r')
      else if starts_number c then
        '(n, r') ← parse_number s0; Ok (JNum n, r')
      else parse_literal s0
  end.
Proof. reflexivity. Qed.

Lemma parse_elements_S (fuel : nat) (s : string) :
  parse_elements (S fuel) s =
  '(v, r) ← parse_value fuel s;
  match next_is "," r, next_is "]" r with
  | Some r', _ => '(vs, r'') ← parse_elements fuel r'; Ok (v :: vs, r'')
  | None, Some r' => Ok ([v], r')
  | None, None => Throw SyntaxError
  end.
Proof. reflexivity. Qed.

Lemma parse_members_S (fuel : nat) (s : string) :
  parse_members (S fuel) s =
  match next_is dquote s with
  | None => Throw SyntaxError
  | Some r =>
      '(k, r1) ← parse_string_body r;
      match next_is ":" r1 with
      | None => Throw SyntaxError
      | Some r2 =>
          '(v, r3) ← parse_value fuel r2;
          match next_is "," r3, next_is "}" r3 with
          | Some r4, _ =>
              '(fs, r5) ← parse_members fuel r4; Ok ((k, v) :: fs, r5)
          | None, Some r4 => Ok ([(k, v)], r4)
          | None, None => Throw SyntaxError
          end
      end
  end.
Proof. reflexivity. Qed.

Lemma skip_ws_cons (c : ascii) (s : string) :
  is_json_ws c = false -> skip_ws (String c s) = String c s.
Proof. intros H. cbn [skip_ws]. now rewrite H. Qed.

Lemma next_is_cons (c c' : ascii) (s : string) :
  is_json_ws c' = false ->
  next_is c (String c' s) = if Ascii.eqb c' c then Some s else None.
Proof. intros H. unfold next_is. now rewrite skip_ws_cons. Qed.

Lemma stringify_items_ahead (l : list json) (rest : string) :
  no_digit_ahead (stringify_items l +:+ rest) = true.
Proof. now destruct l. Qed.

Lemma stringify_fields_ahead (l : list (string * json)) (rest : string) :
  no_digit_ahead (stringify_fields l +:+ rest) = true.
Proof. now destruct l as [|[k y] l]. Qed.

Lemma parse_elements_items (l : list json) :
  Forall reads_back l ->
  forall x fuel rest,
    reads_back x ->
    (S (json_size x + items_size l) <= fuel)%nat ->
    parse_elements fuel (JSON_stringify x +:+ stringify_items l +:+ rest)
    = Ok (x :: l, rest).
Proof.
  induction 1 as [|y l Hy Hl IH]; intros x fuel rest Hx Hfuel;
    (destruct fuel as [|fuel]; [lia|]); rewrite parse_elements_S.
  - rewrite Hx; [|cbn [items_size] in Hfuel; lia|reflexivity].
    cbn [mbind result_bind stringify_items String.append].
    rewrite !next_is_cons by reflexivity. reflexivity.
  - cbn [items_size] in Hfuel.
    rewrite Hx; [|lia|apply stringify_items_ahead].
    cbn [mbind result_bind stringify_items].
    rewrite !append_assoc. cbn [String.append].
    rewrite !next_is_cons by reflexivity.
    change (Ascii.eqb "," ",") with true. cbv iota.
    rewrite IH; [reflexivity|exact Hy|lia].
Qed.

Lemma parse_members_fields (l : list (string * json)) :
  Forall (fun kv => reads_back (snd kv)) l ->
  forall k x fuel rest,
    reads_back x ->
    (S (json_size x + fields_size l) <= fuel)%nat ->
    parse_members fuel
      (quote k +:+ ":" +:+ JSON_stringify x +:+ stringify_fields l +:+ rest)
    = Ok ((k, x) :: l, rest).
Proof.
  induction 1 as [|[k' y] l Hy Hl IH]; intros k x fuel rest Hx Hfuel;
    (destruct fuel as [|fuel]; [lia|]); rewrite parse_members_S;
    rewrite quote_app; rewrite next_is_cons by reflexivity;
    change (Ascii.eqb dquote dquote) with true; cbv iota;
    rewrite parse_string_body_escape; cbn [mbind result_bind String.append];
    rewrite next_is_cons by reflexivity;
    change (Ascii.eqb ":" ":") with true; cbv iota.
  - rewrite Hx; [|cbn [fields_size] in Hfuel; lia|reflexivity].
    cbn [mbind result_bind stringify_fields String.append].
    rewrite !next_is_cons by reflexivity. reflexivity.
  - cbn [fields_size] in Hfuel. cbn [snd] in Hy.
    rewrite Hx; [|lia|apply stringify_fields_ahead].
    cbn [mbind result_bind stringify_fields].
    rewrite !append_assoc. cbn [String.append].
    rewrite !next_is_cons by reflexivity.
    change (Ascii.eqb "," ",") with true. cbv iota.
    assert (Hfuel' : (S (json_size y + fields_size l) <= fuel)%nat) by lia.
    pose proof (IH k' y fuel rest Hy Hfuel') as Hrec.
    cbn [String.append] in Hrec. rewrite Hrec. reflexivity.
Qed.

Lemma length_append (s t : string) :
  String.length (s +:+ t) = (String.length s + String.length t)%nat.
Proof. induction s; cbn [String.append String.length Nat.add]; congruence. Qed.

Lemma number_first_char (n : Z) :
  exists c s, number_to_string n = String c s /\ starts_number c = true.
Proof.
  unfold number_to_string.
  destruct n as [|p|p]; cbn [Z.to_int NilZero.string_of_int].
  - now exists "0"%char, EmptyString.
  - rewrite string_of_uint_pos.
    destruct (first_digit (Pos.to_uint p)) as (c & s & Hs & _ & H & _);
      [apply DecimalPos.Unsigned.to_uint_nonnil|].
    now exists c, s.
  - now exists "-"%char, (NilZero.string_of_uint (Pos.to_uint p)).
Qed.

Lemma starts_number_facts (c : ascii) :
  starts_number c = true ->
  is_json_ws c = false /\ Ascii.eqb c "{" = false /\ Ascii.eqb c "[" = false /\
  Ascii.eqb c dquote = false /\ Ascii.eqb c "]" = false /\ Ascii.eqb c "}" = false.
Proof.
  destruct c as [[] [] [] [] [] [] [] []]; vm_compute;
    intros H; first [discriminate H | repeat split].
Qed.

(** The first character of the text of a value is not white space and
    closes neither an array nor an object. *)
Lemma stringify_first (v : json) :
  exists c s, JSON_stringify v = String c s /\ is_json_ws c = false /\
              Ascii.eqb c "]" = false /\ Ascii.eqb c "}" = false.
Proof.
  destruct v as [|[]|n|s|[|x items]|[|[k x] fields]];
    try (eexists _, _; split; [reflexivity|repeat split]).
  destruct (number_first_char n) as (c & s & Hs & Hc).
  exists c, s. split; [exact Hs|]. apply starts_number_facts in Hc. tauto.
Qed.

(** Every value is read back from its text, whatever follows it. *)
Lemma reads_back_all (v : json) : reads_back v.
Proof.
  induction v as [|b|n|s|items IH|fields IH] using json_induction;
    intros fuel rest Hfuel Hrest;
    (destruct fuel as [|fuel]; [cbn in Hfuel; lia|]); rewrite parse_value_S.
  - reflexivity.
  - now destruct b.
  - cbn [JSON_stringify].
    destruct (number_first_char n) as (c & s & Hs & Hnum).
    pose proof (parse_number_to_string n rest Hrest) as Hparse.
    destruct (starts_number_facts c Hnum) as (Hws & Hb & Hk & Hq & _).
    rewrite Hs in Hparse |- *. cbn [String.append] in Hparse |- *.
    rewrite skip_ws_cons by assumption.
    rewrite Hb, Hk, Hq, Hnum, Hparse. reflexivity.
  - cbn [JSON_stringify]. rewrite quote_app.
    rewrite skip_ws_cons by reflexivity.
    change (Ascii.eqb dquote "{") with false.
    change (Ascii.eqb dquote "[") with false.
    change (Ascii.eqb dquote dquote) with true. cbv iota.
    now rewrite parse_string_body_escape.
  - destruct items as [|x items]; [reflexivity|].
    rewrite stringify_arr. rewrite json_size_arr in Hfuel.
    cbn [items_size] in Hfuel. apply Forall_cons in IH as [Hx Hitems].
    rewrite !append_assoc. cbn [String.append].
    rewrite skip_ws_cons by reflexivity.
    change (Ascii.eqb "[" "{") with false.
    change (Ascii.eqb "[" "[") with true. cbv iota.
    rewrite parse_elements_items; [|assumption|assumption|lia].
    destruct (stringify_first x) as (c & s & -> & Hws & Hc & _).
    cbn [String.append]. rewrite next_is_cons by assumption.
    now rewrite Hc.
  - destruct fields as [|[k x] fields]; [reflexivity|].
    rewrite stringify_obj. rewrite json_size_obj in Hfuel.
    cbn [fields_size] in Hfuel. apply Forall_cons in IH as [Hx Hfields].
    cbn [snd] in Hx.
    rewrite !append_assoc. cbn [String.append].
    rewrite skip_ws_cons by reflexivity.
    change (Ascii.eqb "{" "{") with true. cbv iota.
    pose proof (parse_members_fields fields Hfields k x fuel rest Hx) as Hm.
    cbn [String.append] in Hm.
    rewrite Hm by lia.
    rewrite quote_app, next_is_cons by reflexivity. reflexivity.
Qed.

Lemma items_size_length (l : list json) :
  Forall (fun y => (json_size y <= String.length (JSON_stringify y))%nat) l ->
  (S (items_size l) <= String.length (stringify_items l))%nat.
Proof.
  induction 1 as [|y l Hy Hl IH]; cbn [items_size stringify_items].
  - cbn. lia.
  - rewrite !length_append. cbn [String.length]. lia.
Qed.

Lemma fields_size_length (l : list (string * json)) :
  Forall (fun kv => (json_size (snd kv)
                     <= String.length (JSON_stringify (snd kv)))%nat) l ->
  (S (fields_size l) <= String.length (stringify_fields l))%nat.
Proof.
  induction 1 as [|[k y] l Hy Hl IH]; cbn [fields_size stringify_fields].
  - cbn. lia.
  - cbn [snd] in Hy. rewrite !length_append. cbn [String.length]. lia.
Qed.

Lemma json_size_length (v : json) :
  (json_size v <= String.length (JSON_stringify v))%nat.
Proof.
  induction v as [|b|n|s|items IH|fields IH] using json_induction.
  - cbn. lia.
  - destruct b; cbn; lia.
  - destruct (number_first_char n) as (c & s & Hs & _).
    cbn [JSON_stringify json_size]. rewrite Hs. cbn [String.length]. lia.
  - cbn [JSON_stringify json_size]. rewrite quote_eq. cbn [String.length]. lia.
  - destruct items as [|x items]; [cbn; lia|].
    rewrite stringify_arr, json_size_arr. apply Forall_cons in IH as [Hx Hitems].
    apply items_size_length in Hitems.
    rewrite !length_append. cbn [items_size String.length]. lia.
  - destruct fields as [|[k x] fields]; [cbn; lia|].
    rewrite stringify_obj, json_size_obj. apply Forall_cons in IH as [Hx Hfields].
    apply fields_size_length in Hfields. cbn [snd] in Hx.
    rewrite !length_append. cbn [fields_size String.length]. lia.
Qed.

(** [JSON.parse(JSON.stringify(v))] is [v]. *)
Theorem JSON_parse_stringify (v : json) : JSON_parse (JSON_stringify v) = Ok v.
Proof.
  unfold JSON_parse.
  pose proof (reads_back_all v (2 * String.length (JSON_stringify v) + 1)%nat
                EmptyString) as H.
  rewrite append_nil_r in H. rewrite H; [reflexivity| |reflexivity].
  pose proof (json_size_length v). lia.
Qed.

(** *** The fuel of [JSON_parse] is never used up *)

Lemma skip_ws_length (s : string) :
  (String.length (skip_ws s) <= String.length s)%nat.
Proof.
  induction s as [|c s IH]; cbn [skip_ws String.length]; [lia|].
  destruct (is_json_ws c); cbn [String.length]; lia.
Qed.

Lemma next_is_length (c : ascii) (s r : string) :
  next_is c s = Some r -> (String.length r < String.length s)%nat.
Proof.
  unfold next_is. pose proof (skip_ws_length s) as Hs.
  destruct (skip_ws s) as [|c' r']; [discriminate|].
  destruct (Ascii.eqb c' c); [|discriminate].
  intros [= <-]. cbn [String.length] in Hs. lia.
Qed.

Lemma bind_Ok {A B : Type} (m : result A) (f : A -> result B) (b : B) :
  m ≫= f = Ok b -> exists a, m = Ok a /\ f a = Ok b.
Proof. destruct m as [a|e]; [now exists a|discriminate]. Qed.

Lemma parse_string_body_length (n : nat) :
  forall s body rest,
    (String.length s <= n)%nat ->
    parse_string_body s = Ok (body, rest) ->
    (String.length rest < String.length s)%nat.
Proof.
  induction n as [|n IH]; intros s body rest Hn.
  - destruct s; [discriminate|cbn [String.length] in Hn; lia].
  - destruct s as [|c s1]; [discriminate|].
    cbn [parse_string_body String.length] in *.
    destruct (Ascii.eqb c dquote); [intros [= <- <-]; lia|].
    destruct (Ascii.eqb c backslash).
    + destruct s1 as [|e s2]; [discriminate|].
      cbn [String.length] in *.
      destruct (unescape_simple e).
      * intros H. apply bind_Ok in H as ([b r] & H & Hr).
        injection Hr as <- <-. apply IH in H; lia.
      * destruct (Ascii.eqb e "u"); [|discriminate].
        destruct s2 as [|h1 [|h2 [|h3 [|h4 s3]]]]; try discriminate.
        cbn [String.length] in *.
        destruct (hex4 h1 h2 h3 h4) as [hi|]; [|discriminate].
        destruct (surrogate_pair hi s3).
        -- destruct s3 as [|a1 [|a2 [|a3 [|a4 [|a5 [|a6 s4]]]]]];
             cbn [String.length] in *;
             intros H; apply bind_Ok in H as ([b r] & H & Hr);
             injection Hr as <- <-; apply IH in H; cbn [String.length] in *; lia.
        -- intros H. apply bind_Ok in H as ([b r] & H & Hr).
           injection Hr as <- <-. apply IH in H; lia.
    + destruct (code c <? 32)%N; [discriminate|].
      intros H. apply bind_Ok in H as ([b r] & H & Hr).
      injection Hr as <- <-. apply IH in H; lia.
Qed.

Lemma scan_digits_length (s : string) :
  forall u rest, scan_digits s = (u, rest) ->
    (String.length rest <= String.length s)%nat /\
    (u <> Decimal.Nil -> String.length rest < String.length s)%nat.
Proof.
  induction s as [|c s IH]; intros u rest; cbn [scan_digits String.length].
  - intros [= <- <-]. split; [cbn; lia|congruence].
  - destruct (digit_of_ascii c) as [d|].
    + destruct (scan_digits s) as [u' rest'] eqn:Hs.
      intros [= <- <-]. destruct (IH u' rest' eq_refl) as [Hle _].
      split; lia.
    + intros [= <- <-]. cbn [String.length]. split; [lia|congruence].
Qed.

Lemma parse_number_length (s : string) (n : Z) (rest : string) :
  parse_number s = Ok (n, rest) -> (String.length rest < String.length s)%nat.
Proof.
  unfold parse_number.
  set (split_sign := match s with
                     | String "-"%char r => (true, r)
                     | _ => (false, s)
                     end).
  assert (Hsign : (String.length (snd split_sign) <= String.length s)%nat).
  { subst split_sign. destruct s as [|c r]; [cbn; lia|].
    destruct c as [[] [] [] [] [] [] [] []]; cbn [snd String.length]; lia. }
  destruct split_sign as [negative s1]. cbn [snd] in Hsign.
  destruct (scan_digits s1) as [u r] eqn:Hscan.
  destruct (scan_digits_length _ _ _ Hscan) as [_ Hlt].
  destruct u as [|u|u|u|u|u|u|u|u|u|u]; try discriminate;
    try (intros [= _ <-]; assert (String.length r < String.length s1)%nat
           by (apply Hlt; discriminate); lia).
  destruct u; try discriminate.
  intros [= _ <-].
  assert (String.length r < String.length s1)%nat by (apply Hlt; discriminate).
  lia.
Qed.

Lemma strip_prefix_length (p s r : string) :
  strip_prefix p s = Some r ->
  (String.length r + String.length p = String.length s)%nat.
Proof.
  revert s. induction p as [|a p IH]; intros s; cbn [strip_prefix String.length].
  - intros [= <-]. lia.
  - destruct s as [|b s]; [discriminate|].
    destruct (Ascii.eqb a b); [|discriminate].
    intros H. apply IH in H. cbn [String.length]. lia.
Qed.

Lemma parse_literal_length (s : string) (v : json) (rest : string) :
  parse_literal s = Ok (v, rest) -> (String.length rest < String.length s)%nat.
Proof.
  unfold parse_literal.
  destruct (strip_prefix "true" s) as [r|] eqn:H1.
  { intros [= _ <-]. apply strip_prefix_length in H1. cbn in H1. lia. }
  destruct (strip_prefix "false" s) as [r|] eqn:H2.
  { intros [= _ <-]. apply strip_prefix_length in H2. cbn in H2. lia. }
  destruct (strip_prefix "null" s) as [r|] eqn:H3; [|discriminate].
  intros [= _ <-]. apply strip_prefix_length in H3. cbn in H3. lia.
Qed.

(** A successful call consumes input. *)
Lemma parse_consumes (fuel : nat) :
  (forall s v rest, parse_value fuel s = Ok (v, rest) ->
     (String.length rest < String.length s)%nat) /\
  (forall s vs rest, parse_elements fuel s = Ok (vs, rest) ->
     (String.length rest < String.length s)%nat) /\
  (forall s fs rest, parse_members fuel s = Ok (fs, rest) ->
     (String.length rest < String.length s)%nat).
Proof.
  induction fuel as [|fuel (IHv & IHe & IHm)];
    [repeat split; intros; discriminate|].
  repeat split.
  - intros s v rest. rewrite parse_value_S.
    pose proof (skip_ws_length s) as Hs.
    destruct (skip_ws s) as [|c r]; [discriminate|].
    cbn [String.length] in Hs.
    destruct (Ascii.eqb c "{").
    { destruct (next_is "}" r) as [r'|] eqn:Hnext.
      - intros [= _ <-]. apply next_is_length in Hnext. lia.
      - intros H. apply bind_Ok in H as ([fs r'] & H & Hr).
        injection Hr as _ <-. apply IHm in H. lia. }
    destruct (Ascii.eqb c "[").
    { destruct (next_is "]" r) as [r'|] eqn:Hnext.
      - intros [= _ <-]. apply next_is_length in Hnext. lia.
      - intros H. apply bind_Ok in H as ([vs r'] & H & Hr).
        injection Hr as _ <-. apply IHe in H. lia. }
    destruct (Ascii.eqb c dquote).
    { intros H. apply bind_Ok in H as ([str r'] & H & Hr).
      injection Hr as _ <-.
      apply (parse_string_body_length _ _ _ _ (Nat.le_refl _)) in H. lia. }
    destruct (starts_number c).
    { intros H. apply bind_Ok in H as ([n r'] & H & Hr).
      injection Hr as _ <-. apply parse_number_length in H.
      cbn [String.length] in H. lia. }
    intros H. apply parse_literal_length in H. cbn [String.length] in H. lia.
  - intros s vs rest. rewrite parse_elements_S.
    intros H. apply bind_Ok in H as ([v r] & Hv & H). apply IHv in Hv.
    destruct (next_is "," r) as [r'|] eqn:Hcomma.
    + apply bind_Ok in H as ([vs' r''] & H & Hr). injection Hr as _ <-.
      apply IHe in H. apply next_is_length in Hcomma. lia.
    + destruct (next_is "]" r) as [r'|] eqn:Hclose; [|discriminate].
      injection H as _ <-. apply next_is_length in Hclose. lia.
  - intros s fs rest. rewrite parse_members_S.
    destruct (next_is dquote s) as [r|] eqn:Hq; [|discriminate].
    apply next_is_length in Hq.
    intros H. apply bind_Ok in H as ([k r1] & Hk & H).
    apply (parse_string_body_length _ _ _ _ (Nat.le_refl _)) in Hk.
    destruct (next_is ":" r1) as [r2|] eqn:Hcolon; [|discriminate].
    apply next_is_length in Hcolon.
    apply bind_Ok in H as ([v r3] & Hv & H). apply IHv in Hv.
    destruct (next_is "," r3) as [r4|] eqn:Hcomma.
    + apply bind_Ok in H as ([fs' r5] & H & Hr). injection Hr as _ <-.
      apply IHm in H. apply next_is_length in Hcomma. lia.
    + destruct (next_is "}" r3) as [r4|] eqn:Hclose; [|discriminate].
      injection H as _ <-. apply next_is_length in Hclose. lia.
Qed.

Lemma bind_ext {A B : Type} (m : result A) (f g : A -> result B) :
  (forall a, m = Ok a -> f a = g a) -> m ≫= f = m ≫= g.
Proof. intros H. destruct m as [a|e]; [now apply H|reflexivity]. Qed.

(** One more unit of fuel changes nothing once the fuel exceeds twice the
    length of the input. *)
Lemma parse_fuel_step (fuel : nat) :
  (forall s, (2 * String.length s + 1 <= fuel)%nat ->
     parse_value (S fuel) s = parse_value fuel s) /\
  (forall s, (2 * String.length s + 2 <= fuel)%nat ->
     parse_elements (S fuel) s = parse_elements fuel s) /\
  (forall s, (2 * String.length s + 2 <= fuel)%nat ->
     parse_members (S fuel) s = parse_members fuel s).
Proof.
  induction fuel as [|fuel (IHv & IHe & IHm)];
    [repeat split; intros; lia|].
  destruct (parse_consumes fuel) as (Cv & Ce & Cm).
  repeat split.
  - intros s Hs. rewrite !parse_value_S.
    pose proof (skip_ws_length s) as Hws.
    destruct (skip_ws s) as [|c r]; [reflexivity|].
    cbn [String.length] in Hws.
    rewrite IHe, IHm by lia. reflexivity.
  - intros s Hs. rewrite !parse_elements_S.
    rewrite IHv by lia. apply bind_ext. intros [v r] Hv. apply Cv in Hv.
    destruct (next_is "," r) as [r'|] eqn:Hcomma; [|reflexivity].
    apply next_is_length in Hcomma. rewrite IHe by lia. reflexivity.
  - intros s Hs. rewrite !parse_members_S.
    destruct (next_is dquote s) as [r|] eqn:Hq; [|reflexivity].
    apply next_is_length in Hq.
    apply bind_ext. intros [k r1] Hk.
    apply (parse_string_body_length _ _ _ _ (Nat.le_refl _)) in Hk.
    destruct (next_is ":" r1) as [r2|] eqn:Hcolon; [|reflexivity].
    apply next_is_length in Hcolon.
    rewrite IHv by lia. apply bind_ext. intros [v r3] Hv. apply Cv in Hv.
    destruct (next_is "," r3) as [r4|] eqn:Hcomma; [|reflexivity].
    apply next_is_length in Hcomma. rewrite IHm by lia. reflexivity.
Qed.

(** [JSON_parse] gives its parser all the fuel a text can use: more fuel
    gives the same result. *)
Theorem JSON_parse_fuel (text : string) (fuel : nat) :
  (2 * String.length text + 1 <= fuel)%nat ->
  parse_value fuel text = parse_value (2 * String.length text + 1) text.
Proof.
  induction 1 as [|fuel Hle IH]; [reflexivity|].
  rewrite <- IH. apply parse_fuel_step. exact Hle.
Qed.

(* ================================================================= *)
(** ** The record store *)

Section RecordStore.

Implicit Types (table : Table) (row : Row.t) (email : string).

Lemma email_taken_In email table :
  existsb (fun r => String.eqb (Row.email r) email) table = true <->
  In email (map Row.email table).
Proof.
  rewrite existsb_exists, in_map_iff. split.
  - intros (r & Hr & He). apply String.eqb_eq in He. now exists r.
  - intros (r & He & Hr). exists r. split; [assumption|]. now apply String.eqb_eq.
Qed.

Lemma count_email_absent email table :
  ~ In email (map Row.email table) -> count_email email table = 0%nat.
Proof.
  unfold count_email. induction table as [|r table IH]; simpl; [reflexivity|].
  intros Hno. destruct (String.eqb_spec (Row.email r) email) as [He|_].
  - exfalso. apply Hno. now left.
  - apply IH. intros Hin. apply Hno. now right.
Qed.

Lemma count_email_app email table table' :
  count_email email (table ++ table') =
  (count_email email table + count_email email table')%nat.
Proof. unfold count_email. now rewrite List.filter_app, length_app. Qed.

Lemma count_email_unique email table :
  unique_emails table -> In email (map Row.email table) ->
  count_email email table = 1%nat.
Proof.
  unfold unique_emails. induction table as [|r table IH]; simpl; [contradiction|].
  intros Hnd Hin. apply NoDup_cons in Hnd as [Hfresh Hnd'].
  rewrite list_elem_of_In in Hfresh.
  unfold count_email. simpl.
  destruct (String.eqb_spec (Row.email r) email) as [He|Hne].
  - simpl. f_equal. apply count_email_absent. now rewrite <- He.
  - apply IH; [assumption|]. destruct Hin as [He|Hin]; [contradiction|assumption].
Qed.

Lemma insert_or_ignore_taken table values :
  In (Row.email (values (next_rowid table))) (map Row.email table) ->
  insert_or_ignore table values = table.
Proof.
  intros Hin. unfold insert_or_ignore.
  apply email_taken_In in Hin. now rewrite Hin.
Qed.

Lemma insert_or_ignore_fresh table values :
  ~ In (Row.email (values (next_rowid table))) (map Row.email table) ->
  insert_or_ignore table values = table ++ [values (next_rowid table)].
Proof.
  intros Hno. unfold insert_or_ignore.
  destruct (existsb _ table) eqn:Hex; [|reflexivity].
  apply email_taken_In in Hex. contradiction.
Qed.

(** [INSERT OR IGNORE] keeps the emails of the table unique. *)
Lemma insert_or_ignore_unique table values :
  unique_emails table -> unique_emails (insert_or_ignore table values).
Proof.
  intros Hnd.
  destruct (in_dec string_dec (Row.email (values (next_rowid table)))
              (map Row.email table)) as [Hin|Hno].
  - now rewrite insert_or_ignore_taken.
  - rewrite insert_or_ignore_fresh by assumption.
    unfold unique_emails. rewrite map_app. simpl.
    apply NoDup_app; repeat split; try assumption.
    + intros x Hx Hx'. apply list_elem_of_In in Hx, Hx'. simpl in Hx'.
      destruct Hx' as [<-|[]]. contradiction.
    + apply NoDup_singleton.
Qed.

Lemma insertUser_eq table user :
  insertUser (Some table) user = Ok (Some (insert_or_ignore table (row_of user))).
Proof. reflexivity. Qed.

Lemma insertUser_not_initialized user :
  insertUser None user = Throw (Error "Database not initialized").
Proof. reflexivity. Qed.

Lemma user_of_row_active row u :
  user_of_row row = Ok u -> User.is_active u = (Row.is_active row =? 1).
Proof.
  unfold user_of_row. destruct (JSON_parse _); simpl; [|discriminate].
  intros [= <-]. reflexivity.
Qed.

Lemma map_rows_In rows users u :
  map_rows rows = Ok users -> In u users ->
  exists row, In row rows /\ user_of_row row = Ok u.
Proof.
  revert users. induction rows as [|r rows IH]; simpl; intros users.
  - intros [= <-] [].
  - destruct (user_of_row r) as [u0|] eqn:Hr; simpl; [|discriminate].
    destruct (map_rows rows) as [us|] eqn:Hrs; simpl; [|discriminate].
    intros [= <-] [->|Hin].
    + exists r. split; [now left|assumption].
    + destruct (IH us eq_refl Hin) as (row & Hrow & Hu).
      exists row. split; [now right|assumption].
Qed.

End RecordStore.

(** C7. A record that [getUserByEmail] returns, and every record of the
    sequence that [getAllUsers] returns, has [is_active = true] and is the
    image of a stored row whose [is_active] column is [1]: a row stored
    with another value is not surfaced by a read. *)
Theorem reads_surface_active_rows_only (database : Database) (email : string)
    (u : User.t) :
  getUserByEmail database email = Ok (Some u) \/
  (exists users, getAllUsers database = Ok users /\ In u users) ->
  User.is_active u = true /\
  exists table row,
    database = Some table /\ In row table /\
    Row.is_active row = 1 /\ user_of_row row = Ok u.
Proof.
  destruct database as [table|]; simpl.
  2:{ intros [H|(users & H & _)]; discriminate. }
  assert (Hrow : forall row, In row table -> Row.is_active row = 1 ->
                   user_of_row row = Ok u ->
                   User.is_active u = true /\
                   exists table' row', Some table = Some table' /\ In row' table' /\
                     Row.is_active row' = 1 /\ user_of_row row' = Ok u).
  { intros row Hin Hact Hu. split.
    - rewrite (user_of_row_active _ _ Hu), Hact. reflexivity.
    - now exists table, row. }
  intros [H|(users & H & Hin)].
  - unfold getUserByEmail in H. simpl in H.
    destruct (List.find _ table) as [row|] eqn:Hfind; [|discriminate].
    apply find_some in Hfind as [Hin Hsel].
    unfold select_by_email in Hsel. apply andb_true_iff in Hsel as [_ Hact].
    apply Z.eqb_eq in Hact.
    destruct (user_of_row row) as [u'|] eqn:Hu; simpl in H; [|discriminate].
    injection H as ->. now apply (Hrow row).
  - unfold getAllUsers in H. simpl in H.
    destruct (map_rows_In _ _ _ H Hin) as (row & Hrow_in & Hu).
    apply filter_In in Hrow_in as [Hrow_in Hact].
    apply Z.eqb_eq in Hact. now apply (Hrow row).
Qed.

Lemma reads_surface_active_rows_only_witness :
  User.is_active john_user = true /\
  exists table row,
    Some john_table = Some table /\ In row table /\
    Row.is_active row = 1 /\ user_of_row row = Ok john_user.
Proof.
  apply (reads_surface_active_rows_only (Some john_table)
           "john.athlete@sports.com" john_user).
  left. vm_compute. reflexivity.
Defined.

(** C8. In a table whose emails are unique, inserting a record and
    inserting it again leaves exactly one row with its email, the second
    insert changing nothing; and an insert whose email a row already
    carries, active or not, returns the table as it was. *)
Theorem insertUser_idempotent (table : Table) (user : NewUser.t) :
  unique_emails table ->
  exists table1,
    insertUser (Some table) user = Ok (Some table1) /\
    insertUser (Some table1) user = Ok (Some table1) /\
    count_email (NewUser.email user) table1 = 1%nat /\
    unique_emails table1 /\
    (In (NewUser.email user) (map Row.email table) -> table1 = table).
Proof.
  intros Hnd. exists (insert_or_ignore table (row_of user)).
  rewrite !insertUser_eq.
  assert (Hin1 : In (NewUser.email user)
                   (map Row.email (insert_or_ignore table (row_of user)))).
  { destruct (in_dec string_dec (NewUser.email user) (map Row.email table))
      as [Hin|Hno].
    - now rewrite insert_or_ignore_taken.
    - rewrite insert_or_ignore_fresh by assumption.
      rewrite map_app. apply in_or_app. right. now left. }
  repeat split.
  - now rewrite (insert_or_ignore_taken (insert_or_ignore _ _)).
  - apply count_email_unique; [now apply insert_or_ignore_unique|assumption].
  - now apply insert_or_ignore_unique.
  - intros Hin. now apply insert_or_ignore_taken.
Qed.

Lemma insertUser_idempotent_witness :
  exists table1,
    insertUser (Some john_table) john = Ok (Some table1) /\
    insertUser (Some table1) john = Ok (Some table1) /\
    count_email (NewUser.email john) table1 = 1%nat /\
    unique_emails table1 /\
    (In (NewUser.email john) (map Row.email john_table) -> table1 = john_table).
Proof.
  apply (insertUser_idempotent john_table john).
  vm_compute. apply NoDup_cons_2; [apply not_elem_of_nil|apply NoDup_nil_2].
Defined.

(** *** Seeding *)

(** A stored record reads back as it was written. *)
Lemma user_of_row_of (user : NewUser.t) (rowid : Z) :
  user_of_row (row_of user rowid) = Ok (stored_user rowid user).
Proof.
  unfold user_of_row, row_of. cbn [Row.allowed_areas].
  rewrite JSON_parse_stringify. cbn [mbind result_bind].
  unfold stored_user. cbn. now destruct (NewUser.is_active user).
Qed.

Lemma find_fresh (email : string) (table : Table) (row : Row.t) :
  ~ In email (map Row.email table) ->
  List.find (select_by_email email) (table ++ [row])
  = if select_by_email email row then Some row else None.
Proof.
  intros Hfresh. induction table as [|r table IH]; [reflexivity|].
  cbn [app List.find].
  assert (Hr : select_by_email email r = false).
  { unfold select_by_email. destruct (String.eqb_spec (Row.email r) email) as [He|];
      [|reflexivity].
    exfalso. apply Hfresh. now left. }
  rewrite Hr. apply IH. intros Hin. apply Hfresh. now right.
Qed.

(** A new record is found by its email exactly when it is active. *)
Lemma getUserByEmail_inserted (table : Table) (user : NewUser.t) :
  ~ In (NewUser.email user) (map Row.email table) ->
  (database' ← insertUser (Some table) user;
   getUserByEmail database' (NewUser.email user))
  = Ok (if NewUser.is_active user
        then Some (stored_user (next_rowid table) user)
        else None).
Proof.
  intros Hfresh. rewrite insertUser_eq. cbn [mbind result_bind].
  rewrite insert_or_ignore_fresh by assumption.
  unfold getUserByEmail. cbn [require_database mbind result_bind].
  rewrite find_fresh by assumption.
  unfold select_by_email. cbn [row_of Row.email Row.is_active].
  rewrite String.eqb_refl.
  destruct (NewUser.is_active user) eqn:Hactive; cbn [andb Z.eqb Pos.eqb].
  - change (Row.Build _ _ _ _ _ _ _) with (row_of user (next_rowid table)).
    unfold row_of. rewrite Hactive. fold (row_of user (next_rowid table)).
    pose proof (user_of_row_of user (next_rowid table)) as H.
    unfold row_of in H. rewrite Hactive in H. rewrite H. reflexivity.
  - reflexivity.
Qed.

(** An inactive record does not change what [getAllUsers] returns. *)
Lemma getAllUsers_skips_inactive (table : Table) (user : NewUser.t) (rowid : Z) :
  NewUser.is_active user = false ->
  getAllUsers (Some (table ++ [row_of user rowid])) = getAllUsers (Some table).
Proof.
  intros Hinactive. unfold getAllUsers. cbn [require_database mbind result_bind].
  rewrite List.filter_app. cbn [List.filter].
  unfold select_active at 2. cbn [row_of Row.is_active]. rewrite Hinactive.
  cbn [Z.eqb]. now rewrite app_nil_r.
Qed.

Lemma insertUsers_eq (table : Table) (users : list NewUser.t) :
  insertUsers (Some table) users
  = Ok (Some (fold_left (fun t u => insert_or_ignore t (row_of u)) users table)).
Proof.
  revert table. induction users as [|u users IH]; intros table; [reflexivity|].
  cbn [insertUsers fold_left]. rewrite insertUser_eq. cbn [mbind result_bind].
  apply IH.
Qed.

Lemma insert_or_ignore_emails (table : Table) (user : NewUser.t) (email : string) :
  In email (map Row.email table) ->
  In email (map Row.email (insert_or_ignore table (row_of user))).
Proof.
  intros Hin. unfold insert_or_ignore.
  destruct (existsb _ table); [assumption|].
  rewrite map_app. apply in_or_app. now left.
Qed.

Lemma insert_or_ignore_email (table : Table) (user : NewUser.t) :
  In (NewUser.email user) (map Row.email (insert_or_ignore table (row_of user))).
Proof.
  destruct (in_dec string_dec (NewUser.email user) (map Row.email table))
    as [Hin|Hno].
  - now rewrite insert_or_ignore_taken.
  - rewrite insert_or_ignore_fresh by assumption.
    rewrite map_app. apply in_or_app. right. now left.
Qed.

Lemma fold_insert_emails (users : list NewUser.t) (table : Table) (email : string) :
  In email (map Row.email table) ->
  In email (map Row.email
              (fold_left (fun t u => insert_or_ignore t (row_of u)) users table)).
Proof.
  revert table. induction users as [|u users IH]; intros table Hin; [assumption|].
  cbn [fold_left]. apply IH. now apply insert_or_ignore_emails.
Qed.

Lemma fold_insert_taken (users : list NewUser.t) (table : Table) :
  Forall (fun u => In (NewUser.email u) (map Row.email table)) users ->
  fold_left (fun t u => insert_or_ignore t (row_of u)) users table = table.
Proof.
  induction 1 as [|u users Hu Husers IH]; [reflexivity|].
  cbn [fold_left]. rewrite insert_or_ignore_taken by exact Hu. exact IH.
Qed.

Lemma fold_insert_all (users : list NewUser.t) (table : Table) :
  Forall (fun u => In (NewUser.email u)
                     (map Row.email
                        (fold_left (fun t u => insert_or_ignore t (row_of u))
                           users table))) users.
Proof.
  revert table. induction users as [|u users IH]; intros table; [constructor|].
  cbn [fold_left]. constructor; [|apply IH].
  apply fold_insert_emails, insert_or_ignore_email.
Qed.

(** Seeding a second time with the same records changes nothing. *)
Lemma insertUsers_again (table : Table) (users : list NewUser.t) :
  (database' ← insertUsers (Some table) users; insertUsers database' users)
  = insertUsers (Some table) users.
Proof.
  rewrite insertUsers_eq. cbn [mbind result_bind]. rewrite insertUsers_eq.
  now rewrite fold_insert_taken by apply fold_insert_all.
Qed.

(** The scenario of the specification: ten seeded records, all listed, and
    the first found by its email. *)
Example seeded_store :
  exists database,
    insertUsers (Some []) sampleUsers = Ok database /\
    option_map (@length _) database = Some 10%nat /\
    (users ← getAllUsers database; Ok (length users)) = Ok 10%nat /\
    getUserByEmail database "john.athlete@sports.com" = Ok (Some john_user) /\
    getUserByEmail database "nobody@sports.com" = Ok None.
Proof. eexists. repeat split; vm_compute; reflexivity. Qed.

(* ================================================================= *)
(** ** Seed obfuscation *)

Lemma b64_text_not_colon (c : ascii) : b64_text c = true -> not_colon c = true.
Proof.
  unfold b64_text, b64_value, not_colon, code.
  destruct c as [[] [] [] [] [] [] [] []]; vm_compute;
    intros H; first [reflexivity | discriminate H].
Qed.

Lemma btoa_no_colon (s : string) : string_forallb not_colon (btoa s) = true.
Proof.
  apply (string_forallb_impl b64_text); [apply b64_text_not_colon|apply btoa_text].
Qed.

(** What [encryptData] returns splits into the salt and the encoded text. *)
Lemma split_blob (salt bytes : string) :
  str_split "::" (btoa salt +:+ "::" +:+ btoa bytes) = [btoa salt; btoa bytes].
Proof.
  rewrite (str_split_first ":" ":" (btoa salt) (btoa bytes)).
  - f_equal. apply str_split_none.
    apply clear_before_colons, btoa_no_colon.
  - apply clear_before_colons, btoa_no_colon.
Qed.

Lemma marker_shape (salt : string) :
  exists k0 k', marker salt = String ":" (String ":" (String k0 k')) /\
                string_forallb is_hex (String k0 k') = true.
Proof.
  unfold marker.
  set (key := digestStringAsync _).
  destruct (substring0_cons 32 key) as (k0 & k' & Hk);
    [lia|apply digest_not_empty|].
  exists k0, k'. split; [now rewrite Hk|].
  rewrite <- Hk. apply string_forallb_substring, digest_is_hex.
Qed.

Lemma marker_valid_utf8 (salt : string) : valid_utf8 (marker salt) = true.
Proof.
  unfold marker. apply valid_utf8_ascii7.
  rewrite string_forallb_app. apply andb_true_iff. split; [reflexivity|].
  apply (string_forallb_impl is_hex).
  - intros c Hc. now apply is_hex_facts.
  - apply string_forallb_substring, digest_is_hex.
Qed.

Lemma split_at_marker (salt s : string) :
  includes (marker salt) s = false ->
  str_split (marker salt) (s +:+ marker salt) = [s; EmptyString].
Proof.
  intros Hs. destruct (marker_shape salt) as (k0 & k' & Hm & Hhex).
  rewrite Hm in *.
  pose proof (str_split_first ":" (String ":" (String k0 k')) s EmptyString) as H.
  rewrite append_nil_r in H. rewrite H; [reflexivity|].
  apply clear_before_marker; [|exact Hs].
  apply (string_forallb_impl is_hex); [|exact Hhex].
  intros c Hc. now apply is_hex_facts.
Qed.

Lemma encryptData_eq (salt s : string) :
  valid_utf8 s = true ->
  encryptData salt s = Ok (btoa salt +:+ "::" +:+ btoa (s +:+ marker salt)).
Proof.
  intros Hs. unfold encryptData, unescape_encodeURIComponent.
  fold (marker salt).
  rewrite valid_utf8_app; [reflexivity|exact Hs|apply marker_valid_utf8].
Qed.

(** C6, as the code has it.  For a salt and a well-formed text that does
    not contain the marker of that salt, [encryptData] returns a blob and
    [decryptData] returns the text from it. *)
Theorem decrypt_encrypt_without_marker (salt s : string) :
  valid_utf8 s = true ->
  includes (marker salt) s = false ->
  exists blob, encryptData salt s = Ok blob /\ decryptData blob = Ok s.
Proof.
  intros Hvalid Hclear. eexists. split; [now apply encryptData_eq|].
  unfold decryptData. rewrite split_blob. cbn [nth].
  rewrite atob_btoa. cbn [mbind result_bind].
  unfold decodeURIComponent_escape.
  rewrite valid_utf8_app; [|exact Hvalid|apply marker_valid_utf8].
  cbn [mbind result_bind]. fold (marker salt).
  now rewrite split_at_marker.
Qed.

Lemma decrypt_encrypt_without_marker_witness :
  exists blob, encryptData salt0 "hello" = Ok blob /\ decryptData blob = Ok "hello".
Proof.
  apply (decrypt_encrypt_without_marker salt0 "hello"); vm_compute; reflexivity.
Defined.

Lemma prefix_split (sep s : string) :
  String.prefix sep s = true -> exists b, s = sep +:+ b.
Proof.
  revert s. induction sep as [|c sep IH]; intros s H.
  - now exists s.
  - destruct s as [|c' s]; [discriminate H|].
    rewrite prefix_cons in H. apply andb_true_iff in H as [Hc H].
    apply Ascii.eqb_eq in Hc as <-. destruct (IH s H) as (b & ->).
    now exists b.
Qed.

Lemma prefix_app_long (sep u v : string) :
  String.prefix sep u = true -> String.prefix sep (u +:+ v) = true.
Proof.
  intros H. destruct (prefix_split sep u H) as (b & ->).
  rewrite append_assoc. apply prefix_app.
Qed.

Lemma prefix_app_false (sep u v : string) :
  (String.length sep <= String.length u)%nat ->
  String.prefix sep u = false -> String.prefix sep (u +:+ v) = false.
Proof.
  revert u. induction sep as [|c sep IH]; intros u Hlen H.
  - now rewrite prefix_nil in H.
  - destruct u as [|c' u]; [cbn in Hlen; lia|].
    cbn [String.append]. rewrite prefix_cons in H |- *.
    destruct (Ascii.eqb c c'); [|reflexivity].
    cbn [andb] in H |- *. apply IH; [cbn [String.length] in Hlen; lia|exact H].
Qed.

(** The first occurrence of a separator in a string that includes it. *)
Lemma first_occurrence (sep s more : string) :
  includes sep s = true ->
  exists a b, s = a +:+ sep +:+ b /\
              clear_before sep a (sep +:+ b +:+ more) = true.
Proof.
  induction s as [|c s IH].
  - cbn [includes]. rewrite orb_false_r. intros H.
    destruct (prefix_split sep EmptyString H) as (b & Hb).
    exists EmptyString, b. now split.
  - cbn [includes]. destruct (String.prefix sep (String c s)) eqn:Hp.
    + intros _. destruct (prefix_split sep _ Hp) as (b & Hb).
      exists EmptyString, b. now split.
    + cbn [orb]. intros H. destruct (IH H) as (a & b & -> & Hclear).
      exists (String c a), b. split; [reflexivity|].
      cbn [clear_before]. rewrite Hclear, andb_true_r.
      apply negb_true_iff.
      replace (String c a +:+ sep +:+ b +:+ more)
        with (String c (a +:+ sep +:+ b) +:+ more)
        by (cbn [String.append]; now rewrite !append_assoc).
      apply prefix_app_false; [|exact Hp].
      cbn [String.length]. rewrite !length_append. lia.
Qed.

(** A text that contains the marker comes back shorter: the condition of
    [decrypt_encrypt_without_marker] cannot be dropped. *)
Lemma decrypt_encrypt_with_marker (salt s : string) :
  valid_utf8 s = true ->
  includes (marker salt) s = true ->
  exists blob out,
    encryptData salt s = Ok blob /\ decryptData blob = Ok out /\
    (String.length out < String.length s)%nat.
Proof.
  intros Hvalid Hin.
  destruct (first_occurrence _ _ (marker salt) Hin) as (a & b & Hs & Hclear).
  exists (btoa salt +:+ "::" +:+ btoa (s +:+ marker salt)), a.
  split; [now apply encryptData_eq|]. split.
  - unfold decryptData. rewrite split_blob. cbn [nth].
    rewrite atob_btoa. cbn [mbind result_bind].
    unfold decodeURIComponent_escape.
    rewrite valid_utf8_app; [|exact Hvalid|apply marker_valid_utf8].
    cbn [mbind result_bind]. fold (marker salt).
    destruct (marker_shape salt) as (k0 & k' & Hm & _).
    rewrite Hs at 1. rewrite !append_assoc.
    rewrite Hm in Hclear |- *.
    rewrite (str_split_first ":" (String ":" (String k0 k')) a
               (b +:+ String ":" (String ":" (String k0 k')))) by exact Hclear.
    reflexivity.
  - rewrite Hs, !length_append.
    destruct (marker_shape salt) as (k0 & k' & -> & _).
    cbn [String.length]. lia.
Qed.

(** C6 fails as stated: with the sixteen bytes [salt0] for salt, the valid
    text [text0] holds the marker of that salt, and [decryptData] returns
    only what precedes it. *)
Lemma decrypt_encrypt_cuts_at_marker :
  valid_utf8 text0 = true /\
  String.length salt0 = 16%nat /\
  btoa salt0 = "MDEyMzQ1Njc4OWFiY2RlZg==" /\
  marker salt0 = "::c633f5f3cf42dedfb3ba1ce1dd857355" /\
  (blob ← encryptData salt0 text0; decryptData blob) = Ok "x" /\
  (blob ← encryptData salt0 text0; decryptData blob) <> Ok text0.
Proof.
  split; [reflexivity|]. split; [reflexivity|]. split; [reflexivity|].
  split; [vm_compute; reflexivity|].
  assert (H : (blob ← encryptData salt0 text0; decryptData blob) = Ok "x")
    by (vm_compute; reflexivity).
  split; [exact H|]. rewrite H. discriminate.
Qed.

(* ================================================================= *)
(** ** The signed QR payload *)

Section Verification.

Variables now1 now2 : Z.

Lemma append_inv_tail (s t u : string) : s +:+ u = t +:+ u -> s = t.
Proof.
  intros H.
  assert (Hl : list_ascii_of_string s ++ list_ascii_of_string u
               = list_ascii_of_string t ++ list_ascii_of_string u).
  { assert (Happ : forall a b, list_ascii_of_string (a +:+ b)
                     = list_ascii_of_string a ++ list_ascii_of_string b).
    { intros a b. induction a as [|c a IH]; [reflexivity|].
      cbn [String.append list_ascii_of_string]. now rewrite IH. }
    now rewrite <- !Happ, H. }
  apply app_inv_tail in Hl.
  rewrite <- (string_of_list_ascii_of_string s),
          <- (string_of_list_ascii_of_string t). now rewrite Hl.
Qed.

Lemma truthy_str (s : string) : truthy (Some (JStr s)) = true <-> s <> EmptyString.
Proof.
  cbn [truthy]. rewrite negb_true_iff. apply String.eqb_neq.
Qed.

Lemma truthy_num (n : Z) : truthy (Some (JNum n)) = true <-> n <> 0.
Proof. cbn [truthy]. rewrite negb_true_iff. apply Z.eqb_neq. Qed.

Lemma sign_truthy (data : string) : truthy (Some (JStr (sign data))) = true.
Proof. apply truthy_str, digest_not_empty. Qed.

(** What [verifyQRData] does once the envelope is parsed and its three
    properties are read. *)
Lemma verifyQRData_parsed (qrData : string) (parsed : json)
    (data signature timestamp : option json) :
  JSON_parse qrData = Ok parsed ->
  get_prop parsed "data" = Ok data ->
  get_prop parsed "signature" = Ok signature ->
  get_prop parsed "timestamp" = Ok timestamp ->
  verifyQRData now1 now2 qrData =
  try_catch
    (if negb (truthy data) || negb (truthy signature) || negb (truthy timestamp)
     then Ok (Invalid "Invalid QR format")
     else
       issued ← ToNumber timestamp;
       if js_gt (js_sub (Some now1) issued) (Some day_ms)
       then Ok (Invalid "QR code expired")
       else
         signed ← ToString_opt data;
         if strict_ne_string signature (sign signed)
         then Ok (Invalid "QR code tampered")
         else
           text ← ToString_opt data;
           payload ← JSON_parse text;
           expires_at ← get_prop payload "expires_at";
           if truthy expires_at
           then
             expiry ← ToNumber expires_at;
             if js_gt (Some now2) expiry
             then Ok (Invalid "QR code expired")
             else Ok (Valid payload)
           else Ok (Valid payload))
    (fun _ => Invalid "Invalid QR data").
Proof.
  intros Hparse Hd Hs Ht. unfold verifyQRData.
  rewrite Hparse. cbn [mbind result_bind]. rewrite Hd, Hs, Ht. reflexivity.
Qed.

(** The envelope passed the format check and the age check; its data is a
    string. *)
Lemma verifyQRData_fresh (qrData : string) (parsed : json)
    (data : string) (signature : option json) (timestamp : Z) :
  JSON_parse qrData = Ok parsed ->
  get_prop parsed "data" = Ok (Some (JStr data)) ->
  get_prop parsed "signature" = Ok signature ->
  get_prop parsed "timestamp" = Ok (Some (JNum timestamp)) ->
  data <> EmptyString -> truthy signature = true -> timestamp <> 0 ->
  now1 - timestamp <= day_ms ->
  verifyQRData now1 now2 qrData =
  try_catch
    (if strict_ne_string signature (sign data)
     then Ok (Invalid "QR code tampered")
     else
       payload ← JSON_parse data;
       expires_at ← get_prop payload "expires_at";
       if truthy expires_at
       then
         expiry ← ToNumber expires_at;
         if js_gt (Some now2) expiry
         then Ok (Invalid "QR code expired")
         else Ok (Valid payload)
       else Ok (Valid payload))
    (fun _ => Invalid "Invalid QR data").
Proof.
  intros Hparse Hd Hs Ht Hdata Hsig Hts Hage.
  rewrite (verifyQRData_parsed _ _ _ _ _ Hparse Hd Hs Ht).
  apply truthy_str in Hdata. apply truthy_num in Hts.
  rewrite Hdata, Hsig, Hts. cbn [negb orb].
  cbn [ToNumber mbind result_bind js_sub js_gt ToString_opt ToString].
  replace (day_ms <? now1 - timestamp) with false
    by (symmetry; apply Z.ltb_ge; exact Hage).
  reflexivity.
Qed.

(** C3, as the code has it.  An envelope that parses and whose [data],
    [signature] and [timestamp] pass the format check, the timestamp
    being a number other than [0] more than 24 hours before the current
    time, is rejected as expired, whatever its signature. *)
Theorem verifyQRData_hard_window (qrData : string) (parsed : json)
    (data signature : option json) (timestamp : Z) :
  JSON_parse qrData = Ok parsed ->
  get_prop parsed "data" = Ok data ->
  get_prop parsed "signature" = Ok signature ->
  get_prop parsed "timestamp" = Ok (Some (JNum timestamp)) ->
  truthy data = true -> truthy signature = true -> timestamp <> 0 ->
  now1 - timestamp > day_ms ->
  verifyQRData now1 now2 qrData = Invalid "QR code expired".
Proof.
  intros Hparse Hd Hs Ht Hdata Hsig Hts Hage.
  rewrite (verifyQRData_parsed _ _ _ _ _ Hparse Hd Hs Ht).
  apply truthy_num in Hts. rewrite Hdata, Hsig, Hts. cbn [negb orb].
  cbn [ToNumber mbind result_bind js_sub js_gt].
  replace (day_ms <? now1 - timestamp) with true
    by (symmetry; apply Z.ltb_lt; lia).
  reflexivity.
Qed.

(** C2. In an envelope that passes the format check and the age check and
    whose signature is the digest of a text [signed] with the secret, a
    [data] other than [signed] is rejected as tampered, when the digest
    separates the two texts. *)
Theorem verifyQRData_tampered (qrData : string) (parsed : json)
    (data signed : string) (timestamp : Z) :
  JSON_parse qrData = Ok parsed ->
  get_prop parsed "data" = Ok (Some (JStr data)) ->
  get_prop parsed "signature" = Ok (Some (JStr (sign signed))) ->
  get_prop parsed "timestamp" = Ok (Some (JNum timestamp)) ->
  data <> EmptyString -> timestamp <> 0 ->
  now1 - timestamp <= day_ms ->
  data <> signed ->
  (sign data = sign signed -> data +:+ secret = signed +:+ secret) ->
  verifyQRData now1 now2 qrData = Invalid "QR code tampered".
Proof.
  intros Hparse Hd Hs Ht Hdata Hts Hage Hdiff Hinj.
  rewrite (verifyQRData_fresh _ _ _ _ _ Hparse Hd Hs Ht Hdata
             (sign_truthy signed) Hts Hage).
  cbn [strict_ne_string].
  destruct (String.eqb_spec (sign signed) (sign data)) as [Heq|Hne];
    [|reflexivity].
  exfalso. apply Hdiff. symmetry in Heq.
  exact (append_inv_tail _ _ _ (Hinj Heq)).
Qed.

(** A payload without a truthy [expires_at] passes the expiry check. *)
Lemma verifyQRData_falsy_expiry (qrData : string) (parsed : json)
    (data : string) (timestamp : Z) (payload : json) (expires_at : option json) :
  JSON_parse qrData = Ok parsed ->
  get_prop parsed "data" = Ok (Some (JStr data)) ->
  get_prop parsed "signature" = Ok (Some (JStr (sign data))) ->
  get_prop parsed "timestamp" = Ok (Some (JNum timestamp)) ->
  timestamp <> 0 ->
  now1 - timestamp <= day_ms ->
  JSON_parse data = Ok payload ->
  get_prop payload "expires_at" = Ok expires_at ->
  truthy expires_at = false ->
  verifyQRData now1 now2 qrData = Valid payload.
Proof.
  intros Hparse Hd Hs Ht Hts Hage Hpayload Hexp Hfalsy.
  assert (Hdata : data <> EmptyString).
  { intros ->. discriminate Hpayload. }
  rewrite (verifyQRData_fresh _ _ _ _ _ Hparse Hd Hs Ht Hdata
             (sign_truthy data) Hts Hage).
  cbn [strict_ne_string]. rewrite String.eqb_refl. cbn [negb].
  rewrite Hpayload. cbn [mbind result_bind]. rewrite Hexp.
  cbn [mbind result_bind]. rewrite Hfalsy. reflexivity.
Qed.

(** C9, as the code has it.  A correctly signed envelope that passes the
    format check, its timestamp being a number other than [0], within the
    24 hours, whose payload is a value other than [null] that has no
    [expires_at], or a falsy one such as [0], is valid: the expiry check
    of the payload is skipped, whatever the second reading of the
    clock. *)
Theorem verifyQRData_without_expiry (qrData : string) (parsed : json)
    (data : string) (timestamp : Z) (payload : json) (expires_at : option json) :
  JSON_parse qrData = Ok parsed ->
  get_prop parsed "data" = Ok (Some (JStr data)) ->
  get_prop parsed "signature" = Ok (Some (JStr (sign data))) ->
  get_prop parsed "timestamp" = Ok (Some (JNum timestamp)) ->
  timestamp <> 0 ->
  now1 - timestamp <= day_ms ->
  JSON_parse data = Ok payload ->
  get_prop payload "expires_at" = Ok expires_at ->
  truthy expires_at = false ->
  verifyQRData now1 now2 qrData = Valid payload.
Proof. exact (verifyQRData_falsy_expiry qrData parsed data timestamp payload expires_at). Qed.

(** The payload-level expiry of a correctly signed envelope within the 24
    hours. *)
Lemma verifyQRData_soft_window (qrData : string) (parsed : json)
    (data : string) (timestamp : Z) (payload : json) (expires_at : Z) :
  JSON_parse qrData = Ok parsed ->
  get_prop parsed "data" = Ok (Some (JStr data)) ->
  get_prop parsed "signature" = Ok (Some (JStr (sign data))) ->
  get_prop parsed "timestamp" = Ok (Some (JNum timestamp)) ->
  timestamp <> 0 ->
  now1 - timestamp <= day_ms ->
  JSON_parse data = Ok payload ->
  get_prop payload "expires_at" = Ok (Some (JNum expires_at)) ->
  expires_at <> 0 ->
  verifyQRData now1 now2 qrData =
  if expires_at <? now2 then Invalid "QR code expired" else Valid payload.
Proof.
  intros Hparse Hd Hs Ht Hts Hage Hpayload Hexp Hnz.
  assert (Hdata : data <> EmptyString).
  { intros ->. discriminate Hpayload. }
  rewrite (verifyQRData_fresh _ _ _ _ _ Hparse Hd Hs Ht Hdata
             (sign_truthy data) Hts Hage).
  cbn [strict_ne_string]. rewrite String.eqb_refl. cbn [negb].
  rewrite Hpayload. cbn [mbind result_bind]. rewrite Hexp.
  cbn [mbind result_bind]. apply truthy_num in Hnz. rewrite Hnz.
  cbn [ToNumber mbind result_bind js_gt].
  now destruct (expires_at <? now2).
Qed.

End Verification.

Lemma try_catch_tagged (body : result VerifyResult) :
  (forall r, body = Ok r -> tagged r) ->
  tagged (try_catch body (fun _ => Invalid "Invalid QR data")).
Proof.
  intros H. destruct body as [r|e]; cbn [try_catch]; [now apply H|].
  right. exists "Invalid QR data". split; [|reflexivity].
  cbn. tauto.
Qed.

Lemma tagged_Invalid (s : string) : In s reasons -> tagged (Invalid s).
Proof. intros H. right. now exists s. Qed.

Lemma tagged_Valid (p : json) : tagged (Valid p).
Proof. left. now exists p. Qed.

(** [verifyQRData] returns a tagged outcome on every input. *)
Lemma verifyQRData_tagged (now1 now2 : Z) (qrData : string) :
  tagged (verifyQRData now1 now2 qrData).
Proof.
  unfold verifyQRData. apply try_catch_tagged. intros r.
  repeat match goal with
         | |- mbind _ ?m = Ok _ -> _ =>
             destruct m; cbn [mbind result_bind]; [|discriminate]
         | |- (if ?b then _ else _) = Ok _ -> _ => destruct b
         | |- Ok _ = Ok _ -> _ => intros [= <-]
         end;
    first [ apply tagged_Valid | apply tagged_Invalid; cbn; tauto ].
Qed.

(** *** On any engine *)

Lemma try_catch_tagged_on {value : Type} (body : result (Answer value)) :
  (forall r, body = Ok r -> tagged_on r) ->
  tagged_on (try_catch body (fun _ => InvalidOn "Invalid QR data")).
Proof.
  intros H. destruct body as [r|e]; cbn [try_catch]; [now apply H|].
  right. exists "Invalid QR data". split; [|reflexivity].
  cbn. tauto.
Qed.

Lemma tagged_on_Invalid {value : Type} (s : string) :
  In s reasons -> tagged_on (@InvalidOn value s).
Proof. intros H. right. now exists s. Qed.

Lemma tagged_on_Valid {value : Type} (p : value) : tagged_on (ValidOn p).
Proof. left. now exists p. Qed.

(** Whatever the engine answers, the outcome is tagged. *)
Lemma verifyQRData_on_tagged (E : Engine.t) (now1 now2 : Z) (qrData : string) :
  tagged_on (verifyQRData_on E now1 now2 qrData).
Proof.
  unfold verifyQRData_on. apply try_catch_tagged_on. intros r.
  repeat match goal with
         | |- mbind _ ?m = Ok _ -> _ =>
             destruct m; cbn [mbind result_bind]; [|discriminate]
         | |- (if ?b then _ else _) = Ok _ -> _ => destruct b
         | |- Ok _ = Ok _ -> _ => intros [= <-]
         end;
    first [ apply tagged_on_Valid | apply tagged_on_Invalid; cbn; tauto ].
Qed.

(** The embedding of [verifyQRData] is [verifyQRData_on] at the engine of
    the embedding. *)
Lemma verifyQRData_on_integer_engine (now1 now2 : Z) (qrData : string) :
  verifyQRData now1 now2 qrData
  = VerifyResult_of (verifyQRData_on integer_engine now1 now2 qrData).
Proof.
  unfold verifyQRData, verifyQRData_on.
  cbn [Engine.JSON_parse Engine.get Engine.ToBoolean Engine.minus
       Engine.number_gt Engine.plus Engine.digest Engine.strict_ne
       Engine.ToString Engine.gt integer_engine].
  destruct (JSON_parse qrData) as [parsed|e]; [|reflexivity].
  cbn [mbind result_bind].
  assert (Hget : parsed = JNull \/
                 forall k, exists v, get_prop parsed k = Ok v).
  { destruct parsed; [left; reflexivity|right; intros k; eexists; reflexivity..]. }
  destruct Hget as [->|Hget]; [reflexivity|].
  destruct (Hget "data") as [data ->].
  destruct (Hget "signature") as [signature ->].
  destruct (Hget "timestamp") as [timestamp ->].
  cbn [mbind result_bind].
  destruct (truthy data); cbn [negb orb]; [|reflexivity].
  destruct (truthy signature); cbn [negb orb]; [|reflexivity].
  destruct (truthy timestamp); cbn [negb orb]; [|reflexivity].
  destruct (ToNumber timestamp) as [issued|e]; [|reflexivity].
  cbn [mbind result_bind].
  destruct (js_gt (js_sub (Some now1) issued) (Some (24 * 60 * 60 * 1000)));
    [reflexivity|].
  destruct (ToString_opt data) as [text|e]; [|reflexivity].
  cbn [mbind result_bind].
  destruct (strict_ne_string signature (digestStringAsync (text +:+ secret)));
    [reflexivity|].
  destruct (JSON_parse text) as [payload|e]; [|reflexivity].
  cbn [mbind result_bind].
  destruct (get_prop payload "expires_at") as [expires_at|e]; [|reflexivity].
  cbn [mbind result_bind].
  destruct (truthy expires_at); [|reflexivity].
  destruct (ToNumber expires_at) as [expiry|e]; [|reflexivity].
  cbn [mbind result_bind].
  destruct (js_gt (Some now2) expiry); reflexivity.
Qed.

(** *** Issuing *)

Lemma generate_parse (device : Device.t) (t : Z) (user : User.t) :
  JSON_parse (generateSecureQRData device t user)
  = Ok (envelope (JSON_stringify (qrPayload device t user))
          (sign (JSON_stringify (qrPayload device t user))) t).
Proof. apply JSON_parse_stringify. Qed.

Lemma qrPayload_timestamp (device : Device.t) (t : Z) (user : User.t) :
  get_prop (qrPayload device t user) "timestamp" = Ok (Some (JNum t)).
Proof. reflexivity. Qed.

Lemma qrPayload_expires_at (device : Device.t) (t : Z) (user : User.t) :
  get_prop (qrPayload device t user) "expires_at" = Ok (Some (JNum (t + hour_ms))).
Proof. reflexivity. Qed.

(** A token is valid from its issue, as long as the first reading of the
    clock is within 24 hours of it and the second within the hour. *)
Lemma verify_generate (device : Device.t) (user : User.t) (t now1 now2 : Z) :
  t <> 0 -> now1 - t <= day_ms -> now2 <= t + hour_ms ->
  verifyQRData now1 now2 (generateSecureQRData device t user)
  = Valid (qrPayload device t user).
Proof.
  intros Ht Hage Hsoft.
  set (text := JSON_stringify (qrPayload device t user)).
  destruct (Z.eq_dec (t + hour_ms) 0) as [Hz|Hnz].
  - apply (verifyQRData_falsy_expiry now1 now2
             (generateSecureQRData device t user)
             (envelope text (sign text) t) text t
             (qrPayload device t user) (Some (JNum 0)));
      try reflexivity; try assumption.
    + apply generate_parse.
    + apply JSON_parse_stringify.
    + rewrite qrPayload_expires_at, Hz. reflexivity.
  - rewrite (verifyQRData_soft_window now1 now2
               (generateSecureQRData device t user)
               (envelope text (sign text) t) text t
               (qrPayload device t user) (t + hour_ms));
      try reflexivity; try assumption.
    + replace (t + hour_ms <? now2) with false
        by (symmetry; apply Z.ltb_ge; lia).
      reflexivity.
    + apply generate_parse.
    + apply JSON_parse_stringify.
Qed.

(** C1, as the code has it.  At a reading [t] of the clock other than
    [0], the token issued for a user at [t] verifies at [t] as valid, and
    the payload returned is the payload that was signed. *)
Theorem verify_generate_same_clock (device : Device.t) (user : User.t) (t : Z) :
  t <> 0 ->
  verifyQRData t t (generateSecureQRData device t user)
  = Valid (qrPayload device t user).
Proof.
  intros Ht. apply verify_generate; [assumption|unfold day_ms|unfold hour_ms]; lia.
Qed.

Lemma verify_generate_same_clock_witness :
  verifyQRData 1700000000000 1700000000000
    (generateSecureQRData device0 1700000000000 john_user)
  = Valid (qrPayload device0 1700000000000 john_user).
Proof.
  apply (verify_generate_same_clock device0 john_user 1700000000000). lia.
Defined.

(** C1 fails as stated: a token issued when the clock reads [0] carries
    the timestamp [0], which the format check takes for a missing one. *)
Lemma verify_generate_at_epoch :
  verifyQRData 0 0 (generateSecureQRData device0 0 john_user)
  = Invalid "Invalid QR format" /\
  verifyQRData 0 0 (generateSecureQRData device0 0 john_user)
  <> Valid (qrPayload device0 0 john_user).
Proof.
  assert (H : verifyQRData 0 0 (generateSecureQRData device0 0 john_user)
              = Invalid "Invalid QR format") by (vm_compute; reflexivity).
  split; [exact H|]. rewrite H. discriminate.
Qed.

(** C4, as the code has it.  The payload of a token issued at [t] has
    [timestamp = t] and [expires_at = t + 3600000]; and a correctly signed
    envelope stamped with a number other than [0], within the 24 hours,
    whose payload has a number other than [0] for [expires_at], earlier
    than the current time, is rejected as expired. *)
Theorem expiry_after_one_hour (device : Device.t) (user : User.t) (t : Z)
    (now1 now2 : Z) (qrData : string) (parsed : json)
    (data : string) (timestamp : Z) (payload : json) (expires_at : Z) :
  JSON_parse qrData = Ok parsed ->
  get_prop parsed "data" = Ok (Some (JStr data)) ->
  get_prop parsed "signature" = Ok (Some (JStr (sign data))) ->
  get_prop parsed "timestamp" = Ok (Some (JNum timestamp)) ->
  timestamp <> 0 ->
  now1 - timestamp <= day_ms ->
  JSON_parse data = Ok payload ->
  get_prop payload "expires_at" = Ok (Some (JNum expires_at)) ->
  expires_at <> 0 ->
  expires_at < now2 ->
  (exists env issued,
     JSON_parse (generateSecureQRData device t user) = Ok env /\
     get_prop env "data" = Ok (Some (JStr issued)) /\
     JSON_parse issued = Ok (qrPayload device t user) /\
     get_prop (qrPayload device t user) "timestamp" = Ok (Some (JNum t)) /\
     get_prop (qrPayload device t user) "expires_at"
       = Ok (Some (JNum (t + 3600000)))) /\
  verifyQRData now1 now2 qrData = Invalid "QR code expired".
Proof.
  intros Hparse Hd Hs Ht Hts Hage Hpayload Hexp Hnz Hold. split.
  - exists (envelope (JSON_stringify (qrPayload device t user))
              (sign (JSON_stringify (qrPayload device t user))) t),
           (JSON_stringify (qrPayload device t user)).
    repeat split. 
    + apply generate_parse.
    + apply JSON_parse_stringify.
  - rewrite (verifyQRData_soft_window now1 now2 _ _ _ _ _ _
               Hparse Hd Hs Ht Hts Hage Hpayload Hexp Hnz).
    replace (expires_at <? now2) with true by (symmetry; apply Z.ltb_lt; lia).
    reflexivity.
Qed.

Lemma expiry_after_one_hour_witness :
  (exists env issued,
     JSON_parse (generateSecureQRData device0 1000 john_user) = Ok env /\
     get_prop env "data" = Ok (Some (JStr issued)) /\
     JSON_parse issued = Ok (qrPayload device0 1000 john_user) /\
     get_prop (qrPayload device0 1000 john_user) "timestamp"
       = Ok (Some (JNum 1000)) /\
     get_prop (qrPayload device0 1000 john_user) "expires_at"
       = Ok (Some (JNum (1000 + 3600000)))) /\
  verifyQRData 2000 2000 token_old = Invalid "QR code expired".
Proof.
  apply (expiry_after_one_hour device0 john_user 1000 2000 2000 token_old
           (envelope (JSON_stringify payload_old)
              (sign (JSON_stringify payload_old)) 1000)
           (JSON_stringify payload_old) 1000 payload_old 1500).
  - vm_compute. reflexivity.
  - reflexivity.
  - reflexivity.
  - reflexivity.
  - lia.
  - vm_compute. discriminate.
  - vm_compute. reflexivity.
  - reflexivity.
  - lia.
  - lia.
Defined.

(** C4 fails as stated: [expires_at = 0] is earlier than the current time
    [2000], and the correctly signed token [token_zero], 1000 ms old, is
    valid.  And the correctly signed token [token_old_epoch], whose
    payload expired at [1500], is stamped [0], at most 24 hours behind
    the clock [2000]: it is rejected for its format, not as expired. *)
Lemma soft_window_skips_zero :
  JSON_parse token_zero
  = Ok (envelope (JSON_stringify payload_zero)
          (sign (JSON_stringify payload_zero)) 1000) /\
  get_prop payload_zero "expires_at" = Ok (Some (JNum 0)) /\
  0 < 2000 /\ 2000 - 1000 <= day_ms /\
  verifyQRData 2000 2000 token_zero = Valid payload_zero /\
  verifyQRData 2000 2000 token_zero <> Invalid "QR code expired" /\
  JSON_parse token_old_epoch
  = Ok (envelope (JSON_stringify payload_old)
          (sign (JSON_stringify payload_old)) 0) /\
  JSON_parse (JSON_stringify payload_old) = Ok payload_old /\
  get_prop payload_old "expires_at" = Ok (Some (JNum 1500)) /\
  1500 < 2000 /\ 2000 - 0 <= day_ms /\
  verifyQRData 2000 2000 token_old_epoch = Invalid "Invalid QR format" /\
  verifyQRData 2000 2000 token_old_epoch <> Invalid "QR code expired".
Proof.
  assert (H : verifyQRData 2000 2000 token_zero = Valid payload_zero)
    by (vm_compute; reflexivity).
  assert (H1 : verifyQRData 2000 2000 token_old_epoch
               = Invalid "Invalid QR format") by (vm_compute; reflexivity).
  split; [vm_compute; reflexivity|]. split; [reflexivity|].
  split; [lia|]. split; [vm_compute; discriminate|].
  split; [exact H|]. split; [rewrite H; discriminate|].
  split; [vm_compute; reflexivity|]. split; [vm_compute; reflexivity|].
  split; [reflexivity|]. split; [lia|]. split; [vm_compute; discriminate|].
  split; [exact H1|]. rewrite H1. discriminate.
Qed.

(** *** Witnesses of the verification theorems *)

Lemma verifyQRData_hard_window_witness :
  verifyQRData 86401001 86401001 token_open = Invalid "QR code expired".
Proof.
  apply (verifyQRData_hard_window 86401001 86401001 token_open
           (envelope (JSON_stringify payload_open)
              (sign (JSON_stringify payload_open)) 1000)
           (Some (JStr (JSON_stringify payload_open)))
           (Some (JStr (sign (JSON_stringify payload_open)))) 1000).
  - vm_compute. reflexivity.
  - reflexivity.
  - reflexivity.
  - reflexivity.
  - vm_compute. reflexivity.
  - vm_compute. reflexivity.
  - lia.
  - vm_compute. reflexivity.
Defined.

Lemma verifyQRData_tampered_witness :
  verifyQRData 2000 2000 token_tampered = Invalid "QR code tampered".
Proof.
  apply (verifyQRData_tampered 2000 2000 token_tampered
           (envelope "{}" (sign "[]") 1000) "{}" "[]" 1000).
  - vm_compute. reflexivity.
  - reflexivity.
  - reflexivity.
  - reflexivity.
  - discriminate.
  - lia.
  - vm_compute. discriminate.
  - discriminate.
  - intros H. vm_compute in H. discriminate H.
Defined.

Lemma verifyQRData_without_expiry_witness :
  verifyQRData 2000 1000000000000 token_open = Valid payload_open.
Proof.
  apply (verifyQRData_without_expiry 2000 1000000000000 token_open
           (envelope (JSON_stringify payload_open)
              (sign (JSON_stringify payload_open)) 1000)
           (JSON_stringify payload_open) 1000 payload_open None).
  - vm_compute. reflexivity.
  - reflexivity.
  - reflexivity.
  - reflexivity.
  - lia.
  - vm_compute. discriminate.
  - vm_compute. reflexivity.
  - reflexivity.
  - reflexivity.
Defined.

(** C3 fails as stated.  The envelope [token_epoch] has the three fields,
    and its timestamp [0] is more than 24 hours behind the clock
    [1700000000000]; it is rejected for its format, not as expired.  So
    is [token_no_data], stamped [1000], whose [data] is the empty
    string. *)
Lemma hard_window_after_format_check :
  JSON_parse token_epoch = Ok (envelope "x" "y" 0) /\
  get_prop (envelope "x" "y" 0) "data" = Ok (Some (JStr "x")) /\
  get_prop (envelope "x" "y" 0) "signature" = Ok (Some (JStr "y")) /\
  get_prop (envelope "x" "y" 0) "timestamp" = Ok (Some (JNum 0)) /\
  1700000000000 - 0 > day_ms /\
  verifyQRData 1700000000000 1700000000000 token_epoch
  = Invalid "Invalid QR format" /\
  verifyQRData 1700000000000 1700000000000 token_epoch
  <> Invalid "QR code expired" /\
  JSON_parse token_no_data = Ok (envelope EmptyString "y" 1000) /\
  get_prop (envelope EmptyString "y" 1000) "data" = Ok (Some (JStr EmptyString)) /\
  1700000000000 - 1000 > day_ms /\
  verifyQRData 1700000000000 1700000000000 token_no_data
  = Invalid "Invalid QR format" /\
  verifyQRData 1700000000000 1700000000000 token_no_data
  <> Invalid "QR code expired".
Proof.
  assert (H0 : verifyQRData 1700000000000 1700000000000 token_epoch
               = Invalid "Invalid QR format") by (vm_compute; reflexivity).
  assert (H1 : verifyQRData 1700000000000 1700000000000 token_no_data
               = Invalid "Invalid QR format") by (vm_compute; reflexivity).
  split; [vm_compute; reflexivity|]. split; [reflexivity|].
  split; [reflexivity|]. split; [reflexivity|].
  split; [vm_compute; reflexivity|]. split; [exact H0|].
  split; [rewrite H0; discriminate|].
  split; [vm_compute; reflexivity|]. split; [reflexivity|].
  split; [vm_compute; reflexivity|]. split; [exact H1|].
  rewrite H1. discriminate.
Qed.

(** C9 fails as stated.  The envelope [token_null] is correctly signed
    and 1000 ms old, and its payload, the value [null], has no
    [expires_at]: reading the property throws, and the answer is
    [Invalid QR data].  The envelope [token_open_epoch] is correctly
    signed around a payload without [expires_at] and is stamped [0], at
    most 24 hours behind the clock [1000]: it is rejected for its
    format. *)
Lemma null_payload_is_not_valid :
  JSON_parse token_null = Ok (envelope "null" (sign "null") 1000) /\
  JSON_parse "null" = Ok JNull /\
  2000 - 1000 <= day_ms /\
  verifyQRData 2000 2000 token_null = Invalid "Invalid QR data" /\
  (forall p, verifyQRData 2000 2000 token_null <> Valid p) /\
  JSON_parse token_open_epoch
  = Ok (envelope (JSON_stringify payload_open)
          (sign (JSON_stringify payload_open)) 0) /\
  JSON_parse (JSON_stringify payload_open) = Ok payload_open /\
  get_prop payload_open "expires_at" = Ok None /\
  1000 - 0 <= day_ms /\
  verifyQRData 1000 1000 token_open_epoch = Invalid "Invalid QR format" /\
  (forall p, verifyQRData 1000 1000 token_open_epoch <> Valid p).
Proof.
  assert (H0 : verifyQRData 2000 2000 token_null = Invalid "Invalid QR data")
    by (vm_compute; reflexivity).
  assert (H1 : verifyQRData 1000 1000 token_open_epoch
               = Invalid "Invalid QR format") by (vm_compute; reflexivity).
  split; [vm_compute; reflexivity|]. split; [vm_compute; reflexivity|].
  split; [vm_compute; discriminate|]. split; [exact H0|].
  split; [intros p; rewrite H0; discriminate|].
  split; [vm_compute; reflexivity|]. split; [vm_compute; reflexivity|].
  split; [reflexivity|]. split; [vm_compute; discriminate|].
  split; [exact H1|]. intros p. rewrite H1. discriminate.
Qed.

(** C5. On every input, and whatever the engine reads from a text and
    however it converts, [verifyQRData] returns a tagged outcome: valid
    with a payload, or invalid with one of the four reasons.  When
    [JSON.parse] throws on the input the reason is [Invalid QR data], and
    so it is when the envelope passes the format, age and signature
    checks and [JSON.parse] throws on its [data]. *)
Theorem verifyQRData_never_throws (E : Engine.t) (now1 now2 : Z)
    (qrData : string) :
  ((exists p, verifyQRData_on E now1 now2 qrData = ValidOn p) \/
   (exists s, In s reasons /\
      verifyQRData_on E now1 now2 qrData = InvalidOn s)) /\
  (forall e, Engine.JSON_parse E qrData = Throw e ->
     verifyQRData_on E now1 now2 qrData = InvalidOn "Invalid QR data") /\
  (forall parsed data signature timestamp age signed expectedSignature text e,
     Engine.JSON_parse E qrData = Ok parsed ->
     Engine.get E parsed "data" = Ok data ->
     Engine.get E parsed "signature" = Ok signature ->
     Engine.get E parsed "timestamp" = Ok timestamp ->
     Engine.ToBoolean E data = true ->
     Engine.ToBoolean E signature = true ->
     Engine.ToBoolean E timestamp = true ->
     Engine.minus E now1 timestamp = Ok age ->
     Engine.number_gt E age (24 * 60 * 60 * 1000) = false ->
     Engine.plus E data secret = Ok signed ->
     Engine.digest E signed = Ok expectedSignature ->
     Engine.strict_ne E signature expectedSignature = false ->
     Engine.ToString E data = Ok text ->
     Engine.JSON_parse E text = Throw e ->
     verifyQRData_on E now1 now2 qrData = InvalidOn "Invalid QR data").
Proof.
  split; [apply verifyQRData_on_tagged|]. split.
  - intros e He. unfold verifyQRData_on. rewrite He. reflexivity.
  - intros parsed data signature timestamp age signed expectedSignature text e
      Hparse Hd Hs Ht Hdata Hsig Hts Hage Hfresh Hplus Hdigest Hsigned Htext He.
    unfold verifyQRData_on. rewrite Hparse. cbn [mbind result_bind].
    rewrite Hd. cbn [mbind result_bind]. rewrite Hdata. cbn [negb].
    rewrite Hs. cbn [mbind result_bind]. rewrite Hsig. cbn [negb].
    rewrite Ht. cbn [mbind result_bind]. rewrite Hts. cbn [negb].
    rewrite Hage. cbn [mbind result_bind]. rewrite Hfresh.
    rewrite Hplus. cbn [mbind result_bind].
    rewrite Hdigest. cbn [mbind result_bind]. rewrite Hsigned.
    rewrite Htext. cbn [mbind result_bind]. rewrite He. reflexivity.
Qed.

Lemma verifyQRData_never_throws_witness :
  verifyQRData_on integer_engine 2000 2000 "{" = InvalidOn "Invalid QR data" /\
  verifyQRData_on integer_engine 2000 2000 token_garbled
  = InvalidOn "Invalid QR data".
Proof.
  split.
  - apply (proj1 (proj2 (verifyQRData_never_throws integer_engine 2000 2000 "{"))
             SyntaxError).
    vm_compute. reflexivity.
  - apply (proj2 (proj2 (verifyQRData_never_throws integer_engine 2000 2000
                           token_garbled))
             (envelope "{" (sign "{") 1000)
             (Some (JStr "{")) (Some (JStr (sign "{"))) (Some (JNum 1000))
             (Some 1000) ("{" +:+ secret) (sign "{") "{" SyntaxError).
    + vm_compute. reflexivity.
    + reflexivity.
    + reflexivity.
    + reflexivity.
    + reflexivity.
    + vm_compute. reflexivity.
    + reflexivity.
    + reflexivity.
    + reflexivity.
    + reflexivity.
    + vm_compute. reflexivity.
    + vm_compute. reflexivity.
    + reflexivity.
    + vm_compute. reflexivity.
Defined.

(* ================================================================= *)
(** ** Remembered credentials *)

(** C10. [storeUserCredentials] with [rememberMe = false] returns the
    secure store it was given: the remembered email and the time of the
    last login read as before, whereas [clearStoredCredentials] removes
    both. *)
Theorem storeUserCredentials_without_rememberMe (store : SecureStore)
    (now : Z) (email : string) :
  storeUserCredentials store now email false = store /\
  getStoredEmail (storeUserCredentials store now email false)
    = getStoredEmail store /\
  getItemAsync (storeUserCredentials store now email false) "lastLoginTime"
    = getItemAsync store "lastLoginTime" /\
  getStoredEmail (clearStoredCredentials store) = None /\
  getItemAsync (clearStoredCredentials store) "lastLoginTime" = None.
Proof.
  repeat split.
  - unfold getStoredEmail, clearStoredCredentials, getItemAsync, deleteItemAsync.
    rewrite lookup_delete_ne by discriminate. apply lookup_delete_eq.
  - unfold clearStoredCredentials, getItemAsync, deleteItemAsync.
    apply lookup_delete_eq.
Qed.

(* ================================================================= *)
(** * Further properties of the service *)

(** ** Results *)

Lemma Ok_inj {A : Type} (a b : A) : Ok a = Ok b -> a = b.
Proof. now intros [= ->]. Qed.

(** ** Reading what was inserted *)

Lemma fold_max_ge (ids : list Z) (start : Z) :
  start <= fold_left Z.max ids start /\
  forall x, In x ids -> x <= fold_left Z.max ids start.
Proof.
  revert start. induction ids as [|y ids IH]; intros start; cbn [fold_left].
  - split; [lia|intros x []].
  - destruct (IH (Z.max start y)) as [Hstart Hin]. split; [lia|].
    intros x [->|Hx]; [lia|now apply Hin].
Qed.

(** The id of a new row is above the ids in use. *)
Lemma next_rowid_above (table : Table) (row : Row.t) :
  In row table -> Row.id row < next_rowid table.
Proof.
  destruct table as [|r table]; [intros []|].
  cbn [next_rowid]. destruct (fold_max_ge (map Row.id table) (Row.id r)) as [H0 H].
  intros [->|Hin]; [lia|].
  specialize (H (Row.id row) (in_map Row.id _ _ Hin)). lia.
Qed.

Lemma find_app_one {A : Type} (f : A -> bool) (l : list A) (x : A) :
  List.find f (l ++ [x])
  = match List.find f l with
    | Some y => Some y
    | None => if f x then Some x else None
    end.
Proof.
  induction l as [|y l IH]; [reflexivity|].
  cbn [app List.find]. now destruct (f y).
Qed.

Lemma NoDup_map_inj {A B : Type} (f : A -> B) (l : list A) (a b : A) :
  NoDup (map f l) -> In a l -> In b l -> f a = f b -> a = b.
Proof.
  induction l as [|x l IH]; [intros _ []|].
  cbn [map]. intros Hnd Ha Hb Hf. apply NoDup_cons in Hnd as [Hx Hnd].
  rewrite list_elem_of_In in Hx.
  destruct Ha as [->|Ha], Hb as [->|Hb].
  - reflexivity.
  - exfalso. apply Hx. rewrite Hf. now apply in_map.
  - exfalso. apply Hx. rewrite <- Hf. now apply in_map.
  - now apply IH.
Qed.

Lemma find_unique_email (table : Table) (row : Row.t) :
  unique_emails table -> In row table -> Row.is_active row = 1 ->
  List.find (select_by_email (Row.email row)) table = Some row.
Proof.
  intros Hnd Hin Hact.
  destruct (List.find _ table) as [row'|] eqn:Hfind.
  - apply find_some in Hfind as [Hin' Hsel].
    unfold select_by_email in Hsel. apply andb_true_iff in Hsel as [He _].
    apply String.eqb_eq in He.
    f_equal. exact (NoDup_map_inj Row.email table row' row Hnd Hin' Hin He).
  - exfalso. apply (find_none _ _ Hfind) in Hin.
    unfold select_by_email in Hin. rewrite String.eqb_refl, Hact in Hin.
    discriminate Hin.
Qed.

Lemma map_rows_complete (rows : list Row.t) (users : list User.t)
    (row : Row.t) (u : User.t) :
  map_rows rows = Ok users -> In row rows -> user_of_row row = Ok u ->
  In u users.
Proof.
  revert users. induction rows as [|r rows IH]; intros users; [intros _ []|].
  cbn [map_rows].
  destruct (user_of_row r) as [u0|] eqn:Hr; cbn [mbind result_bind]; [|discriminate].
  destruct (map_rows rows) as [us|] eqn:Hrs; cbn [mbind result_bind]; [|discriminate].
  intros [= <-] [->|Hin] Hu.
  - rewrite Hr in Hu. injection Hu as ->. now left.
  - right. now apply IH.
Qed.

Lemma user_of_row_fields (row : Row.t) (u : User.t) :
  user_of_row row = Ok u ->
  User.id u = Row.id row /\ User.email u = Row.email row /\
  User.name u = Row.name row /\ User.phone u = Row.phone row /\
  User.access_level u = Row.access_level row /\
  JSON_parse (Row.allowed_areas row) = Ok (User.allowed_areas u).
Proof.
  unfold user_of_row.
  destruct (JSON_parse _) as [areas|]; cbn [mbind result_bind]; [|discriminate].
  intros [= <-]. now repeat split.
Qed.

Lemma map_rows_fields (rows : list Row.t) (users : list User.t) :
  map_rows rows = Ok users ->
  Forall2 (fun row u => user_of_row row = Ok u) rows users.
Proof.
  revert users. induction rows as [|r rows IH]; intros users; cbn [map_rows].
  - intros [= <-]. constructor.
  - destruct (user_of_row r) as [u0|] eqn:Hr; cbn [mbind result_bind]; [|discriminate].
    destruct (map_rows rows) as [us|] eqn:Hrs; cbn [mbind result_bind]; [|discriminate].
    intros [= <-]. constructor; [exact Hr|now apply IH].
Qed.

Lemma map_rows_parse (rows : list Row.t) :
  forallb parses rows = true -> exists users, map_rows rows = Ok users.
Proof.
  induction rows as [|r rows IH]; cbn [forallb map_rows]; [now exists []|].
  intros H. apply andb_true_iff in H as [Hr Hrows].
  destruct (IH Hrows) as (us & ->).
  unfold parses in Hr. unfold user_of_row.
  destruct (JSON_parse (Row.allowed_areas r)); [|discriminate Hr].
  cbn [mbind result_bind]. eauto.
Qed.

Lemma forallb_filter {A : Type} (p f : A -> bool) (l : list A) :
  forallb p l = true -> forallb p (List.filter f l) = true.
Proof.
  induction l as [|x l IH]; [reflexivity|]. cbn [forallb List.filter].
  intros H. apply andb_true_iff in H as [Hx Hl].
  destruct (f x); cbn [forallb]; rewrite ?Hx; now apply IH.
Qed.

Lemma getAllUsers_parse (table : Table) :
  rows_parse table -> exists users, getAllUsers (Some table) = Ok users.
Proof.
  intros H. unfold getAllUsers. cbn [require_database mbind result_bind].
  now apply map_rows_parse, forallb_filter.
Qed.

Lemma getUserByEmail_parse (table : Table) (email : string) :
  rows_parse table -> exists found, getUserByEmail (Some table) email = Ok found.
Proof.
  intros H. unfold getUserByEmail. cbn [require_database mbind result_bind].
  destruct (List.find _ table) as [row|] eqn:Hfind; [|now exists None].
  apply find_some in Hfind as [Hin _].
  unfold rows_parse in H. rewrite forallb_forall in H. specialize (H row Hin).
  unfold parses in H. unfold user_of_row.
  destruct (JSON_parse (Row.allowed_areas row)); [|discriminate H].
  cbn [mbind result_bind]. eauto.
Qed.

Lemma parses_row_of (user : NewUser.t) (rowid : Z) : parses (row_of user rowid) = true.
Proof.
  unfold parses, row_of. cbn [Row.allowed_areas]. now rewrite JSON_parse_stringify.
Qed.

(** [insertUser] keeps a table sound. *)
Lemma insert_or_ignore_sound (table : Table) (user : NewUser.t) :
  sound_table table -> sound_table (insert_or_ignore table (row_of user)).
Proof.
  intros (Hids & Hemails & Hparse).
  split; [|split; [now apply insert_or_ignore_unique|]].
  - unfold insert_or_ignore. destruct (existsb _ table); [exact Hids|].
    unfold unique_ids. rewrite map_app. cbn [map row_of Row.id].
    apply NoDup_app. repeat split; [exact Hids| |apply NoDup_singleton].
    intros x Hx Hx'. apply list_elem_of_In in Hx, Hx'. cbn [In] in Hx'.
    destruct Hx' as [<-|[]]. apply in_map_iff in Hx as (row & Hid & Hin).
    apply next_rowid_above in Hin. lia.
  - unfold insert_or_ignore. destruct (existsb _ table); [exact Hparse|].
    unfold rows_parse. rewrite forallb_app. cbn [forallb].
    now rewrite Hparse, parses_row_of.
Qed.

(** X1. A record inserted under an email that no row carries is stored
    under an id above the ids in use and is read back by its email as it
    was given, the areas included, when it is active; an inactive one is
    not found.  The lookups of the other emails answer as before. *)
Theorem insertUser_reads_back (table : Table) (user : NewUser.t) :
  ~ In (NewUser.email user) (map Row.email table) ->
  exists table1,
    insertUser (Some table) user = Ok (Some table1) /\
    getUserByEmail (Some table1) (NewUser.email user)
    = Ok (if NewUser.is_active user
          then Some (stored_user (next_rowid table) user)
          else None) /\
    (forall row, In row table -> Row.id row < next_rowid table) /\
    (forall email, email <> NewUser.email user ->
       getUserByEmail (Some table1) email = getUserByEmail (Some table) email).
Proof.
  intros Hfresh. exists (table ++ [row_of user (next_rowid table)]).
  pose proof (getUserByEmail_inserted table user Hfresh) as Hread.
  rewrite insertUser_eq in Hread |- *. cbn [mbind result_bind] in Hread.
  rewrite insert_or_ignore_fresh in Hread |- * by exact Hfresh.
  split; [reflexivity|]. split; [exact Hread|]. split.
  - intros row. apply next_rowid_above.
  - intros email Hne. unfold getUserByEmail.
    cbn [require_database mbind result_bind]. rewrite find_app_one.
    destruct (List.find (select_by_email email) table); [reflexivity|].
    unfold select_by_email at 1. cbn [row_of Row.email].
    destruct (String.eqb_spec (NewUser.email user) email) as [He|_];
      [now elim Hne|reflexivity].
Qed.

Lemma insertUser_reads_back_witness :
  exists table1,
    insertUser (Some []) john = Ok (Some table1) /\
    getUserByEmail (Some table1) (NewUser.email john)
    = Ok (if NewUser.is_active john
          then Some (stored_user (next_rowid []) john)
          else None) /\
    (forall row, In row [] -> Row.id row < next_rowid []) /\
    (forall email, email <> NewUser.email john ->
       getUserByEmail (Some table1) email = getUserByEmail (Some []) email).
Proof.
  apply (insertUser_reads_back [] john). simpl. tauto.
Defined.

(** X2. In a table whose emails are unique, every row that is active is
    found by its email, and it is listed by [getAllUsers] whenever the
    listing succeeds: no active row is hidden from the reads. *)
Theorem active_rows_are_read (table : Table) (row : Row.t) (u : User.t) :
  unique_emails table -> In row table -> Row.is_active row = 1 ->
  user_of_row row = Ok u ->
  getUserByEmail (Some table) (Row.email row) = Ok (Some u) /\
  (forall users, getAllUsers (Some table) = Ok users -> In u users).
Proof.
  intros Hnd Hin Hact Hu. split.
  - unfold getUserByEmail. cbn [require_database mbind result_bind].
    rewrite find_unique_email by assumption. now rewrite Hu.
  - intros users. unfold getAllUsers. cbn [require_database mbind result_bind].
    intros Hall. apply (map_rows_complete _ _ row u Hall); [|exact Hu].
    apply filter_In. split; [exact Hin|].
    unfold select_active. now apply Z.eqb_eq.
Qed.

Lemma active_rows_are_read_witness :
  getUserByEmail (Some john_table) (Row.email (row_of john 1)) = Ok (Some john_user) /\
  (forall users, getAllUsers (Some john_table) = Ok users -> In john_user users).
Proof.
  apply (active_rows_are_read john_table (row_of john 1) john_user).
  - vm_compute. apply NoDup_cons_2; [apply not_elem_of_nil|apply NoDup_nil_2].
  - simpl. tauto.
  - reflexivity.
  - vm_compute. reflexivity.
Defined.

(** X3. What [getAllUsers] returns follows the active rows of the table
    one by one, in the order of the table: as many records as active
    rows, each with the id, the email, the name, the phone and the access
    level of its row and with the areas its text parses to. *)
Theorem getAllUsers_follows_the_table (table : Table) (users : list User.t) :
  getAllUsers (Some table) = Ok users ->
  Forall2 (fun row u =>
             User.id u = Row.id row /\ User.email u = Row.email row /\
             User.name u = Row.name row /\ User.phone u = Row.phone row /\
             User.access_level u = Row.access_level row /\
             JSON_parse (Row.allowed_areas row) = Ok (User.allowed_areas u))
    (List.filter select_active table) users /\
  length users = length (List.filter select_active table).
Proof.
  unfold getAllUsers. cbn [require_database mbind result_bind]. intros H.
  apply map_rows_fields in H. split.
  - induction H as [|row u rows us Hu _ IH]; constructor;
      [now apply user_of_row_fields|exact IH].
  - symmetry. exact (Forall2_length _ _ _ H).
Qed.

Lemma getAllUsers_follows_the_table_witness :
  Forall2 (fun row u =>
             User.id u = Row.id row /\ User.email u = Row.email row /\
             User.name u = Row.name row /\ User.phone u = Row.phone row /\
             User.access_level u = Row.access_level row /\
             JSON_parse (Row.allowed_areas row) = Ok (User.allowed_areas u))
    (List.filter select_active john_table) [john_user] /\
  length [john_user] = length (List.filter select_active john_table).
Proof.
  apply (getAllUsers_follows_the_table john_table [john_user]).
  vm_compute. reflexivity.
Defined.

(** X4. [insertUser] keeps a table sound: ids and emails stay unique and
    every text of areas stays a JSON text, the rows already stored are
    left as they were, at most one row is added after them, and the two
    reads do not throw on the table. *)
Theorem insertUser_keeps_table_sound (table : Table) (user : NewUser.t) :
  sound_table table ->
  exists table1 added,
    insertUser (Some table) user = Ok (Some table1) /\
    table1 = table ++ added /\ (length added <= 1)%nat /\
    sound_table table1 /\
    (exists users, getAllUsers (Some table1) = Ok users) /\
    (forall email, exists found, getUserByEmail (Some table1) email = Ok found).
Proof.
  intros Hsound.
  pose proof (insert_or_ignore_sound table user Hsound) as Hsound1.
  exists (insert_or_ignore table (row_of user)).
  exists (if existsb (fun r => String.eqb (Row.email r)
                                 (Row.email (row_of user (next_rowid table)))) table
          then [] else [row_of user (next_rowid table)]).
  split; [apply insertUser_eq|]. split; [|split; [|split; [exact Hsound1|split]]].
  - unfold insert_or_ignore. destruct (existsb _ table); [now rewrite app_nil_r|reflexivity].
  - destruct (existsb _ table); cbn [length]; lia.
  - apply getAllUsers_parse, Hsound1.
  - intros email. apply getUserByEmail_parse, Hsound1.
Qed.

Lemma insertUser_keeps_table_sound_witness :
  exists table1 added,
    insertUser (Some john_table) john = Ok (Some table1) /\
    table1 = john_table ++ added /\ (length added <= 1)%nat /\
    sound_table table1 /\
    (exists users, getAllUsers (Some table1) = Ok users) /\
    (forall email, exists found, getUserByEmail (Some table1) email = Ok found).
Proof.
  apply (insertUser_keeps_table_sound john_table john).
  split; [|split].
  - vm_compute. apply NoDup_cons_2; [apply not_elem_of_nil|apply NoDup_nil_2].
  - vm_compute. apply NoDup_cons_2; [apply not_elem_of_nil|apply NoDup_nil_2].
  - vm_compute. reflexivity.
Defined.

(** ** The obfuscation, whatever the salt *)

Lemma includes_clear (sep s : string) :
  includes sep s = false -> clear_before sep s EmptyString = true.
Proof.
  induction s as [|c s IH]; [reflexivity|].
  cbn [includes clear_before]. intros H. apply orb_false_iff in H as [Hp Hs].
  rewrite append_nil_r, Hp. cbn [negb andb]. now apply IH.
Qed.

Lemma str_split_absent (c : ascii) (sep' s : string) :
  includes (String c sep') s = false -> str_split (String c sep') s = [s].
Proof. intros H. now apply str_split_none, includes_clear. Qed.

Lemma prefix_shorter (a b s : string) :
  String.prefix (a +:+ b) s = true -> String.prefix a s = true.
Proof.
  revert s. induction a as [|c a IH]; intros s; [now rewrite prefix_nil|].
  cbn [String.append]. destruct s as [|c' s]; [discriminate|].
  rewrite !prefix_cons. intros H. apply andb_true_iff in H as [-> H].
  now apply IH.
Qed.

Lemma includes_longer (a b s : string) :
  includes a s = false -> includes (a +:+ b) s = false.
Proof.
  induction s as [|c s IH]; cbn [includes]; intros H;
    apply orb_false_iff in H as [Hp Hs]; apply orb_false_iff; split;
    try (now apply IH); try reflexivity.
  - destruct (String.prefix (a +:+ b) EmptyString) eqn:Hab; [|reflexivity].
    apply prefix_shorter in Hab. congruence.
  - destruct (String.prefix (a +:+ b) (String c s)) eqn:Hab; [|reflexivity].
    apply prefix_shorter in Hab. congruence.
Qed.

(** What [decryptData] returns from a blob of [encryptData]. *)
Lemma decryptData_encryptData (salt s : string) :
  valid_utf8 s = true ->
  includes (marker salt) s = false ->
  decryptData (btoa salt +:+ "::" +:+ btoa (s +:+ marker salt)) = Ok s.
Proof.
  intros Hvalid Hclear.
  unfold decryptData. rewrite split_blob. cbn [nth].
  rewrite atob_btoa. cbn [mbind result_bind].
  unfold decodeURIComponent_escape.
  rewrite valid_utf8_app; [|exact Hvalid|apply marker_valid_utf8].
  cbn [mbind result_bind]. fold (marker salt).
  now rewrite split_at_marker.
Qed.

Lemma marker_colon_free (salt s : string) :
  includes "::" s = false -> includes (marker salt) s = false.
Proof. intros H. unfold marker. now apply includes_longer. Qed.

(** X5. A well-formed text in which the separator [::] does not occur
    comes back from the obfuscation whatever salt is drawn. *)
Theorem decrypt_encrypt_any_salt (s : string) :
  valid_utf8 s = true -> includes "::" s = false ->
  forall salt, exists blob,
    encryptData salt s = Ok blob /\ decryptData blob = Ok s.
Proof.
  intros Hvalid Hclear salt. eexists. split; [now apply encryptData_eq|].
  apply decryptData_encryptData; [exact Hvalid|now apply marker_colon_free].
Qed.

Lemma decrypt_encrypt_any_salt_witness :
  exists blob,
    encryptData "fedcba9876543210" "hello" = Ok blob /\
    decryptData blob = Ok "hello".
Proof.
  apply (decrypt_encrypt_any_salt "hello"); vm_compute; reflexivity.
Defined.

(** X6. A blob in which the separator [::] does not occur is not
    decrypted: the second piece of the split is missing, and [atob]
    rejects the text [undefined] it receives for it. *)
Theorem decryptData_without_separator (blob : string) :
  includes "::" blob = false ->
  decryptData blob = Throw InvalidCharacterError.
Proof.
  intros H. unfold decryptData. rewrite str_split_absent by exact H.
  cbn [nth].
  replace (atob "undefined") with (@Throw string InvalidCharacterError)
    by (vm_compute; reflexivity).
  reflexivity.
Qed.

Lemma decryptData_without_separator_witness :
  decryptData "MDEyMzQ1Njc4OWFiY2RlZg==" = Throw InvalidCharacterError.
Proof.
  apply (decryptData_without_separator "MDEyMzQ1Njc4OWFiY2RlZg==").
  vm_compute. reflexivity.
Defined.

(** X7. The blob keeps nothing secret: it is the salt in base64, the
    separator and the base64 of the text itself followed by the marker,
    so that [atob] alone on its second piece gives the text back. *)
Theorem encryptData_blob_is_readable (salt s : string) :
  valid_utf8 s = true ->
  exists encrypted,
    encryptData salt s = Ok (btoa salt +:+ "::" +:+ encrypted) /\
    str_split "::" (btoa salt +:+ "::" +:+ encrypted) = [btoa salt; encrypted] /\
    atob encrypted = Ok (s +:+ marker salt) /\
    String.prefix s (s +:+ marker salt) = true.
Proof.
  intros Hvalid. exists (btoa (s +:+ marker salt)).
  split; [now apply encryptData_eq|]. split; [apply split_blob|].
  split; [apply atob_btoa|apply prefix_app].
Qed.

Lemma encryptData_blob_is_readable_witness :
  exists encrypted,
    encryptData salt0 "hello" = Ok (btoa salt0 +:+ "::" +:+ encrypted) /\
    str_split "::" (btoa salt0 +:+ "::" +:+ encrypted) = [btoa salt0; encrypted] /\
    atob encrypted = Ok ("hello" +:+ marker salt0) /\
    String.prefix "hello" ("hello" +:+ marker salt0) = true.
Proof.
  apply (encryptData_blob_is_readable salt0 "hello"). reflexivity.
Defined.

(** ** The device fingerprint *)

Lemma or_unknown_not_empty (x : option string) : or_unknown x <> EmptyString.
Proof.
  destruct x as [s|]; cbn [or_unknown]; [|discriminate].
  destruct (String.eqb_spec s EmptyString); [discriminate|assumption].
Qed.

Lemma or_unknown_again (x : option string) :
  or_unknown (Some (or_unknown x)) = or_unknown x.
Proof.
  cbn [or_unknown].
  destruct (String.eqb_spec (or_unknown x) EmptyString) as [H|_]; [|reflexivity].
  now apply or_unknown_not_empty in H.
Qed.

Lemma or_unknown_Some (s : string) : s <> EmptyString -> or_unknown (Some s) = s.
Proof.
  intros H. cbn [or_unknown]. now destruct (String.eqb_spec s EmptyString).
Qed.

(** X8. The fingerprint of every device is 64 hexadecimal digits.  A field
    that is missing or empty counts as the text [unknown]: the device has
    the fingerprint of the one that reports [unknown] for it. *)
Theorem getDeviceFingerprint_of_unknown (device : Device.t) :
  String.length (getDeviceFingerprint device) = 64%nat /\
  string_forallb is_hex (getDeviceFingerprint device) = true /\
  getDeviceFingerprint device
  = getDeviceFingerprint
      (Device.Build (Some (or_unknown (Device.osInternalBuildId device)))
         (Some (or_unknown (Device.deviceName device)))
         (Some (or_unknown (Device.osVersion device)))) /\
  getDeviceFingerprint (Device.Build None None None)
  = getDeviceFingerprint (Device.Build (Some EmptyString) (Some "unknown") None).
Proof.
  split; [apply digest_length|]. split; [apply digest_is_hex|]. split.
  - unfold getDeviceFingerprint. cbn [Device.osInternalBuildId Device.deviceName
      Device.osVersion]. now rewrite !or_unknown_again.
  - reflexivity.
Qed.

(** X9. The fingerprint is taken of the three fields joined by [-], and
    does not tell where one field ends: a device whose build id ends in
    [-b] has the fingerprint of the device whose name starts with [b-]. *)
Theorem getDeviceFingerprint_joins_fields (a b c : string)
    (osVersion : option string) :
  a <> EmptyString -> c <> EmptyString ->
  getDeviceFingerprint (Device.Build (Some (a +:+ "-" +:+ b)) (Some c) osVersion)
  = getDeviceFingerprint (Device.Build (Some a) (Some (b +:+ "-" +:+ c)) osVersion).
Proof.
  intros Ha Hc. unfold getDeviceFingerprint.
  cbn [Device.osInternalBuildId Device.deviceName Device.osVersion].
  rewrite !or_unknown_Some; try assumption.
  - now rewrite !append_assoc.
  - destruct b; discriminate.
  - destruct a; [contradiction|discriminate].
Qed.

Lemma getDeviceFingerprint_joins_fields_witness :
  getDeviceFingerprint (Device.Build (Some ("UP1A" +:+ "-" +:+ "231005")) (Some "Pixel") None)
  = getDeviceFingerprint (Device.Build (Some "UP1A") (Some ("231005" +:+ "-" +:+ "Pixel")) None).
Proof.
  apply (getDeviceFingerprint_joins_fields "UP1A" "231005" "Pixel" None); discriminate.
Defined.

(** ** What [verifyQRData] accepts *)

(** X10. An input that parses to anything but [null] and lacks one of
    [data], [signature] and [timestamp], or has a falsy value for it (an
    empty string, [0], [false], [null]), is rejected for its format,
    whatever the clock reads. *)
Theorem verifyQRData_rejects_format (now1 now2 : Z) (qrData : string)
    (parsed : json) (data signature timestamp : option json) :
  JSON_parse qrData = Ok parsed ->
  get_prop parsed "data" = Ok data ->
  get_prop parsed "signature" = Ok signature ->
  get_prop parsed "timestamp" = Ok timestamp ->
  truthy data && truthy signature && truthy timestamp = false ->
  verifyQRData now1 now2 qrData = Invalid "Invalid QR format".
Proof.
  intros Hparse Hd Hs Ht Hfalsy.
  rewrite (verifyQRData_parsed now1 now2 _ _ _ _ _ Hparse Hd Hs Ht).
  destruct (truthy data), (truthy signature), (truthy timestamp);
    try discriminate Hfalsy; reflexivity.
Qed.

Lemma verifyQRData_rejects_format_witness :
  verifyQRData 2000 2000
    (JSON_stringify (JObj [("data", JStr "{}"); ("signature", JStr (sign "{}"))]))
  = Invalid "Invalid QR format".
Proof.
  apply (verifyQRData_rejects_format 2000 2000 _
           (JObj [("data", JStr "{}"); ("signature", JStr (sign "{}"))])
           (Some (JStr "{}")) (Some (JStr (sign "{}"))) None).
  - apply JSON_parse_stringify.
  - reflexivity.
  - reflexivity.
  - reflexivity.
  - vm_compute. reflexivity.
Defined.

Lemma strict_ne_string_false (a : option json) (b : string) :
  strict_ne_string a b = false -> a = Some (JStr b).
Proof.
  destruct a as [[| | |s| |]|]; cbn [strict_ne_string]; try discriminate.
  intros H. apply negb_false_iff, String.eqb_eq in H. now subst.
Qed.

(** X11. [verifyQRData] accepts nothing unsigned.  When it answers valid
    with a payload, the input is an envelope whose [signature] is the
    digest of the text of [data] with the secret, whose [timestamp] is
    not more than 24 hours behind the clock, and the payload is what the
    text of [data] parses to, with no truthy [expires_at] that the clock
    has passed. *)
Theorem verifyQRData_valid_is_signed (now1 now2 : Z) (qrData : string) (p : json) :
  verifyQRData now1 now2 qrData = Valid p ->
  exists parsed data timestamp issued text expires_at,
    JSON_parse qrData = Ok parsed /\
    get_prop parsed "data" = Ok data /\
    get_prop parsed "signature" = Ok (Some (JStr (sign text))) /\
    get_prop parsed "timestamp" = Ok timestamp /\
    truthy data = true /\ truthy timestamp = true /\
    ToNumber timestamp = Ok issued /\
    js_gt (js_sub (Some now1) issued) (Some day_ms) = false /\
    ToString_opt data = Ok text /\
    JSON_parse text = Ok p /\
    get_prop p "expires_at" = Ok expires_at /\
    (truthy expires_at = false \/
     exists expiry, ToNumber expires_at = Ok expiry /\
                    js_gt (Some now2) expiry = false).
Proof.
  unfold verifyQRData.
  destruct (JSON_parse qrData) as [parsed|] eqn:Hparse;
    cbn [mbind result_bind try_catch]; [|discriminate].
  destruct (get_prop parsed "data") as [data|] eqn:Hd;
    cbn [mbind result_bind try_catch]; [|discriminate].
  destruct (get_prop parsed "signature") as [signature|] eqn:Hs;
    cbn [mbind result_bind try_catch]; [|discriminate].
  destruct (get_prop parsed "timestamp") as [timestamp|] eqn:Ht;
    cbn [mbind result_bind try_catch]; [|discriminate].
  destruct (truthy data) eqn:Hdata; cbn [negb orb try_catch]; [|discriminate].
  destruct (truthy signature) eqn:Hsig; cbn [negb orb try_catch]; [|discriminate].
  destruct (truthy timestamp) eqn:Hts; cbn [negb orb try_catch]; [|discriminate].
  destruct (ToNumber timestamp) as [issued|] eqn:Hissued;
    cbn [mbind result_bind try_catch]; [|discriminate].
  fold day_ms.
  destruct (js_gt (js_sub (Some now1) issued) (Some day_ms)) eqn:Hage;
    cbn [try_catch]; [discriminate|].
  destruct (ToString_opt data) as [text|] eqn:Htext;
    cbn [mbind result_bind try_catch]; [|discriminate].
  fold (sign text).
  destruct (strict_ne_string signature (sign text)) eqn:Hsigned;
    cbn [try_catch]; [discriminate|].
  apply strict_ne_string_false in Hsigned. subst signature.
  destruct (JSON_parse text) as [payload|] eqn:Hpayload;
    cbn [mbind result_bind try_catch]; [|discriminate].
  destruct (get_prop payload "expires_at") as [expires_at|] eqn:Hexp;
    cbn [mbind result_bind try_catch]; [|discriminate].
  destruct (truthy expires_at) eqn:Htruthy.
  - destruct (ToNumber expires_at) as [expiry|] eqn:Hexpiry;
      cbn [mbind result_bind try_catch]; [|discriminate].
    destruct (js_gt (Some now2) expiry) eqn:Hsoft; cbn [try_catch]; [discriminate|].
    intros [= <-].
    exists parsed, data, timestamp, issued, text, expires_at.
    repeat split; try assumption. right. now exists expiry.
  - cbn [try_catch]. intros [= <-].
    exists parsed, data, timestamp, issued, text, expires_at.
    repeat split; try assumption. now left.
Qed.

Lemma verifyQRData_valid_is_signed_witness :
  exists parsed data timestamp issued text expires_at,
    JSON_parse token_open = Ok parsed /\
    get_prop parsed "data" = Ok data /\
    get_prop parsed "signature" = Ok (Some (JStr (sign text))) /\
    get_prop parsed "timestamp" = Ok timestamp /\
    truthy data = true /\ truthy timestamp = true /\
    ToNumber timestamp = Ok issued /\
    js_gt (js_sub (Some 2000) issued) (Some day_ms) = false /\
    ToString_opt data = Ok text /\
    JSON_parse text = Ok payload_open /\
    get_prop payload_open "expires_at" = Ok expires_at /\
    (truthy expires_at = false \/
     exists expiry, ToNumber expires_at = Ok expiry /\
                    js_gt (Some 2000) expiry = false).
Proof.
  apply (verifyQRData_valid_is_signed 2000 2000 token_open payload_open).
  vm_compute. reflexivity.
Defined.

(** X12. The life of a token.  A token issued when the clock reads [t > 0]
    is valid, with the payload that was signed, as long as the first
    reading of the clock is at most 24 hours and the second at most one
    hour after [t]; past either it is rejected as expired.  A clock that
    reads less than [t] does not make it invalid. *)
Theorem token_lifetime (device : Device.t) (user : User.t) (t now1 now2 : Z) :
  0 < t ->
  verifyQRData now1 now2 (generateSecureQRData device t user)
  = if (day_ms <? now1 - t) || (t + hour_ms <? now2)
    then Invalid "QR code expired"
    else Valid (qrPayload device t user).
Proof.
  intros Ht.
  set (text := JSON_stringify (qrPayload device t user)).
  destruct (day_ms <? now1 - t) eqn:Hage; cbn [orb].
  - rewrite (verifyQRData_parsed now1 now2 _ (envelope text (sign text) t)
               (Some (JStr text)) (Some (JStr (sign text))) (Some (JNum t)));
      try reflexivity; [|apply generate_parse].
    assert (Htext : truthy (Some (JStr text)) = true).
    { apply truthy_str. intros H.
      pose proof (JSON_parse_stringify (qrPayload device t user)) as Hp.
      fold text in Hp. rewrite H in Hp. discriminate Hp. }
    rewrite Htext, sign_truthy.
    assert (Hts : truthy (Some (JNum t)) = true) by (apply truthy_num; lia).
    rewrite Hts. cbn [negb orb ToNumber mbind result_bind js_sub js_gt].
    now rewrite Hage.
  - apply Z.ltb_ge in Hage.
    rewrite (verifyQRData_soft_window now1 now2
               (generateSecureQRData device t user)
               (envelope text (sign text) t) text t
               (qrPayload device t user) (t + hour_ms));
      try reflexivity; try assumption.
    + apply generate_parse.
    + lia.
    + apply JSON_parse_stringify.
    + unfold hour_ms. lia.
Qed.

Lemma token_lifetime_witness :
  verifyQRData 1700003600000 1700003600001
    (generateSecureQRData device0 1700000000000 john_user)
  = if (day_ms <? 1700003600000 - 1700000000000)
       || (1700000000000 + hour_ms <? 1700003600001)
    then Invalid "QR code expired"
    else Valid (qrPayload device0 1700000000000 john_user).
Proof.
  apply (token_lifetime device0 john_user 1700000000000 1700003600000 1700003600001).
  lia.
Defined.

(** ** What a token holds *)

Lemma JSON_stringify_inj (v w : json) : JSON_stringify v = JSON_stringify w -> v = w.
Proof.
  intros H. apply (f_equal JSON_parse) in H.
  rewrite !JSON_parse_stringify in H. now apply Ok_inj in H.
Qed.

(** X13. A token tells what it was issued for.  Two calls of
    [generateSecureQRData] that return the same text were made at the
    same reading of the clock, for users with the same id, email, name,
    access level and areas, on devices with the same fingerprint; the
    phone and the active flag of the user are not in the token. *)
Theorem token_determines_its_payload (device device' : Device.t)
    (t t' : Z) (user user' : User.t) :
  generateSecureQRData device t user = generateSecureQRData device' t' user' ->
  t = t' /\
  User.id user = User.id user' /\
  User.email user = User.email user' /\
  User.name user = User.name user' /\
  User.access_level user = User.access_level user' /\
  User.allowed_areas user = User.allowed_areas user' /\
  getDeviceFingerprint device = getDeviceFingerprint device' /\
  forall phone active,
    generateSecureQRData device t
      (User.Build (User.id user) (User.email user) (User.name user) phone
         (User.access_level user) (User.allowed_areas user) active)
    = generateSecureQRData device t user.
Proof.
  intros H. unfold generateSecureQRData in H. apply JSON_stringify_inj in H.
  assert (Hdata : JStr (JSON_stringify (qrPayload device t user))
                  = JStr (JSON_stringify (qrPayload device' t' user')))
    by congruence.
  assert (Hpayload : qrPayload device t user = qrPayload device' t' user').
  { apply JSON_stringify_inj. congruence. }
  unfold qrPayload in Hpayload.
  repeat split; try congruence.
Qed.

Lemma token_determines_its_payload_witness :
  1700000000000 = 1700000000000 /\
  User.id john_moved = User.id john_user /\
  User.email john_moved = User.email john_user /\
  User.name john_moved = User.name john_user /\
  User.access_level john_moved = User.access_level john_user /\
  User.allowed_areas john_moved = User.allowed_areas john_user /\
  getDeviceFingerprint device0 = getDeviceFingerprint device0 /\
  forall phone active,
    generateSecureQRData device0 1700000000000
      (User.Build (User.id john_moved) (User.email john_moved)
         (User.name john_moved) phone (User.access_level john_moved)
         (User.allowed_areas john_moved) active)
    = generateSecureQRData device0 1700000000000 john_moved.
Proof.
  apply (token_determines_its_payload device0 device0
           1700000000000 1700000000000 john_moved john_user).
  reflexivity.
Defined.

(** ** The session in the secure store *)

Lemma digit_not_white_space (c : ascii) (s : string) :
  starts_number c = true -> white_space_length (String c s) = 0%nat.
Proof.
  intros Hc.
  destruct c as [[] [] [] [] [] [] [] []]; try discriminate Hc;
    destruct s as [|c1 [|c2 s]]; reflexivity.
Qed.

Lemma trim_go_digit (c : ascii) (s : string) :
  starts_number c = true -> trim_go 0 (String c s) = String c s.
Proof.
  intros Hc. cbn [trim_go]. now rewrite digit_not_white_space.
Qed.

Lemma scan_decimal_uint (u : Decimal.uint) :
  u <> Decimal.Nil ->
  scan_decimal (NilEmpty.string_of_uint u) = Some (Z.of_uint u).
Proof.
  intros Hu. unfold scan_decimal.
  rewrite <- (append_nil_r (NilEmpty.string_of_uint u)).
  rewrite scan_digits_uint by reflexivity.
  destruct u; [contradiction|reflexivity..].
Qed.

(** The digits of a positive number do not start with [0]. *)
Lemma pos_first_digit (p : positive) :
  exists c s, NilEmpty.string_of_uint (Pos.to_uint p) = String c s /\
              starts_number c = true /\ Ascii.eqb c "-" = false /\
              Ascii.eqb c "+" = false /\ Ascii.eqb c "0" = false.
Proof.
  destruct (Pos.to_uint p) eqn:Hp.
  - now apply DecimalPos.Unsigned.to_uint_nonnil in Hp.
  - now apply to_uint_not_D0 in Hp.
  - eexists _, _. repeat split.
  - eexists _, _. repeat split.
  - eexists _, _. repeat split.
  - eexists _, _. repeat split.
  - eexists _, _. repeat split.
  - eexists _, _. repeat split.
  - eexists _, _. repeat split.
  - eexists _, _. repeat split.
  - eexists _, _. repeat split.
Qed.

Lemma parseInt_magnitude (c : ascii) (s : string) (negative : bool) (u : Decimal.uint) :
  Ascii.eqb c "0" = false -> u <> Decimal.Nil ->
  String c s = NilEmpty.string_of_uint u ->
  match
    match String c s with
    | String z (String x r) =>
        if Ascii.eqb z "0" && (Ascii.eqb x "x" || Ascii.eqb x "X")
        then scan_hex None r
        else scan_decimal (String c s)
    | _ => scan_decimal (String c s)
    end
  with
  | Some n => Some (if negative then - n else n)
  | None => None
  end = Some (if negative then - Z.of_uint u else Z.of_uint u).
Proof.
  intros Hc Hu Hs.
  assert (Hscan : scan_decimal (String c s) = Some (Z.of_uint u))
    by (rewrite Hs; now apply scan_decimal_uint).
  destruct s as [|x r]; rewrite ?Hc; cbn [andb]; now rewrite Hscan.
Qed.

(** [parseInt] reads back what [toString] wrote. *)
Lemma parseInt_number_to_string (n : Z) : parseInt (number_to_string n) = Some n.
Proof.
  unfold number_to_string.
  destruct n as [|p|p]; cbn [Z.to_int NilZero.string_of_int].
  - reflexivity.
  - rewrite string_of_uint_pos.
    destruct (pos_first_digit p) as (c & s & Hs & Hnum & Hminus & Hplus & Hzero).
    unfold parseInt. rewrite Hs, trim_go_digit by exact Hnum.
    rewrite Hminus, Hplus.
    rewrite (parseInt_magnitude c s false (Pos.to_uint p)); auto.
    + now rewrite of_uint_to_uint.
    + apply DecimalPos.Unsigned.to_uint_nonnil.
  - rewrite string_of_uint_pos.
    destruct (pos_first_digit p) as (c & s & Hs & Hnum & Hminus & Hplus & Hzero).
    unfold parseInt. cbn [String.append].
    rewrite trim_go_digit by reflexivity.
    change (Ascii.eqb "-" "-") with true. cbv iota. rewrite Hs.
    rewrite (parseInt_magnitude c s true (Pos.to_uint p)); auto.
    + now rewrite of_uint_to_uint.
    + apply DecimalPos.Unsigned.to_uint_nonnil.
Qed.

Lemma number_to_string_not_empty (n : Z) :
  String.eqb (number_to_string n) EmptyString = false.
Proof.
  destruct (number_first_char n) as (c & s & -> & _). reflexivity.
Qed.

Lemma isLoginRecent_item (store : SecureStore) (now : Z) (v : string) :
  getItemAsync store "lastLoginTime" = Some v ->
  isLoginRecent store now = js_lt (js_sub (Some now) (parseInt v)) (Some day_ms).
Proof.
  intros Hv. unfold isLoginRecent. rewrite Hv.
  destruct (String.eqb_spec v EmptyString) as [->|_]; reflexivity.
Qed.

(** X14. What [storeUserCredentials] remembers reads back: the email as it
    was given, and a login that is recent exactly until 24 hours have
    passed on the clock. *)
Theorem remembered_login_reads_back (store : SecureStore) (t0 t1 : Z)
    (email : string) :
  getStoredEmail (storeUserCredentials store t0 email true) = Some email /\
  isLoginRecent (storeUserCredentials store t0 email true) t1
  = (t1 - t0 <? day_ms).
Proof.
  unfold storeUserCredentials, getStoredEmail, getItemAsync, setItemAsync. split.
  - rewrite lookup_insert_ne by discriminate. apply lookup_insert_eq.
  - rewrite (isLoginRecent_item _ _ (number_to_string t0)).
    + now rewrite parseInt_number_to_string.
    + apply lookup_insert_eq.
Qed.

Lemma parseInt_empty : parseInt EmptyString = None.
Proof. reflexivity. Qed.

(** X15. [isLoginRecent] answers [true] exactly when the item
    [lastLoginTime] starts with an integer less than 24 hours behind the
    clock: it answers [false] on an item that is missing, empty or not a
    number, and so after [clearStoredCredentials]. *)
Theorem isLoginRecent_true_iff (store : SecureStore) (now : Z) :
  (isLoginRecent store now = true <->
   exists v n, getItemAsync store "lastLoginTime" = Some v /\
               parseInt v = Some n /\ now - n < day_ms) /\
  isLoginRecent (clearStoredCredentials store) now = false.
Proof.
  split.
  - unfold isLoginRecent.
    destruct (getItemAsync store "lastLoginTime") as [v|] eqn:Hv.
    + destruct (String.eqb_spec v EmptyString) as [->|_].
      * split; [discriminate|].
        intros (v & n & [= <-] & Hn & _). discriminate Hn.
      * destruct (parseInt v) as [n|] eqn:Hn; cbn [js_sub js_lt].
        -- rewrite Z.ltb_lt. split.
           ++ intros H. now exists v, n.
           ++ intros (v' & n' & [= <-] & Hn' & H). rewrite Hn in Hn'.
              now injection Hn' as <-.
        -- split; [discriminate|].
           intros (v' & n' & [= <-] & Hn' & _). rewrite Hn in Hn'. discriminate Hn'.
    + split; [discriminate|]. intros (v & n & H & _). discriminate H.
  - unfold isLoginRecent, clearStoredCredentials, getItemAsync, deleteItemAsync.
    now rewrite lookup_delete_eq.
Qed.

(** X16. The session token reads back as it was stored and is gone once
    cleared; it lives beside the remembered credentials: storing or
    clearing the one leaves the other as it was. *)
Theorem user_token_reads_back (store : SecureStore) (token email : string)
    (now t : Z) (rememberMe : bool) :
  getUserToken (storeUserToken store token) = Some token /\
  getUserToken (clearUserToken store) = None /\
  getStoredEmail (storeUserToken store token) = getStoredEmail store /\
  getStoredEmail (clearUserToken store) = getStoredEmail store /\
  isLoginRecent (storeUserToken store token) now = isLoginRecent store now /\
  isLoginRecent (clearUserToken store) now = isLoginRecent store now /\
  getUserToken (storeUserCredentials store t email rememberMe) = getUserToken store /\
  getUserToken (clearStoredCredentials store) = getUserToken store.
Proof.
  unfold getUserToken, storeUserToken, clearUserToken, getStoredEmail,
    isLoginRecent, storeUserCredentials, clearStoredCredentials,
    getItemAsync, setItemAsync, deleteItemAsync.
  repeat split.
  - apply lookup_insert_eq.
  - apply lookup_delete_eq.
  - now rewrite lookup_insert_ne.
  - now rewrite lookup_delete_ne.
  - now rewrite lookup_insert_ne.
  - now rewrite lookup_delete_ne.
  - destruct rememberMe; [|reflexivity]. now rewrite !lookup_insert_ne.
  - now rewrite !lookup_delete_ne.
Qed.

(** X17. After the logout of the QR screen nothing of the session is left:
    no remembered email, no recent login at any time, no token.  The
    stored seed is not touched. *)
Theorem handleLogout_forgets_session (store : SecureStore) (now : Z) :
  getStoredEmail (handleLogout store) = None /\
  isLoginRecent (handleLogout store) now = false /\
  getUserToken (handleLogout store) = None /\
  getItemAsync (handleLogout store) "demo_users_seed"
  = getItemAsync store "demo_users_seed" /\
  getEncryptedSeedData (handleLogout store) = getEncryptedSeedData store.
Proof.
  assert (Hseed : getItemAsync (handleLogout store) "demo_users_seed"
                  = getItemAsync store "demo_users_seed").
  { unfold handleLogout, clearUserToken, clearStoredCredentials,
      getItemAsync, deleteItemAsync.
    now rewrite !lookup_delete_ne. }
  unfold getEncryptedSeedData. rewrite Hseed.
  unfold handleLogout, clearUserToken, clearStoredCredentials, getStoredEmail,
    getUserToken, isLoginRecent, getItemAsync, deleteItemAsync.
  repeat split.
  - rewrite lookup_delete_ne by discriminate.
    rewrite lookup_delete_ne by discriminate. apply lookup_delete_eq.
  - rewrite lookup_delete_ne by discriminate. now rewrite lookup_delete_eq.
  - apply lookup_delete_eq.
Qed.

(** ** Seeding the table *)

Lemma seed_text_valid : valid_utf8 seed_text = true.
Proof. vm_compute. reflexivity. Qed.

Lemma seed_text_colon_free : includes "::" seed_text = false.
Proof. vm_compute. reflexivity. Qed.

Lemma encryptData_seed (salt : string) :
  encryptData salt seed_text
  = Ok (btoa salt +:+ "::" +:+ btoa (seed_text +:+ marker salt)).
Proof. apply encryptData_eq, seed_text_valid. Qed.

Lemma blob_not_empty (a b : string) :
  String.eqb (a +:+ "::" +:+ b) EmptyString = false.
Proof. destruct a; reflexivity. Qed.

(** The stored seed reads back as the list of [sampleUsers]. *)
Lemma getEncryptedSeedData_stored (store : SecureStore) (salt : string) :
  getItemAsync store "demo_users_seed"
  = Some (btoa salt +:+ "::" +:+ btoa (seed_text +:+ marker salt)) ->
  getEncryptedSeedData store = Some (JArr (map json_of_user sampleUsers)).
Proof.
  intros Hitem. unfold getEncryptedSeedData. rewrite Hitem, blob_not_empty.
  rewrite decryptData_encryptData;
    [|apply seed_text_valid|apply marker_colon_free, seed_text_colon_free].
  cbn [mbind result_bind]. unfold seed_text. rewrite JSON_parse_stringify.
  reflexivity.
Qed.

Lemma fold_insert_seed :
  fold_left (fun t u => insert_or_ignore t (row_of u)) sampleUsers [] = seed_table.
Proof. vm_compute. reflexivity. Qed.

Lemma insertUsers_seed : insertUsers (Some []) sampleUsers = Ok (Some seed_table).
Proof. rewrite insertUsers_eq. now rewrite fold_insert_seed. Qed.

Lemma insertUsers_null (users : list NewUser.t) :
  users <> [] -> insertUsers None users = Throw (Error "Database not initialized").
Proof. destruct users; [contradiction|reflexivity]. Qed.

Lemma createAndStore_eq (salt : string) (s : Service.t) :
  createAndStoreEncryptedSeedData salt s
  = Service.Build
      (match insertUsers (Service.database s) sampleUsers with
       | Ok database' => database'
       | Throw _ => Service.database s
       end)
      (<["demo_users_seed" := btoa salt +:+ "::" +:+ btoa (seed_text +:+ marker salt)]>
         (Service.store s)).
Proof.
  unfold createAndStoreEncryptedSeedData. fold seed_text.
  rewrite encryptData_seed. unfold setItemAsync.
  now destruct (insertUsers (Service.database s) sampleUsers).
Qed.

Lemma seed_user_json (user : NewUser.t) :
  seed_user (json_of_user user) = Ok (Some user).
Proof. destruct user as [e n p a areas []]; reflexivity. Qed.

Lemma insertSeed_users (table : Table) (users : list NewUser.t) :
  insertSeed (Some table) (map json_of_user users)
  = (Some (fold_left (fun t u => insert_or_ignore t (row_of u)) users table),
     Returns).
Proof.
  revert table. induction users as [|u users IH]; intros table; [reflexivity|].
  cbn [map insertSeed require_database]. rewrite seed_user_json, insertUser_eq.
  cbn [fold_left]. apply IH.
Qed.

Lemma getAllUsers_none_active (table : Table) :
  List.filter select_active table = [] -> getAllUsers (Some table) = Ok [].
Proof.
  intros H. unfold getAllUsers. cbn [require_database mbind result_bind].
  now rewrite H.
Qed.

Lemma getAllUsers_seed_table :
  getAllUsers (Some seed_table) = Ok (users_from 1 sampleUsers).
Proof. vm_compute. reflexivity. Qed.

(** What [seedSampleData] does on a table without an active row, when no
    stored seed can be read. *)
Lemma seedSampleData_creates (salt : string) (table : Table) (store : SecureStore) :
  List.filter select_active table = [] ->
  getEncryptedSeedData store = None ->
  seedSampleData salt (Service.Build (Some table) store)
  = (Service.Build
       (Some (fold_left (fun t u => insert_or_ignore t (row_of u)) sampleUsers table))
       (<["demo_users_seed" := btoa salt +:+ "::" +:+ btoa (seed_text +:+ marker salt)]>
          store),
     Returns).
Proof.
  intros Hnone Hseed. unfold seedSampleData.
  cbn [Service.database Service.store].
  rewrite getAllUsers_none_active by exact Hnone.
  cbn [length Z.of_nat Z.ltb Z.compare]. rewrite Hseed. cbn [has_elements].
  rewrite createAndStore_eq. cbn [Service.database Service.store].
  now rewrite insertUsers_eq.
Qed.

(** X18. The seed that [createAndStoreEncryptedSeedData] stores reads back,
    whatever salt was drawn, as the list of the ten sample users, each
    with the values [insertUser] binds for it. *)
Theorem stored_seed_reads_back (salt : string) (s : Service.t) :
  getEncryptedSeedData (Service.store (createAndStoreEncryptedSeedData salt s))
  = Some (JArr (map json_of_user sampleUsers)) /\
  Forall2 (fun v user => seed_user v = Ok (Some user))
    (map json_of_user sampleUsers) sampleUsers /\
  exists blob,
    encryptData salt seed_text = Ok blob /\
    Service.store (createAndStoreEncryptedSeedData salt s)
    = <["demo_users_seed" := blob]> (Service.store s).
Proof.
  rewrite createAndStore_eq. cbn [Service.store]. split; [|split].
  - apply (getEncryptedSeedData_stored _ salt). apply lookup_insert_eq.
  - induction sampleUsers as [|u users IH]; constructor;
      [apply seed_user_json|exact IH].
  - eexists. split; [apply encryptData_seed|reflexivity].
Qed.



(** X20. A table without an active row is seeded from the stored seed when
    the secure store holds one that the service wrote: the ten records
    are inserted as they were encrypted, whatever salt that was, and the
    secure store is left as it is; no salt is drawn.  On an empty table
    this gives the table of the first start. *)
Theorem seedSampleData_restores (salt salt' : string) (table : Table)
    (store : SecureStore) (blob : string) :
  List.filter select_active table = [] ->
  encryptData salt' seed_text = Ok blob ->
  getItemAsync store "demo_users_seed" = Some blob ->
  exists table1,
    insertUsers (Some table) sampleUsers = Ok (Some table1) /\
    seedSampleData salt (Service.Build (Some table) store)
    = (Service.Build (Some table1) store, Returns) /\
    (table = [] -> table1 = seed_table).
Proof.
  intros Hnone Hblob Hitem. rewrite encryptData_seed in Hblob.
  apply Ok_inj in Hblob. subst blob.
  exists (fold_left (fun t u => insert_or_ignore t (row_of u)) sampleUsers table).
  split; [apply insertUsers_eq|]. split.
  - unfold seedSampleData. cbn [Service.database Service.store].
    rewrite getAllUsers_none_active by exact Hnone.
    cbn [length Z.of_nat Z.ltb Z.compare].
    rewrite (getEncryptedSeedData_stored store salt' Hitem).
    change (has_elements (Some (JArr (map json_of_user sampleUsers)))) with (Ok true).
    cbv iota. now rewrite insertSeed_users.
  - intros ->. apply fold_insert_seed.
Qed.

Lemma seedSampleData_restores_witness :
  exists table1,
    insertUsers (Some []) sampleUsers = Ok (Some table1) /\
    seedSampleData "fedcba9876543210" (Service.Build (Some []) store_with_seed)
    = (Service.Build (Some table1) store_with_seed, Returns) /\
    (@nil Row.t = [] -> table1 = seed_table).
Proof.
  apply (seedSampleData_restores "fedcba9876543210" salt0 [] store_with_seed
           (btoa salt0 +:+ "::" +:+ btoa (seed_text +:+ marker salt0))).
  - reflexivity.
  - vm_compute. reflexivity.
  - apply lookup_insert_eq.
Defined.



(** X22. [resetDemoData] does not throw and leaves, whatever the table
    held, exactly the ten sample users under the ids 1 to 10, with the
    seed encrypted again under the new salt; on a service whose database
    was never opened it stores the seed and leaves the database null. *)
Theorem resetDemoData_reseeds (salt : string) (table : Table) (store : SecureStore) :
  exists blob,
    encryptData salt seed_text = Ok blob /\
    resetDemoData salt (Service.Build (Some table) store)
    = Service.Build (Some seed_table) (<["demo_users_seed" := blob]> store) /\
    resetDemoData salt (Service.Build None store)
    = Service.Build None (<["demo_users_seed" := blob]> store) /\
    getAllUsers (Some seed_table) = Ok (users_from 1 sampleUsers).
Proof.
  eexists. split; [apply encryptData_seed|].
  unfold resetDemoData. rewrite !createAndStore_eq.
  cbn [Service.database Service.store]. unfold deleteItemAsync.
  rewrite insert_delete_eq, insertUsers_seed.
  split; [reflexivity|]. split; [reflexivity|apply getAllUsers_seed_table].
Qed.

(** X23. A stored seed that cannot be read is replaced.  When the item
    [demo_users_seed] has no separator [::], [decryptData] throws,
    [getEncryptedSeedData] answers [null], and the first start seeds the
    table and overwrites the item with a fresh seed. *)
Theorem unreadable_seed_is_replaced (salt : string) (s : Service.t) (blob0 : string) :
  getItemAsync (Service.store s) "demo_users_seed" = Some blob0 ->
  includes "::" blob0 = false ->
  getEncryptedSeedData (Service.store s) = None /\
  exists blob,
    encryptData salt seed_text = Ok blob /\
    initDatabase salt None s
    = (Service.Build (Some seed_table)
         (<["demo_users_seed" := blob]> (Service.store s)), Returns) /\
    getEncryptedSeedData (<["demo_users_seed" := blob]> (Service.store s))
    = Some (JArr (map json_of_user sampleUsers)).
Proof.
  intros Hitem Hsep.
  assert (Hnull : getEncryptedSeedData (Service.store s) = None).
  { unfold getEncryptedSeedData. rewrite Hitem.
    destruct (String.eqb blob0 EmptyString); [reflexivity|].
    assert (Hthrow : decryptData blob0 = Throw InvalidCharacterError).
    { unfold decryptData. rewrite str_split_absent by exact Hsep. cbn [nth].
      replace (atob "undefined") with (@Throw string InvalidCharacterError)
        by (vm_compute; reflexivity).
      reflexivity. }
    now rewrite Hthrow. }
  split; [exact Hnull|]. eexists. split; [apply encryptData_seed|]. split.
  - unfold initDatabase. cbn [createTables from_option].
    rewrite seedSampleData_creates by (reflexivity || exact Hnull).
    now rewrite fold_insert_seed.
  - apply (getEncryptedSeedData_stored _ salt). apply lookup_insert_eq.
Qed.

Lemma unreadable_seed_is_replaced_witness :
  getEncryptedSeedData (Service.store (Service.Build None garbled_store)) = None /\
  exists blob,
    encryptData salt0 seed_text = Ok blob /\
    initDatabase salt0 None (Service.Build None garbled_store)
    = (Service.Build (Some seed_table)
         (<["demo_users_seed" := blob]>
            (Service.store (Service.Build None garbled_store))),
       Returns) /\
    getEncryptedSeedData
      (<["demo_users_seed" := blob]>
         (Service.store (Service.Build None garbled_store)))
    = Some (JArr (map json_of_user sampleUsers)).
Proof.
  apply (unreadable_seed_is_replaced salt0 (Service.Build None garbled_store) "seed").
  - apply lookup_insert_eq.
  - vm_compute. reflexivity.
Defined.

Lemma fold_insert_prefix (users : list NewUser.t) (table : Table) :
  exists added,
    fold_left (fun t u => insert_or_ignore t (row_of u)) users table = table ++ added.
Proof.
  revert table. induction users as [|u users IH]; intros table; cbn [fold_left].
  - exists []. now rewrite app_nil_r.
  - destruct (IH (insert_or_ignore table (row_of u))) as (added & ->).
    unfold insert_or_ignore. destruct (existsb _ table); [now exists added|].
    eexists. now rewrite <- app_assoc.
Qed.

Lemma fold_insert_unique (users : list NewUser.t) (table : Table) :
  unique_emails table ->
  unique_emails (fold_left (fun t u => insert_or_ignore t (row_of u)) users table).
Proof.
  revert table. induction users as [|u users IH]; intros table H; [exact H|].
  cbn [fold_left]. now apply IH, insert_or_ignore_unique.
Qed.

Lemma find_all_false {A : Type} (f : A -> bool) (l : list A) :
  (forall x, In x l -> f x = false) -> List.find f l = None.
Proof.
  induction l as [|y l IH]; [reflexivity|]. intros H. cbn [List.find].
  rewrite (H y) by now left. apply IH. intros x Hx. apply H. now right.
Qed.

(** X24. Seeding replaces no row.  The loop of [insertUser] over a list of
    users keeps every stored row where it was and adds rows after them;
    a row that is not active stays so, and its email is not found,
    even when the list holds an active user with that email. *)
Theorem insertUsers_keeps_stored_rows (table : Table) (users : list NewUser.t)
    (row : Row.t) :
  unique_emails table -> In row table ->
  exists table1 added,
    insertUsers (Some table) users = Ok (Some table1) /\
    table1 = table ++ added /\ In row table1 /\ unique_emails table1 /\
    (Row.is_active row <> 1 ->
     getUserByEmail (Some table1) (Row.email row) = Ok None).
Proof.
  intros Hnd Hin. destruct (fold_insert_prefix users table) as (added & Hfold).
  exists (table ++ added), added. rewrite insertUsers_eq, Hfold.
  pose proof (fold_insert_unique users table Hnd) as Hnd1. rewrite Hfold in Hnd1.
  assert (Hin1 : In row (table ++ added)) by (apply in_or_app; now left).
  repeat split; try assumption.
  intros Hinactive. unfold getUserByEmail. cbn [require_database mbind result_bind].
  rewrite find_all_false; [reflexivity|].
  intros r Hr. unfold select_by_email.
  destruct (String.eqb_spec (Row.email r) (Row.email row)) as [He|_]; [|reflexivity].
  rewrite (NoDup_map_inj Row.email _ r row Hnd1 Hr Hin1 He).
  cbn [andb]. now apply Z.eqb_neq.
Qed.

Lemma insertUsers_keeps_stored_rows_witness :
  exists table1 added,
    insertUsers (Some stale_table) sampleUsers = Ok (Some table1) /\
    table1 = stale_table ++ added /\ In (row_of john_inactive 1) table1 /\
    unique_emails table1 /\
    (Row.is_active (row_of john_inactive 1) <> 1 ->
     getUserByEmail (Some table1) (Row.email (row_of john_inactive 1)) = Ok None).
Proof.
  apply (insertUsers_keeps_stored_rows stale_table sampleUsers
           (row_of john_inactive 1)).
  - vm_compute. apply NoDup_cons_2; [apply not_elem_of_nil|apply NoDup_nil_2].
  - simpl. tauto.
Defined.

(** ** The views of the records *)

Section Sorting.

Context {A : Type} (comparefn : A -> A -> Z).

Lemma sort_insert_Permutation (x : A) (l : list A) :
  Permutation (sort_insert comparefn x l) (x :: l).
Proof.
  induction l as [|y l IH]; [reflexivity|]. cbn [sort_insert].
  destruct (0 <? comparefn x y); [|reflexivity].
  rewrite IH. apply perm_swap.
Qed.

Lemma Array_sort_Permutation (l : list A) : Permutation (Array_sort comparefn l) l.
Proof.
  induction l as [|x l IH]; [reflexivity|]. cbn [Array_sort].
  rewrite sort_insert_Permutation. now constructor.
Qed.

Hypothesis consistent : forall a b, 0 < comparefn a b -> comparefn b a <= 0.

Lemma sort_insert_HdRel (x y : A) (l : list A) :
  comparefn y x <= 0 -> HdRel (fun a b => comparefn a b <= 0) y l ->
  HdRel (fun a b => comparefn a b <= 0) y (sort_insert comparefn x l).
Proof.
  intros Hyx Hl. destruct l as [|z l]; cbn [sort_insert]; [now constructor|].
  destruct (0 <? comparefn x z); constructor; [|exact Hyx].
  now inversion Hl.
Qed.

Lemma sort_insert_Sorted (x : A) (l : list A) :
  Sorted (fun a b => comparefn a b <= 0) l ->
  Sorted (fun a b => comparefn a b <= 0) (sort_insert comparefn x l).
Proof.
  induction l as [|y l IH]; intros Hl; cbn [sort_insert].
  - repeat constructor.
  - apply Sorted_inv in Hl as [Hl Hy].
    destruct (0 <? comparefn x y) eqn:Hxy.
    + constructor; [now apply IH|].
      apply sort_insert_HdRel; [|exact Hy].
      apply consistent. now apply Z.ltb_lt.
    + constructor; [now constructor|]. constructor. now apply Z.ltb_ge.
Qed.

Lemma Array_sort_Sorted (l : list A) :
  Sorted (fun a b => comparefn a b <= 0) (Array_sort comparefn l).
Proof.
  induction l as [|x l IH]; cbn [Array_sort]; [constructor|].
  now apply sort_insert_Sorted.
Qed.

End Sorting.

Lemma Array_sort_map {A B : Type} (f : A -> B) (comparefn : B -> B -> Z)
    (l : list A) :
  Array_sort comparefn (map f l)
  = map f (Array_sort (fun a b => comparefn (f a) (f b)) l).
Proof.
  induction l as [|x l IH]; [reflexivity|]. cbn [map Array_sort]. rewrite IH.
  generalize (Array_sort (fun a b => comparefn (f a) (f b)) l). intros s.
  induction s as [|y s IHs]; [reflexivity|]. cbn [map sort_insert].
  destruct (0 <? comparefn (f x) (f y)); cbn [map]; now rewrite ?IHs.
Qed.

(** *** The order of the code units *)

Lemma units_lt_irrefl (x : list N) : units_lt x x = false.
Proof.
  induction x as [|a x IH]; [reflexivity|]. cbn [units_lt].
  now rewrite N.ltb_irrefl, N.eqb_refl, IH.
Qed.

Lemma units_lt_asym (x y : list N) : units_lt x y = true -> units_lt y x = false.
Proof.
  revert y. induction x as [|a x IH]; intros [|b y]; cbn [units_lt];
    try reflexivity; try discriminate.
  intros H. apply orb_true_iff in H as [H|H].
  - apply N.ltb_lt in H.
    replace (b <? a)%N with false by (symmetry; apply N.ltb_ge; lia).
    replace (b =? a)%N with false by (symmetry; apply N.eqb_neq; lia).
    reflexivity.
  - apply andb_true_iff in H as [Hab H]. apply N.eqb_eq in Hab as ->.
    now rewrite N.ltb_irrefl, N.eqb_refl, (IH y H).
Qed.

Lemma units_lt_trans (x y z : list N) :
  units_lt x y = true -> units_lt y z = true -> units_lt x z = true.
Proof.
  revert y z. induction x as [|a x IH]; intros [|b y] [|c z]; cbn [units_lt];
    try reflexivity; try discriminate.
  intros Hxy Hyz.
  apply orb_true_iff in Hxy as [Hab|Hxy], Hyz as [Hbc|Hyz].
  - apply N.ltb_lt in Hab, Hbc.
    replace (a <? c)%N with true by (symmetry; apply N.ltb_lt; lia). reflexivity.
  - apply andb_true_iff in Hyz as [Hbc _]. apply N.eqb_eq in Hbc as <-.
    now rewrite Hab.
  - apply andb_true_iff in Hxy as [Hab _]. apply N.eqb_eq in Hab as ->.
    now rewrite Hbc.
  - apply andb_true_iff in Hxy as [Hab Hxy], Hyz as [Hbc Hyz].
    apply N.eqb_eq in Hab as ->. rewrite Hbc, (IH y z Hxy Hyz).
    apply orb_true_r.
Qed.

Lemma units_lt_total (x y : list N) :
  units_lt x y = false -> units_lt y x = false -> x = y.
Proof.
  revert y. induction x as [|a x IH]; intros [|b y]; cbn [units_lt];
    try reflexivity; try discriminate.
  intros Hxy Hyx.
  apply orb_false_iff in Hxy as [Hab Hxy], Hyx as [Hba Hyx].
  apply N.ltb_ge in Hab, Hba. assert (a = b) as -> by lia.
  rewrite N.eqb_refl in Hxy, Hyx. f_equal. now apply IH.
Qed.

Lemma string_le_trans (s t u : string) :
  string_le s t -> string_le t u -> string_le s u.
Proof.
  unfold string_le, string_lt. intros Hst Htu.
  destruct (units_lt (utf16_units u) (utf16_units s)) eqn:Hus; [|reflexivity].
  destruct (units_lt (utf16_units s) (utf16_units t)) eqn:Hlt.
  - rewrite (units_lt_trans _ _ _ Hus Hlt) in Htu. discriminate Htu.
  - rewrite (units_lt_total _ _ Hlt Hst) in Hus. congruence.
Qed.

Lemma SortCompare_le (s t : string) : SortCompare s t <= 0 <-> string_le s t.
Proof.
  unfold SortCompare, string_le.
  destruct (string_lt s t) eqn:Hst.
  - unfold string_lt in *. rewrite (units_lt_asym _ _ Hst). split; [reflexivity|lia].
  - destruct (string_lt t s); split; (lia || discriminate || reflexivity).
Qed.

Lemma SortCompare_consistent (s t : string) :
  0 < SortCompare s t -> SortCompare t s <= 0.
Proof.
  unfold SortCompare.
  destruct (string_lt s t) eqn:Hst; [lia|].
  destruct (string_lt t s) eqn:Hts; lia.
Qed.

Lemma Sorted_string_le (l : list string) :
  Sorted string_le (Array_sort SortCompare l).
Proof.
  pose proof (Array_sort_Sorted SortCompare SortCompare_consistent l) as H.
  induction H as [|x s Hs IH Hx]; constructor; [exact IH|].
  destruct Hx; constructor. now apply SortCompare_le.
Qed.

(** *** Sets *)

Lemma Set_add_In (set : list string) (x y : string) :
  In y (Set_add String.eqb set x) <-> In y set \/ y = x.
Proof.
  unfold Set_add. destruct (existsb (String.eqb x) set) eqn:Hex.
  - apply existsb_exists in Hex as (z & Hz & He). apply String.eqb_eq in He as <-.
    split; [now left|]. intros [H| ->]; assumption.
  - rewrite in_app_iff. cbn [In]. intuition.
Qed.

Lemma Set_add_NoDup (set : list string) (x : string) :
  NoDup set -> NoDup (Set_add String.eqb set x).
Proof.
  intros Hnd. unfold Set_add. destruct (existsb (String.eqb x) set) eqn:Hex;
    [exact Hnd|].
  apply NoDup_app. repeat split; [exact Hnd| |apply NoDup_singleton].
  intros y Hy Hy'. apply list_elem_of_In in Hy, Hy'. cbn [In] in Hy'.
  destruct Hy' as [<-|[]].
  assert (Hno : existsb (String.eqb x) set = true)
    by (apply existsb_exists; exists x; split; [assumption|apply String.eqb_refl]).
  congruence.
Qed.

Lemma fold_Set_add (items set : list string) :
  NoDup set ->
  NoDup (fold_left (Set_add String.eqb) items set) /\
  forall y, In y (fold_left (Set_add String.eqb) items set) <-> In y set \/ In y items.
Proof.
  revert set. induction items as [|x items IH]; intros set Hnd; cbn [fold_left].
  - split; [exact Hnd|]. intros y. cbn [In]. tauto.
  - destruct (IH (Set_add String.eqb set x) (Set_add_NoDup set x Hnd)) as [Hnd' Hin].
    split; [exact Hnd'|]. intros y. rewrite Hin, Set_add_In. cbn [In].
    intuition.
Qed.

Lemma new_Set_strings (items : list string) :
  NoDup (new_Set String.eqb items) /\
  forall y, In y (new_Set String.eqb items) <-> In y items.
Proof.
  destruct (fold_Set_add items [] (NoDup_nil_2)) as [Hnd Hin].
  split; [exact Hnd|]. intros y. unfold new_Set. rewrite Hin. cbn [In]. tauto.
Qed.

(** The strings that a list of levels or areas is sorted to. *)
Lemma sorted_set (items : list string) :
  let listing := Array_sort SortCompare (new_Set String.eqb items) in
  NoDup listing /\ StronglySorted string_le listing /\
  forall y, In y listing <-> In y items.
Proof.
  intros listing.
  destruct (new_Set_strings items) as [Hnd Hin].
  assert (Hperm : Permutation listing (new_Set String.eqb items))
    by apply Array_sort_Permutation.
  split; [now rewrite Hperm|]. split.
  - apply Sorted_StronglySorted; [|apply Sorted_string_le].
    intros s t u. apply string_le_trans.
  - intros y. rewrite <- Hin. split; apply Permutation_in; [exact Hperm|].
    now symmetry.
Qed.

(** X25. [getAvailableAccessLevels] lists the access levels of the active
    users, each once, in the order of their code units. *)
Theorem getAvailableAccessLevels_lists_levels (database : Database)
    (users : list User.t) :
  getAllUsers database = Ok users ->
  NoDup (getAvailableAccessLevels database) /\
  StronglySorted string_le (getAvailableAccessLevels database) /\
  forall level,
    In level (getAvailableAccessLevels database) <->
    exists user, In user users /\ User.access_level user = level.
Proof.
  intros Hall. unfold getAvailableAccessLevels. rewrite Hall.
  cbn [mbind result_bind try_catch].
  destruct (sorted_set (map User.access_level users)) as (Hnd & Hsorted & Hin).
  split; [exact Hnd|]. split; [exact Hsorted|].
  intros level. rewrite Hin, in_map_iff. split.
  - intros (u & Hu & Hin'). now exists u.
  - intros (u & Hin' & Hu). now exists u.
Qed.

Lemma getAvailableAccessLevels_lists_levels_witness :
  NoDup (getAvailableAccessLevels (Some seed_table)) /\
  StronglySorted string_le (getAvailableAccessLevels (Some seed_table)) /\
  forall level,
    In level (getAvailableAccessLevels (Some seed_table)) <->
    exists user, In user (users_from 1 sampleUsers) /\ User.access_level user = level.
Proof.
  apply (getAvailableAccessLevels_lists_levels (Some seed_table)
           (users_from 1 sampleUsers)).
  vm_compute. reflexivity.
Defined.

Lemma string_array_inj (l l' : list string) :
  string_array l = string_array l' -> l = l'.
Proof.
  unfold string_array. intros [= H]. revert l' H.
  induction l as [|x l IH]; intros [|y l']; cbn [map]; try discriminate;
    [reflexivity|].
  intros [= -> H]. f_equal. now apply IH.
Qed.

Lemma areas_of_users (users : list User.t) :
  Forall (fun user => exists l, User.allowed_areas user = string_array l) users ->
  exists names,
    flat_map (fun user => flatten_one (User.allowed_areas user)) users
    = map JStr names /\
    forall area,
      In area names <->
      exists user l, In user users /\ User.allowed_areas user = string_array l /\
                     In area l.
Proof.
  induction 1 as [|u users (l & Hl) _ (names & Hflat & Hin)].
  - exists []. split; [reflexivity|]. intros area. split; [intros []|].
    intros (u & l & [] & _).
  - exists (l ++ names). cbn [flat_map]. rewrite Hflat, Hl, map_app.
    split; [reflexivity|]. intros area. rewrite in_app_iff, Hin. split.
    + intros [Harea|(u' & l' & Hu' & Hl' & Harea)].
      * exists u, l. repeat split; [now left|assumption..].
      * exists u', l'. repeat split; [now right|assumption..].
    + intros (u' & l' & [<-|Hu'] & Hl' & Harea).
      * left. rewrite Hl in Hl'. now rewrite (string_array_inj _ _ Hl').
      * right. now exists u', l'.
Qed.

Lemma Set_add_JStr (set : list string) (x : string) :
  Set_add SameValueZero (map JStr set) (JStr x)
  = map JStr (Set_add String.eqb set x).
Proof.
  unfold Set_add.
  assert (Hex : existsb (SameValueZero (JStr x)) (map JStr set)
                = existsb (String.eqb x) set).
  { induction set as [|y set IH]; [reflexivity|].
    cbn [map existsb SameValueZero]. now rewrite IH. }
  rewrite Hex. destruct (existsb (String.eqb x) set); [reflexivity|].
  now rewrite map_app.
Qed.

Lemma new_Set_JStr (items : list string) :
  new_Set SameValueZero (map JStr items) = map JStr (new_Set String.eqb items).
Proof.
  unfold new_Set. change (@nil json) with (map JStr []).
  generalize (@nil string). induction items as [|x items IH]; intros set;
    [reflexivity|].
  cbn [map fold_left]. rewrite Set_add_JStr. apply IH.
Qed.

Lemma strings_of_JStr (items : list string) :
  strings_of (map JStr items) = Ok (map (fun s => (s, JStr s)) items).
Proof.
  induction items as [|x items IH]; [reflexivity|].
  cbn [map strings_of ToString mbind result_bind]. now rewrite IH.
Qed.

Lemma sort_default_JStr (items : list string) :
  sort_default (map JStr items) = Ok (map JStr (Array_sort SortCompare items)).
Proof.
  destruct items as [|x [|y items]]; try reflexivity.
  unfold sort_default.
  change (map JStr (x :: y :: items)) with (JStr x :: JStr y :: map JStr items) at 1.
  cbv iota.
  change (JStr x :: JStr y :: map JStr items) with (map JStr (x :: y :: items)).
  rewrite strings_of_JStr. cbn [mbind result_bind].
  rewrite (Array_sort_map (fun s => (s, JStr s))
             (fun a b => SortCompare (fst a) (fst b))).
  rewrite map_map. reflexivity.
Qed.

(** X26. When the areas of every active user are an array of strings,
    [getAvailableAreas] lists the areas of the active users, each once,
    as strings in the order of their code units. *)
Theorem getAvailableAreas_lists_areas (database : Database) (users : list User.t) :
  getAllUsers database = Ok users ->
  Forall (fun user => exists l, User.allowed_areas user = string_array l) users ->
  exists areas,
    getAvailableAreas database = map JStr areas /\
    NoDup areas /\ StronglySorted string_le areas /\
    forall area,
      In area areas <->
      exists user l, In user users /\ User.allowed_areas user = string_array l /\
                     In area l.
Proof.
  intros Hall Htyped.
  destruct (areas_of_users users Htyped) as (names & Hflat & Hnames).
  destruct (sorted_set names) as (Hnd & Hsorted & Hin).
  exists (Array_sort SortCompare (new_Set String.eqb names)).
  split; [|split; [exact Hnd|split; [exact Hsorted|]]].
  - unfold getAvailableAreas. rewrite Hall. cbn [mbind result_bind].
    now rewrite Hflat, new_Set_JStr, sort_default_JStr.
  - intros area. now rewrite Hin.
Qed.

Lemma getAvailableAreas_lists_areas_witness :
  exists areas,
    getAvailableAreas (Some john_table) = map JStr areas /\
    NoDup areas /\ StronglySorted string_le areas /\
    forall area,
      In area areas <->
      exists user l, In user [john_user] /\
                     User.allowed_areas user = string_array l /\ In area l.
Proof.
  apply (getAvailableAreas_lists_areas (Some john_table) [john_user]).
  - vm_compute. reflexivity.
  - constructor; [|constructor]. eexists. reflexivity.
Defined.

(** X27. [getDemoUsers] shows the email, the name and the access level of
    every active user, each user once, and nothing else; under a
    comparison that is consistent the list is in the order of the access
    levels. *)
Theorem getDemoUsers_shows_active_users (localeCompare : string -> string -> Z)
    (database : Database) (users : list User.t) :
  getAllUsers database = Ok users ->
  Permutation (getDemoUsers localeCompare database) (map demo_user users) /\
  length (getDemoUsers localeCompare database) = length users /\
  ((forall a b, 0 < localeCompare a b -> localeCompare b a <= 0) ->
   Sorted (fun a b =>
             localeCompare (DemoUser.access_level a) (DemoUser.access_level b) <= 0)
     (getDemoUsers localeCompare database)).
Proof.
  intros Hall. unfold getDemoUsers. rewrite Hall.
  cbn [mbind result_bind try_catch]. fold demo_user.
  change (map (fun user => demo_user user) users) with (map demo_user users).
  split; [apply Array_sort_Permutation|]. split.
  - rewrite <- (length_map demo_user users).
    apply Permutation_length, Array_sort_Permutation.
  - intros Hconsistent.
    apply (Array_sort_Sorted
             (fun a b => localeCompare (DemoUser.access_level a)
                           (DemoUser.access_level b))).
    intros a b. apply Hconsistent.
Qed.

Lemma getDemoUsers_shows_active_users_witness :
  Permutation (getDemoUsers SortCompare (Some seed_table))
    (map demo_user (users_from 1 sampleUsers)) /\
  length (getDemoUsers SortCompare (Some seed_table))
  = length (users_from 1 sampleUsers) /\
  ((forall a b, 0 < SortCompare a b -> SortCompare b a <= 0) ->
   Sorted (fun a b =>
             SortCompare (DemoUser.access_level a) (DemoUser.access_level b) <= 0)
     (getDemoUsers SortCompare (Some seed_table))).
Proof.
  apply (getDemoUsers_shows_active_users SortCompare (Some seed_table)
           (users_from 1 sampleUsers)).
  vm_compute. reflexivity.
Defined.

Lemma map_rows_throws (rows : list Row.t) (row : Row.t) :
  In row rows -> parses row = false -> exists e, map_rows rows = Throw e.
Proof.
  induction rows as [|r rows IH]; [intros []|].
  intros Hin Hbad. cbn [map_rows].
  destruct (user_of_row r) as [u|e] eqn:Hr; cbn [mbind result_bind]; [|now exists e].
  destruct Hin as [->|Hin].
  - unfold parses in Hbad. unfold user_of_row in Hr.
    destruct (JSON_parse (Row.allowed_areas row)); discriminate.
  - destruct (IH Hin Hbad) as (e & ->). now exists e.
Qed.

(** X28. The views fail open.  When the database was not opened, or when
    the areas of one active row are a text without digits that is not a
    JSON text, [getAllUsers] throws and the three views return without
    throwing: [getDemoUsers] an empty list, the other two their fixed
    lists. *)
Theorem views_fail_open (localeCompare : string -> string -> Z)
    (database : Database) :
  database = None \/
  (exists table row,
     database = Some table /\ In row table /\
     Row.is_active row = 1 /\
     string_forallb not_digit (Row.allowed_areas row) = true /\
     parses row = false) ->
  (exists e, getAllUsers database = Throw e) /\
  getDemoUsers localeCompare database = [] /\
  getAvailableAccessLevels database
  = ["General"; "Staff"; "VIP"; "Security"; "Management"] /\
  getAvailableAreas database
  = map JStr ["Main Arena"; "VIP Lounge"; "Staff Area"; "Security Zone";
              "General Entrance"; "Food Court"].
Proof.
  intros H.
  assert (Hthrow : exists e, getAllUsers database = Throw e).
  { destruct H as [->|(table & row & -> & Hin & Hact & _ & Hbad)]; [now eexists|].
    unfold getAllUsers. cbn [require_database mbind result_bind].
    apply (map_rows_throws _ row); [|exact Hbad].
    apply filter_In. split; [exact Hin|]. unfold select_active. now apply Z.eqb_eq. }
  split; [exact Hthrow|]. destruct Hthrow as (e & He).
  unfold getDemoUsers, getAvailableAccessLevels, getAvailableAreas.
  rewrite He. repeat split.
Qed.

Lemma views_fail_open_witness :
  ((exists e, getAllUsers None = Throw e) /\
   getDemoUsers SortCompare None = [] /\
   getAvailableAccessLevels None
   = ["General"; "Staff"; "VIP"; "Security"; "Management"] /\
   getAvailableAreas None
   = map JStr ["Main Arena"; "VIP Lounge"; "Staff Area"; "Security Zone";
               "General Entrance"; "Food Court"]) /\
  ((exists e, getAllUsers (Some [corrupt_row]) = Throw e) /\
   getDemoUsers SortCompare (Some [corrupt_row]) = [] /\
   getAvailableAccessLevels (Some [corrupt_row])
   = ["General"; "Staff"; "VIP"; "Security"; "Management"] /\
   getAvailableAreas (Some [corrupt_row])
   = map JStr ["Main Arena"; "VIP Lounge"; "Staff Area"; "Security Zone";
               "General Entrance"; "Food Court"]).
Proof.
  split.
  - apply (views_fail_open SortCompare None). left. reflexivity.
  - apply (views_fail_open SortCompare (Some [corrupt_row])).
    right. exists ([corrupt_row]), corrupt_row.
    split; [reflexivity|]. split; [left; reflexivity|].
    split; [reflexivity|]. split; vm_compute; reflexivity.
Defined.

(** The views of the table of the first start. *)
Example seeded_views :
  getAvailableAccessLevels (Some seed_table)
  = ["General"; "Management"; "Security"; "Staff"; "VIP"] /\
  getAvailableAreas (Some seed_table)
  = map JStr ["Food Court"; "General Entrance"; "Main Arena"; "Security Zone";
              "Staff Area"; "VIP Lounge"] /\
  map DemoUser.email (getDemoUsers SortCompare (Some seed_table))
  = [ "john.athlete@sports.com"; "alex.media@news.com";
      "david.manager@event.com"; "maria.official@sports.org";
      "emma.security@event.com"; "mike.staff@event.com";
      "lisa.coach@sports.com"; "james.volunteer@event.com";
      "sarah.vip@company.com"; "sophie.sponsor@corp.com" ].
Proof. repeat split; vm_compute; reflexivity. Qed.
